(** * Peer selection (src/peer_select.cc): a shallow embedding

    The selection context [ps_state] of squid's peer selection and the
    functions of [peer_select.cc] that drive it.  The file is written in
    continuation style: every function below runs to the point where the
    C++ code hands control to an external subsystem (ACL checker, ICP/HTCP
    client, event queue, DNS cache) and returns; the subsystem later
    re-enters through one of the handlers ([peerCheckAlwaysDirectDone],
    [peerCheckNeverDirectDone], [peerHandlePingReply], [peerPingTimeout],
    [peerSelectDnsResults]).  The embedding keeps that shape: each handler
    is a function on a [world], and a selection is a list of [event]s
    delivered one after the other.

    State is threaded through a small state-and-fault monad [M]; calls to
    the external subsystems are recorded, in program order, in the
    [trace] of the world. *)

From Stdlib Require Import ZArith String List Bool Lia.
Import ListNotations.
Local Open Scope Z_scope.

(** ** Data model *)

(** [Ip::Address] is declared outside this file.  The code uses three
    observations of it: [IsAnyAddr] (the "unset" sentinel of a
    default-constructed address), [IsIPv4], and the port set by
    [SetPort].  An address is modelled by its numeric value, its family
    and its port; the default-constructed address is [no_addr]. *)
Record Address := mkAddress {
  ip_value : Z;
  ip_is_v4 : bool;
  ip_port : Z
}.

Definition no_addr : Address := mkAddress 0 false 0.
Definition IsAnyAddr (a : Address) : bool := ip_value a =? 0.
Definition IsIPv4 (a : Address) : bool := ip_is_v4 a.
Definition SetPort (a : Address) (p : Z) : Address :=
  mkAddress (ip_value a) (ip_is_v4 a) p.

(** The members of [struct peer] read by this file. *)
Record peer := mkPeer {
  host : string;
  in_addr : Address;
  http_port : Z;
  closest_only : bool;      (* options.closest_only *)
  no_tproxy : bool;         (* options.no_tproxy *)
  basetime : Z;
  weight : Z
}.

Inductive peer_t := PEER_NONE | PEER_SIBLING | PEER_PARENT | PEER_MULTICAST.

Inductive protocol_t := PROTO_HTTP | PROTO_WAIS | PROTO_ICP | PROTO_HTCP | PROTO_OTHER.

(** [hier_code.h]: the codes this file emits, and [HIER_NONE]. *)
Inductive hier_code :=
| HIER_NONE | HIER_DIRECT | SIBLING_HIT | PARENT_HIT | DEFAULT_PARENT
| FIRSTUP_PARENT | FIRST_PARENT_MISS | CLOSEST_PARENT_MISS | CLOSEST_PARENT
| CLOSEST_DIRECT | ROUNDROBIN_PARENT | CD_PARENT_HIT | CD_SIBLING_HIT
| CARP | ANY_OLD_PARENT | USERHASH_PARENT | SOURCEHASH_PARENT | PINNED.

(** The order of [DirectStr] fixes the numbering; [ps_state] starts with
    [direct(0)], that is [DIRECT_UNKNOWN]. *)
Inductive direct_t := DIRECT_UNKNOWN | DIRECT_NO | DIRECT_MAYBE | DIRECT_YES.

Inductive ping_status_t := PING_NONE | PING_WAITING | PING_DONE.

(** What [request->pinnedConnection()] gives when it is not null: the
    pinned peer, and whether [validatePinnedConnection] returns an open
    connection. *)
Record PinnedConn := mkPinned {
  pinnedPeer : option peer;
  pinned_conn_open : bool
}.

Record HttpRequest := mkRequest {
  req_host : string;                (* GetHost() *)
  req_port : Z;
  req_protocol : protocol_t;
  hierarchical : bool;              (* flags.hierarchical *)
  no_direct : bool;                 (* flags.no_direct *)
  loopdetect : bool;                (* flags.loopdetect *)
  spoof_client_ip : bool;           (* flags.spoof_client_ip *)
  client_addr : Address;
  pinnedConnection : option PinnedConn
}.

Record StoreEntry := mkEntry {
  url : string;
  ping_status : ping_status_t;
  flags : Z
}.

Definition set_ping_status (s : ping_status_t) (e : StoreEntry) : StoreEntry :=
  mkEntry (url e) s (flags e).

(** A forward-server record; the linked list [FwdServer *servers] is a
    [list FwdServer], head first. *)
Record FwdServer := mkFwd {
  _peer : option peer;
  code : hier_code
}.

(** [Comm::Connection] as filled in by [peerSelectDnsResults]. *)
Record Connection := mkConn {
  remote : Address;
  peerType : hier_code;
  local : Address
}.

Record ipcache_addrs := mkIa {
  count : Z;
  cur : Z;
  in_addrs : list Address
}.

(** [icp_common_t]: the fields read here. *)
Inductive icp_opcode := ICP_INVALID | ICP_QUERY | ICP_HIT | ICP_MISS | ICP_ERR
                      | ICP_SECHO | ICP_DECHO | ICP_MISS_NOFETCH | ICP_DENIED.

Record icp_common_t := mkIcp {
  opcode : icp_opcode;              (* getOpCode() *)
  icp_flags : Z;
  pad : Z
}.

(** [htcpReplyData]: [hit]; of the floating-point [cto.rtt] and
    [cto.hops] the code looks at the test [cto.rtt > 0] and at the values
    after the cast [(int)]. *)
Record htcpReplyData := mkHtcp {
  htcp_hit : bool;
  cto_rtt_positive : bool;
  cto_rtt_int : Z;
  cto_hops_int : Z
}.

(** The [pingdata] handed to [peerHandlePingReply], with the protocol
    tag that goes with it. *)
Inductive pingdata :=
| IcpData (h : icp_common_t)
| HtcpData (h : htcpReplyData)
| OtherData (proto : protocol_t).

(** Times are kept in milliseconds; [tvSubMsec a b] is [b - a]. *)
Definition tvSubMsec (a b : Z) : Z := b - a.

Record ping_data := mkPing {
  start : Z;
  stop : Z;
  n_sent : Z;
  n_recv : Z;
  n_replies_expected : Z;
  timeout : Z;
  timedout : Z;
  w_rtt : Z;
  p_rtt : Z
}.

(** [ping_data::ping_data()] *)
Definition ping_data_init : ping_data := mkPing 0 0 0 0 0 0 0 0 0.

Inductive acl_list := AlwaysDirect | NeverDirect.

Record ps_state := mkPs {
  request : HttpRequest;
  entry : option StoreEntry;
  always_direct : Z;
  never_direct : Z;
  direct : direct_t;
  callback : bool;                  (* the PSC pointer is not NULL *)
  callback_data : bool;             (* a cbdata reference is held *)
  servers : list FwdServer;
  paths : list Connection;          (* contents of the caller's list *)
  first_parent_miss : Address;
  closest_parent_miss : Address;
  hit : option peer;
  hit_type : peer_t;
  acl_checklist : option acl_list;
  ping : ping_data
}.

(** ** The environment

    Configuration ([Config]), compile-time switches, and the functions of
    other modules that this file calls.  None of them is defined in
    [peer_select.cc]; each is taken as a parameter.  [debugs_on s l] says
    whether the [debugs(s, l, ...)] macro evaluates its message at
    section [s] and level [l]. *)
Record Env := mkEnv {
  forward_max_tries : Z;
  has_AlwaysDirect : bool;          (* Config.accessList.AlwaysDirect != NULL *)
  has_NeverDirect : bool;
  prefer_direct : bool;
  nonhierarchical_direct : bool;
  query_icmp : bool;
  minDirectRtt : Z;
  minDirectHops : Z;
  peers : list peer;                (* Config.peers *)
  neighbors_do_private_keys : bool;
  USE_ICMP : bool;
  USE_HTCP : bool;
  USE_CACHE_DIGESTS : bool;
  KEY_PRIVATE : Z;                  (* bit number in StoreEntry::flags *)
  ICP_FLAG_SRC_RTT : Z;
  DBG_IMPORTANT : Z;
  debugs_on : Z -> Z -> bool;
  neighborsCount : HttpRequest -> Z;
  neighborsDigestSelect : HttpRequest -> option peer;
  neighborType : peer -> HttpRequest -> peer_t;
  netdbClosestParent : HttpRequest -> option peer;
  netdbHostRtt : string -> Z;
  netdbHostHops : string -> Z;
  whichPeer : Address -> option peer;
  peerHTTPOkay : peer -> HttpRequest -> bool;
  peerAllowedToUse : peer -> HttpRequest -> bool;
  (* n_sent, and the two out-parameters *)
  neighborsUdpPing : HttpRequest -> StoreEntry -> Z * Z * Z;
  getDefaultParent : HttpRequest -> option peer;
  peerUserHashSelectParent : HttpRequest -> option peer;
  peerSourceHashSelectParent : HttpRequest -> option peer;
  carpSelectParent : HttpRequest -> option peer;
  getRoundRobinParent : HttpRequest -> option peer;
  getWeightedRoundRobinParent : HttpRequest -> option peer;
  getFirstUpParent : HttpRequest -> option peer;
  getAnyParent : HttpRequest -> option peer;
  getOutgoingAddress : HttpRequest -> Address -> hier_code -> Address
}.

(** Calls that leave this file, in program order. *)
Inductive effect :=
| AclCheck (l : acl_list)                    (* nonBlockingCheck *)
| AclFree                                    (* delete acl_checklist *)
| UdpPing                                    (* neighborsUdpPing *)
| EventAdd (ms : Z)                          (* eventAdd("peerPingTimeout") *)
| EventDelete                                (* eventDelete(peerPingTimeout) *)
| NetdbUpdatePeer (p : peer) (rtt hops : Z)
| DnsLookup (h : string)                     (* ipcache_nbgethostbyname *)
| RecordLookup                               (* request->recordLookup *)
| Callback (ps : list Connection)            (* callback(paths, cbdata) *)
| RequestLock                                (* HTTPMSGLOCK *)
| RequestUnlock                              (* HTTPMSGUNLOCK *)
| EntryLock
| EntryUnlock (e : StoreEntry)
| StateFree.                                 (* cbdataFree(psstate) *)

(** The context together with what surrounds it: whether the caller's
    [callback_data] is still valid, whether the context was released,
    the clock, the file-level counter [PeerStats.timeouts], the copy
    [request->hier.ping], and what the context has outstanding with the
    event queue, the DNS cache, the ACL checker and the ICP/HTCP client. *)
Record world := mkWorld {
  ps : ps_state;
  cb_valid : bool;
  freed : bool;
  current_time : Z;
  PeerStats_timeouts : Z;
  hier_ping : ping_data;
  ping_timer : bool;                (* a peerPingTimeout event is queued *)
  dns_pending : nat;                (* lookups not yet answered *)
  acl_pending : bool;               (* a nonBlockingCheck not yet answered *)
  pings_sent : bool;                (* neighborsUdpPing was called *)
  trace : list effect
}.

(** Faults carry the line of [peer_select.cc] at which they arise. *)
Inductive fault :=
| NullDeref (line : Z)
| AssertFail (line : Z)
| OutOfRange (line : Z)
| DivByZero (line : Z).

Inductive res (A : Type) :=
| Ret (a : A) (w : world)
| Fault (f : fault) (w : world).
Arguments Ret {A} a w.
Arguments Fault {A} f w.

Definition M (A : Type) := world -> res A.

Definition ret {A} (a : A) : M A := fun w => Ret a w.
Definition bind {A B} (m : M A) (k : A -> M B) : M B :=
  fun w => match m w with
           | Ret a w' => k a w'
           | Fault f w' => Fault f w'
           end.
Definition raise {A} (f : fault) : M A := fun w => Fault f w.

Notation "x <- m ;; k" := (bind m (fun x => k))
  (at level 61, m at next level, right associativity).
Notation "m ;; k" := (bind m (fun _ => k))
  (at level 61, right associativity).

Definition world_of {A} (r : res A) : world :=
  match r with Ret _ w => w | Fault _ w => w end.


(** ** Field updates *)

Definition set_entry (v : option StoreEntry) (s : ps_state) : ps_state :=
  mkPs (request s) v (always_direct s) (never_direct s) (direct s)
    (callback s) (callback_data s) (servers s) (paths s)
    (first_parent_miss s) (closest_parent_miss s) (hit s) (hit_type s)
    (acl_checklist s) (ping s).
Definition set_always_direct (v : Z) (s : ps_state) : ps_state :=
  mkPs (request s) (entry s) v (never_direct s) (direct s) (callback s)
    (callback_data s) (servers s) (paths s) (first_parent_miss s)
    (closest_parent_miss s) (hit s) (hit_type s) (acl_checklist s) (ping s).
Definition set_never_direct (v : Z) (s : ps_state) : ps_state :=
  mkPs (request s) (entry s) (always_direct s) v (direct s) (callback s)
    (callback_data s) (servers s) (paths s) (first_parent_miss s)
    (closest_parent_miss s) (hit s) (hit_type s) (acl_checklist s) (ping s).
Definition set_direct (v : direct_t) (s : ps_state) : ps_state :=
  mkPs (request s) (entry s) (always_direct s) (never_direct s) v
    (callback s) (callback_data s) (servers s) (paths s)
    (first_parent_miss s) (closest_parent_miss s) (hit s) (hit_type s)
    (acl_checklist s) (ping s).
Definition set_callback (v : bool) (s : ps_state) : ps_state :=
  mkPs (request s) (entry s) (always_direct s) (never_direct s) (direct s) v
    (callback_data s) (servers s) (paths s) (first_parent_miss s)
    (closest_parent_miss s) (hit s) (hit_type s) (acl_checklist s) (ping s).
Definition set_callback_data (v : bool) (s : ps_state) : ps_state :=
  mkPs (request s) (entry s) (always_direct s) (never_direct s) (direct s)
    (callback s) v (servers s) (paths s) (first_parent_miss s)
    (closest_parent_miss s) (hit s) (hit_type s) (acl_checklist s) (ping s).
Definition set_servers (v : list FwdServer) (s : ps_state) : ps_state :=
  mkPs (request s) (entry s) (always_direct s) (never_direct s) (direct s)
    (callback s) (callback_data s) v (paths s) (first_parent_miss s)
    (closest_parent_miss s) (hit s) (hit_type s) (acl_checklist s) (ping s).
Definition set_paths (v : list Connection) (s : ps_state) : ps_state :=
  mkPs (request s) (entry s) (always_direct s) (never_direct s) (direct s)
    (callback s) (callback_data s) (servers s) v (first_parent_miss s)
    (closest_parent_miss s) (hit s) (hit_type s) (acl_checklist s) (ping s).
Definition set_first_parent_miss (v : Address) (s : ps_state) : ps_state :=
  mkPs (request s) (entry s) (always_direct s) (never_direct s) (direct s)
    (callback s) (callback_data s) (servers s) (paths s) v
    (closest_parent_miss s) (hit s) (hit_type s) (acl_checklist s) (ping s).
Definition set_closest_parent_miss (v : Address) (s : ps_state) : ps_state :=
  mkPs (request s) (entry s) (always_direct s) (never_direct s) (direct s)
    (callback s) (callback_data s) (servers s) (paths s)
    (first_parent_miss s) v (hit s) (hit_type s) (acl_checklist s) (ping s).
Definition set_hit (v : option peer) (s : ps_state) : ps_state :=
  mkPs (request s) (entry s) (always_direct s) (never_direct s) (direct s)
    (callback s) (callback_data s) (servers s) (paths s)
    (first_parent_miss s) (closest_parent_miss s) v (hit_type s)
    (acl_checklist s) (ping s).
Definition set_hit_type (v : peer_t) (s : ps_state) : ps_state :=
  mkPs (request s) (entry s) (always_direct s) (never_direct s) (direct s)
    (callback s) (callback_data s) (servers s) (paths s)
    (first_parent_miss s) (closest_parent_miss s) (hit s) v
    (acl_checklist s) (ping s).
Definition set_acl_checklist (v : option acl_list) (s : ps_state) : ps_state :=
  mkPs (request s) (entry s) (always_direct s) (never_direct s) (direct s)
    (callback s) (callback_data s) (servers s) (paths s)
    (first_parent_miss s) (closest_parent_miss s) (hit s) (hit_type s) v
    (ping s).
Definition set_ping (v : ping_data) (s : ps_state) : ps_state :=
  mkPs (request s) (entry s) (always_direct s) (never_direct s) (direct s)
    (callback s) (callback_data s) (servers s) (paths s)
    (first_parent_miss s) (closest_parent_miss s) (hit s) (hit_type s)
    (acl_checklist s) v.
Definition set_start (v : Z) (g : ping_data) : ping_data :=
  mkPing v (stop g) (n_sent g) (n_recv g) (n_replies_expected g) (timeout g)
    (timedout g) (w_rtt g) (p_rtt g).
Definition set_stop (v : Z) (g : ping_data) : ping_data :=
  mkPing (start g) v (n_sent g) (n_recv g) (n_replies_expected g)
    (timeout g) (timedout g) (w_rtt g) (p_rtt g).
Definition set_n_sent (v : Z) (g : ping_data) : ping_data :=
  mkPing (start g) (stop g) v (n_recv g) (n_replies_expected g) (timeout g)
    (timedout g) (w_rtt g) (p_rtt g).
Definition set_n_recv (v : Z) (g : ping_data) : ping_data :=
  mkPing (start g) (stop g) (n_sent g) v (n_replies_expected g) (timeout g)
    (timedout g) (w_rtt g) (p_rtt g).
Definition set_n_replies_expected (v : Z) (g : ping_data) : ping_data :=
  mkPing (start g) (stop g) (n_sent g) (n_recv g) v (timeout g) (timedout g)
    (w_rtt g) (p_rtt g).
Definition set_timeout (v : Z) (g : ping_data) : ping_data :=
  mkPing (start g) (stop g) (n_sent g) (n_recv g) (n_replies_expected g) v
    (timedout g) (w_rtt g) (p_rtt g).
Definition set_timedout (v : Z) (g : ping_data) : ping_data :=
  mkPing (start g) (stop g) (n_sent g) (n_recv g) (n_replies_expected g)
    (timeout g) v (w_rtt g) (p_rtt g).
Definition set_w_rtt (v : Z) (g : ping_data) : ping_data :=
  mkPing (start g) (stop g) (n_sent g) (n_recv g) (n_replies_expected g)
    (timeout g) (timedout g) v (p_rtt g).
Definition set_p_rtt (v : Z) (g : ping_data) : ping_data :=
  mkPing (start g) (stop g) (n_sent g) (n_recv g) (n_replies_expected g)
    (timeout g) (timedout g) (w_rtt g) v.
Definition with_ps (v : ps_state) (w : world) : world :=
  mkWorld v (cb_valid w) (freed w) (current_time w) (PeerStats_timeouts w)
    (hier_ping w) (ping_timer w) (dns_pending w) (acl_pending w)
    (pings_sent w) (trace w).
Definition with_cb_valid (v : bool) (w : world) : world :=
  mkWorld (ps w) v (freed w) (current_time w) (PeerStats_timeouts w)
    (hier_ping w) (ping_timer w) (dns_pending w) (acl_pending w)
    (pings_sent w) (trace w).
Definition with_freed (v : bool) (w : world) : world :=
  mkWorld (ps w) (cb_valid w) v (current_time w) (PeerStats_timeouts w)
    (hier_ping w) (ping_timer w) (dns_pending w) (acl_pending w)
    (pings_sent w) (trace w).
Definition with_current_time (v : Z) (w : world) : world :=
  mkWorld (ps w) (cb_valid w) (freed w) v (PeerStats_timeouts w)
    (hier_ping w) (ping_timer w) (dns_pending w) (acl_pending w)
    (pings_sent w) (trace w).
Definition with_PeerStats_timeouts (v : Z) (w : world) : world :=
  mkWorld (ps w) (cb_valid w) (freed w) (current_time w) v (hier_ping w)
    (ping_timer w) (dns_pending w) (acl_pending w) (pings_sent w) (trace w).
Definition with_hier_ping (v : ping_data) (w : world) : world :=
  mkWorld (ps w) (cb_valid w) (freed w) (current_time w)
    (PeerStats_timeouts w) v (ping_timer w) (dns_pending w) (acl_pending w)
    (pings_sent w) (trace w).
Definition with_ping_timer (v : bool) (w : world) : world :=
  mkWorld (ps w) (cb_valid w) (freed w) (current_time w)
    (PeerStats_timeouts w) (hier_ping w) v (dns_pending w) (acl_pending w)
    (pings_sent w) (trace w).
Definition with_dns_pending (v : nat) (w : world) : world :=
  mkWorld (ps w) (cb_valid w) (freed w) (current_time w)
    (PeerStats_timeouts w) (hier_ping w) (ping_timer w) v (acl_pending w)
    (pings_sent w) (trace w).
Definition with_acl_pending (v : bool) (w : world) : world :=
  mkWorld (ps w) (cb_valid w) (freed w) (current_time w)
    (PeerStats_timeouts w) (hier_ping w) (ping_timer w) (dns_pending w) v
    (pings_sent w) (trace w).
Definition with_pings_sent (v : bool) (w : world) : world :=
  mkWorld (ps w) (cb_valid w) (freed w) (current_time w)
    (PeerStats_timeouts w) (hier_ping w) (ping_timer w) (dns_pending w)
    (acl_pending w) v (trace w).
Definition with_trace (v : list effect) (w : world) : world :=
  mkWorld (ps w) (cb_valid w) (freed w) (current_time w)
    (PeerStats_timeouts w) (hier_ping w) (ping_timer w) (dns_pending w)
    (acl_pending w) (pings_sent w) v.

(** ** Primitive steps *)

Definition get_ps : M ps_state := fun w => Ret (ps w) w.
Definition modify_ps (f : ps_state -> ps_state) : M unit :=
  fun w => Ret tt (with_ps (f (ps w)) w).
Definition emit (e : effect) : M unit :=
  fun w => Ret tt (with_trace (trace w ++ [e]) w).
Definition get_time : M Z := fun w => Ret (current_time w) w.
Definition when (b : bool) (m : M unit) : M unit := if b then m else ret tt.
Definition assert (b : bool) (line : Z) : M unit :=
  if b then ret tt else raise (AssertFail line).

(** [psstate->entry->...]: the entry behind the pointer, or a fault at
    [line] when the pointer is null. *)
Definition deref_entry (line : Z) : M StoreEntry :=
  s <- get_ps ;;
  match entry s with
  | Some e => ret e
  | None => raise (NullDeref line)
  end.

(** [entry->ping_status = st] through a pointer known not to be null. *)
Definition store_ping_status (st : ping_status_t) (s : ps_state) : ps_state :=
  match entry s with
  | Some e => set_entry (Some (set_ping_status st e)) s
  | None => s
  end.

(** [(unsigned int) v] for an [int] v. *)
Definition to_unsigned (v : Z) : Z := v mod 2 ^ 32.

Definition direct_eqb (a b : direct_t) : bool :=
  match a, b with
  | DIRECT_UNKNOWN, DIRECT_UNKNOWN | DIRECT_NO, DIRECT_NO
  | DIRECT_MAYBE, DIRECT_MAYBE | DIRECT_YES, DIRECT_YES => true
  | _, _ => false
  end.

Definition ping_status_eqb (a b : ping_status_t) : bool :=
  match a, b with
  | PING_NONE, PING_NONE | PING_WAITING, PING_WAITING
  | PING_DONE, PING_DONE => true
  | _, _ => false
  end.

Definition is_parent (t : peer_t) : bool :=
  match t with PEER_PARENT => true | _ => false end.

Definition is_some {A} (o : option A) : bool :=
  match o with Some _ => true | None => false end.

(** [EBIT_TEST(flags, bit)] *)
Definition EBIT_TEST (fl bit : Z) : bool := Z.testbit fl bit.

(** [peerAddFwdServer]: walk to the end of the list and link the new
    record there. *)
Definition peerAddFwdServer (FSVR : list FwdServer) (p : option peer)
    (c : hier_code) : list FwdServer :=
  FSVR ++ [mkFwd p c].

Definition add_server (p : option peer) (c : hier_code) (s : ps_state) : ps_state :=
  set_servers (peerAddFwdServer (servers s) p c) s.

(** Calls into the other subsystems: each is recorded in the trace, and
    the world notes what is now outstanding. *)
Definition nonBlockingCheck (l : acl_list) : M unit :=
  emit (AclCheck l) ;; (fun w => Ret tt (with_acl_pending true w)).

Definition ipcache_nbgethostbyname (h : string) : M unit :=
  emit (DnsLookup h) ;;
  (fun w => Ret tt (with_dns_pending (S (dns_pending w)) w)).

Definition eventAdd (ms : Z) : M unit :=
  emit (EventAdd ms) ;; (fun w => Ret tt (with_ping_timer true w)).

Definition eventDelete : M unit :=
  emit EventDelete ;; (fun w => Ret tt (with_ping_timer false w)).

(** [cbdataReferenceValid(psstate->callback_data)] *)
Definition cbdataReferenceValid : M bool := fun w => Ret (cb_valid w) w.

(** [cbdataReferenceValidDone(psstate->callback_data, &cbdata)]: the
    validity; the reference is dropped either way. *)
Definition cbdataReferenceValidDone : M bool :=
  v <- cbdataReferenceValid ;;
  modify_ps (set_callback_data false) ;;
  ret v.

(** [cbdataFree(psstate)] *)
Definition cbdataFree : M unit :=
  emit StateFree ;; (fun w => Ret tt (with_freed true w)).

Section PeerSelect.

Variable E : Env.

(** A [debugs(44, level, ... << entry->url() ...)] statement: the message
    is built, and the entry pointer followed, only when the macro is
    switched on for that level. *)
Definition debugs_entry_url (level line : Z) : M unit :=
  if debugs_on E 44 level then (deref_entry line ;; ret tt) else ret tt.

(** ** [peerSelectStateFree] *)
Definition peerSelectStateFree : M unit :=
  s <- get_ps ;;
  match entry s with
  | Some e =>
      when (ping_status_eqb (ping_status e) PING_WAITING) eventDelete ;;
      modify_ps (store_ping_status PING_DONE)
  | None => ret tt
  end ;;
  s <- get_ps ;;
  when (is_some (acl_checklist s)) (emit AclFree) ;;
  emit RequestUnlock ;;
  s <- get_ps ;;
  match entry s with
  | Some e =>
      assert (negb (ping_status_eqb (ping_status e) PING_WAITING)) 102 ;;
      emit (EntryUnlock e) ;;
      modify_ps (set_entry None)
  | None => ret tt
  end ;;
  cbdataFree.

(** ** [peerSelectIcpPing] *)
Definition peerSelectIcpPing (rq : HttpRequest) (d : direct_t)
    (en : option StoreEntry) : M Z :=
  match en with
  | None => raise (AssertFail 114)
  | Some e =>
      assert (ping_status_eqb (ping_status e) PING_NONE) 115 ;;
      assert (negb (direct_eqb d DIRECT_YES)) 116 ;;
      if negb (hierarchical rq) && negb (direct_eqb d DIRECT_NO) then ret 0
      else if EBIT_TEST (flags e) (KEY_PRIVATE E)
                && negb (neighbors_do_private_keys E)
      then (if negb (direct_eqb d DIRECT_NO) then ret 0
            else ret (neighborsCount E rq))
      else ret (neighborsCount E rq)
  end.

(** ** [peerCheckNetdbDirect] *)
Definition peerCheckNetdbDirect (s : ps_state) : bool :=
  if USE_ICMP E then
    if direct_eqb (direct s) DIRECT_NO then false
    else
      let myrtt := netdbHostRtt E (req_host (request s)) in
      if negb (myrtt =? 0) && (myrtt <=? minDirectRtt E) then true
      else
        let myhops := netdbHostHops E (req_host (request s)) in
        if negb (myhops =? 0) && (myhops <=? minDirectHops E) then true
        else
          match whichPeer E (closest_parent_miss s) with
          | None => false
          | Some _ =>
              if negb (myrtt =? 0) && (myrtt <=? p_rtt (ping s)) then true
              else false
          end
  else false.

(** ** [peerSelectPinned] *)
Definition peerSelectPinned (s : ps_state) : ps_state :=
  match pinnedConnection (request s) with
  | None => s
  | Some pc =>
      if pinned_conn_open pc then
        match pinnedPeer pc with
        | Some pear =>
            if peerAllowedToUse E pear (request s)
            then store_ping_status PING_DONE (add_server (Some pear) PINNED s)
            else s
        | None =>
            if negb (direct_eqb (direct s) DIRECT_NO)
            then store_ping_status PING_DONE (add_server None PINNED s)
            else s
        end
      else s
  end.

(** ** [peerGetSomeDirect] *)
Definition peerGetSomeDirect (s : ps_state) : ps_state :=
  if direct_eqb (direct s) DIRECT_NO then s
  else match req_protocol (request s) with
       | PROTO_WAIS => s
       | _ => add_server None HIER_DIRECT s
       end.

(** ** [peerGetSomeParent]

    [some_parent] is the chain of [else if]s, written as the nested
    matches it is: a strategy is called only when all earlier ones
    returned NULL. *)
Definition some_parent (rq : HttpRequest) : option (peer * hier_code) :=
  match getDefaultParent E rq with
  | Some p => Some (p, DEFAULT_PARENT)
  | None =>
  match peerUserHashSelectParent E rq with
  | Some p => Some (p, USERHASH_PARENT)
  | None =>
  match peerSourceHashSelectParent E rq with
  | Some p => Some (p, SOURCEHASH_PARENT)
  | None =>
  match carpSelectParent E rq with
  | Some p => Some (p, CARP)
  | None =>
  match getRoundRobinParent E rq with
  | Some p => Some (p, ROUNDROBIN_PARENT)
  | None =>
  match getWeightedRoundRobinParent E rq with
  | Some p => Some (p, ROUNDROBIN_PARENT)
  | None =>
  match getFirstUpParent E rq with
  | Some p => Some (p, FIRSTUP_PARENT)
  | None =>
  match getAnyParent E rq with
  | Some p => Some (p, ANY_OLD_PARENT)
  | None => None
  end end end end end end end end.

Definition peerGetSomeParent (s : ps_state) : ps_state :=
  if direct_eqb (direct s) DIRECT_YES then s
  else match some_parent (request s) with
       | Some (p, c) => add_server (Some p) c s
       | None => s
       end.

(** ** [peerGetAllParents] *)
Fixpoint all_parents (rq : HttpRequest) (l : list peer)
    (acc : list FwdServer) : list FwdServer :=
  match l with
  | [] => acc
  | p :: rest =>
      if negb (is_parent (neighborType E p rq)) then all_parents rq rest acc
      else if negb (peerHTTPOkay E p rq) then all_parents rq rest acc
      else all_parents rq rest (peerAddFwdServer acc (Some p) ANY_OLD_PARENT)
  end.

Definition peerGetAllParents (s : ps_state) : ps_state :=
  let s1 := set_servers (all_parents (request s) (peers E) (servers s)) s in
  match getDefaultParent E (request s1) with
  | Some p => add_server (Some p) DEFAULT_PARENT s1
  | None => s1
  end.

(** ** [peerSelectDnsPaths] *)
Definition peerSelectDnsPaths : M unit :=
  s <- get_ps ;;
  let fs := match servers s with
            | f :: _ =>
                if Z.of_nat (length (paths s)) <? to_unsigned (forward_max_tries E)
                then Some f else None
            | [] => None
            end in
  match fs with
  | Some f =>
      (* send the next one off for DNS lookup *)
      let h := match _peer f with
               | Some p => host p
               | None => req_host (request s)
               end in
      debugs_entry_url 2 203 ;;
      ipcache_nbgethostbyname h
  | None =>
      (* done with DNS lookups. pass back to caller *)
      let cb := callback s in
      modify_ps (set_callback false) ;;
      (if Z.of_nat (length (paths s)) <? 1
       then debugs_entry_url (DBG_IMPORTANT E) 213
       else debugs_entry_url 2 218) ;;
      now <- get_time ;;
      modify_ps (fun s => set_ping (set_stop now (ping s)) s) ;;
      (fun w => Ret tt (with_hier_ping (ping (ps w)) w)) ;;
      valid <- cbdataReferenceValidDone ;;
      when valid
        (if cb then (s' <- get_ps ;; emit (Callback (paths s')))
         else raise (NullDeref 226)) ;;
      peerSelectStateFree
  end.

(** ** [peerSelectDnsResults] *)
Definition in_addrs_at (ia : ipcache_addrs) (n line : Z) : M Address :=
  match nth_error (in_addrs ia) (Z.to_nat n) with
  | Some a => ret a
  | None => raise (OutOfRange line)
  end.

(** The [for] loop; [k] counts the iterations left, [n] and [ip] are the
    loop variables of the source. *)
Fixpoint dns_loop (ia : ipcache_addrs) (fs : option FwdServer) (k : nat)
    (n ip : Z) : M unit :=
  match k with
  | O => ret tt
  | S k' =>
      let ip := if ip >=? count ia then 0 else ip in
      s <- get_ps ;;
      if Z.of_nat (length (paths s)) >=? to_unsigned (forward_max_tries E)
      then ret tt                                             (* break *)
      else
        unusable <-
          (if spoof_client_ip (request s) then
             match fs with
             | None => raise (NullDeref 256)
             | Some f =>
                 if negb (match _peer f with
                          | Some p => no_tproxy p
                          | None => false
                          end)
                 then a <- in_addrs_at ia n 257 ;;
                      ret (negb (Bool.eqb (IsIPv4 a)
                                   (IsIPv4 (client_addr (request s)))))
                 else ret false
             end
           else ret false) ;;
        if unusable then dns_loop ia fs k' (n + 1) (ip + 1)  (* continue *)
        else
          a <- in_addrs_at ia n 264 ;;
          match fs with
          | None => raise (NullDeref 265)
          | Some f =>
              let r := SetPort a (match _peer f with
                                  | Some p => http_port p
                                  | None => req_port (request s)
                                  end) in
              let c := mkConn r (code f)
                         (getOutgoingAddress E (request s) r (code f)) in
              modify_ps (fun s => set_paths (paths s ++ [c]) s) ;;
              dns_loop ia fs k' (n + 1) (ip + 1)
          end
  end.

Definition peerSelectDnsResults (ia : option ipcache_addrs) : M unit :=
  emit RecordLookup ;;
  s <- get_ps ;;
  let fs := hd_error (servers s) in
  match ia with
  | Some a =>
      assert (cur a <? count a) 242 ;;
      dns_loop a fs (Z.to_nat (count a)) 0 (cur a)
  | None =>
      (* the message is [... << fs->_peer ? fs->_peer->host : ...]: the
         stream is the condition, so [fs->_peer->host] is what is read *)
      if debugs_on E 44 3 then
        match fs with
        | Some f => if is_some (_peer f) then ret tt else raise (NullDeref 276)
        | None => raise (NullDeref 276)
        end
      else ret tt
  end ;;
  match fs with
  | Some _ => modify_ps (fun s => set_servers (tl (servers s)) s)
  | None => raise (NullDeref 279)
  end ;;
  (* see if more paths can be found *)
  peerSelectDnsPaths.
(** ** [peerGetSomeNeighbor] *)
Definition neighbor_done (pc : option (peer * hier_code)) : M unit :=
  match pc with
  | Some (p, c) => modify_ps (add_server (Some p) c)
  | None => ret tt
  end ;;
  modify_ps (store_ping_status PING_DONE).

Definition peerGetSomeNeighbor : M unit :=
  e <- deref_entry 465 ;;
  assert (ping_status_eqb (ping_status e) PING_NONE) 465 ;;
  s <- get_ps ;;
  let rq := request s in
  if direct_eqb (direct s) DIRECT_YES
  then modify_ps (store_ping_status PING_DONE)
  else
    match (if USE_CACHE_DIGESTS E then neighborsDigestSelect E rq else None) with
    | Some p =>
        neighbor_done (Some (p, if is_parent (neighborType E p rq)
                                then CD_PARENT_HIT else CD_SIBLING_HIT))
    | None =>
    match netdbClosestParent E rq with
    | Some p => neighbor_done (Some (p, CLOSEST_PARENT))
    | None =>
        n <- peerSelectIcpPing rq (direct s) (entry s) ;;
        if negb (n =? 0) then
          now <- get_time ;;
          modify_ps (fun s => set_ping (set_start now (ping s)) s) ;;
          emit UdpPing ;;
          (fun w => Ret tt (with_pings_sent true w)) ;;
          let '(sent, expected, tmo) := neighborsUdpPing E rq e in
          modify_ps (fun s => set_ping
                       (set_n_sent sent
                          (set_timeout tmo
                             (set_n_replies_expected expected (ping s)))) s) ;;
          if 0 <? expected then
            modify_ps (store_ping_status PING_WAITING) ;;
            eventAdd tmo                                       (* return *)
          else neighbor_done None
        else neighbor_done None
    end
    end.

(** ** [peerGetSomeNeighborReplies] *)
Definition peerGetSomeNeighborReplies : M unit :=
  e <- deref_entry 530 ;;
  assert (ping_status_eqb (ping_status e) PING_WAITING) 530 ;;
  s <- get_ps ;;
  assert (negb (direct_eqb (direct s) DIRECT_YES)) 531 ;;
  if peerCheckNetdbDirect s then modify_ps (add_server None CLOSEST_DIRECT)
  else
    let pc :=
      match hit s with
      | Some p => (Some p, if is_parent (hit_type s)
                           then PARENT_HIT else SIBLING_HIT)
      | None =>
          if negb (IsAnyAddr (closest_parent_miss s))
          then (whichPeer E (closest_parent_miss s), CLOSEST_PARENT_MISS)
          else if negb (IsAnyAddr (first_parent_miss s))
          then (whichPeer E (first_parent_miss s), FIRST_PARENT_MISS)
          else (None, HIER_NONE)
      end in
    match pc with
    | (Some p, HIER_NONE) => ret tt
    | (Some p, c) => modify_ps (add_server (Some p) c)
    | (None, _) => ret tt
    end.

(** ** [peerSelectFoo]

    [arbiter] is the [if]/[else if] chain under
    [ps->direct == DIRECT_UNKNOWN]: either an ACL check is launched (and
    the function returns), or [direct] is decided. *)
Inductive arbiter_result :=
| Launch (l : acl_list)
| Decided (d : direct_t).

Definition arbiter (s : ps_state) : arbiter_result :=
  if (always_direct s =? 0) && has_AlwaysDirect E then Launch AlwaysDirect
  else if 0 <? always_direct s then Decided DIRECT_YES
  else if (never_direct s =? 0) && has_NeverDirect E then Launch NeverDirect
  else if 0 <? never_direct s then Decided DIRECT_NO
  else if no_direct (request s) then Decided DIRECT_NO
  else if loopdetect (request s) then Decided DIRECT_YES
  else if peerCheckNetdbDirect s then Decided DIRECT_YES
  else Decided DIRECT_MAYBE.

(** The [switch (ps->direct)]. *)
Definition select_by_direct (s : ps_state) : ps_state :=
  match direct s with
  | DIRECT_YES => peerGetSomeDirect s
  | DIRECT_NO => peerGetAllParents (peerGetSomeParent s)
  | _ =>
      let s1 := if prefer_direct E then peerGetSomeDirect s else s in
      let s2 := if hierarchical (request s1) || negb (nonhierarchical_direct E)
                then peerGetSomeParent s1 else s1 in
      if negb (prefer_direct E) then peerGetSomeDirect s2 else s2
  end.

(** From [if (!entry || entry->ping_status == PING_NONE)] to the end of
    the function. *)
Definition peerSelectFoo_neighbors : M unit :=
  s <- get_ps ;;
  when (match entry s with
        | None => true
        | Some e => ping_status_eqb (ping_status e) PING_NONE
        end) (modify_ps peerSelectPinned) ;;
  s <- get_ps ;;
  waiting <-
    match entry s with
    | None => ret false
    | Some e =>
        match ping_status e with
        | PING_NONE =>
            peerGetSomeNeighbor ;;
            e' <- deref_entry 385 ;;
            ret (ping_status_eqb (ping_status e') PING_WAITING)
        | PING_WAITING =>
            peerGetSomeNeighborReplies ;;
            modify_ps (store_ping_status PING_DONE) ;;
            ret false
        | PING_DONE => ret false
        end
    end ;;
  if waiting then ret tt                                       (* return *)
  else
    modify_ps select_by_direct ;;
    (* resolve the possible peers *)
    peerSelectDnsPaths.

Definition peerSelectFoo : M unit :=
  s <- get_ps ;;
  if direct_eqb (direct s) DIRECT_UNKNOWN then
    match arbiter s with
    | Launch l =>
        modify_ps (set_acl_checklist (Some l)) ;;
        nonBlockingCheck l                                     (* return *)
    | Decided d =>
        modify_ps (set_direct d) ;;
        peerSelectFoo_neighbors
    end
  else peerSelectFoo_neighbors.

(** ** [peerSelect]

    [new_ps_state] is the constructor [ps_state::ps_state()] followed by
    the assignments of [peerSelect]. *)
Definition new_ps_state (pths : list Connection) (rq : HttpRequest)
    (en : option StoreEntry) : ps_state :=
  mkPs rq en 0 0 DIRECT_UNKNOWN true true [] pths no_addr no_addr None
    PEER_NONE None ping_data_init.

Definition new_world (pths : list Connection) (rq : HttpRequest)
    (en : option StoreEntry) (now : Z) : world :=
  mkWorld (new_ps_state pths rq en) true false now 0 ping_data_init
    false O false false [].

Definition peerSelect (pths : list Connection) (rq : HttpRequest)
    (en : option StoreEntry) (now : Z) : res unit :=
  (emit RequestLock ;; when (is_some en) (emit EntryLock) ;; peerSelectFoo)
    (new_world pths rq en now).

(** ** The ACL callbacks *)
Definition peerCheckNeverDirectDone (answer : Z) : M unit :=
  modify_ps (set_acl_checklist None) ;;
  modify_ps (set_never_direct (if negb (answer =? 0) then 1 else -1)) ;;
  peerSelectFoo.

Definition peerCheckAlwaysDirectDone (answer : Z) : M unit :=
  modify_ps (set_acl_checklist None) ;;
  modify_ps (set_always_direct (if negb (answer =? 0) then 1 else -1)) ;;
  peerSelectFoo.

(** ** [peerPingTimeout] *)
Definition peerPingTimeout : M unit :=
  valid <- cbdataReferenceValid ;;
  if negb valid then
    (* request aborted *)
    deref_entry 658 ;;
    modify_ps (store_ping_status PING_DONE) ;;
    modify_ps (set_callback_data false) ;;
    peerSelectStateFree
  else
    (fun w => Ret tt (with_PeerStats_timeouts (PeerStats_timeouts w + 1) w)) ;;
    modify_ps (fun s => set_ping (set_timedout 1 (ping s)) s) ;;
    peerSelectFoo.

(** ** [peerIcpParentMiss] *)
Definition note_closest (p : peer) (rtt : Z) (s : ps_state) : ps_state :=
  set_ping (set_p_rtt rtt (ping s)) (set_closest_parent_miss (in_addr p) s).

Definition note_first (p : peer) (rtt : Z) (s : ps_state) : ps_state :=
  set_ping (set_w_rtt rtt (ping s)) (set_first_parent_miss (in_addr p) s).

(** The part shared, line for line, by [peerIcpParentMiss] and
    [peerHtcpParentMiss]: from the [closest_only] test to the end. *)
Definition first_miss (p : peer) (line : Z) : M unit :=
  (* if closest-only is set, then don't allow FIRST_PARENT_MISS *)
  if closest_only p then ret tt
  else
    s <- get_ps ;;
    (* set FIRST_MISS if there is no CLOSEST parent *)
    if negb (IsAnyAddr (closest_parent_miss s)) then ret tt
    else
      now <- get_time ;;
      if weight p =? 0 then raise (DivByZero line)
      else
        let rtt := Z.quot (tvSubMsec (start (ping s)) now - basetime p)
                     (weight p) in
        let rtt := if rtt <? 1 then 1 else rtt in
        when (IsAnyAddr (first_parent_miss s) || (rtt <? w_rtt (ping s)))
          (modify_ps (note_first p rtt)).

Definition peerIcpParentMiss (p : peer) (header : icp_common_t) : M unit :=
  (if USE_ICMP E then
     if query_icmp E then
       if negb (Z.land (icp_flags header) (ICP_FLAG_SRC_RTT E) =? 0) then
         let rtt := Z.land (pad header) 65535 in
         let hops := Z.land (Z.shiftr (pad header) 16) 65535 in
         when ((0 <? rtt) && (rtt <? 65535)) (emit (NetdbUpdatePeer p rtt hops)) ;;
         s <- get_ps ;;
         when (negb (rtt =? 0)
               && ((p_rtt (ping s) =? 0) || (rtt <? p_rtt (ping s))))
           (modify_ps (note_closest p rtt))
       else ret tt
     else ret tt
   else ret tt) ;;
  first_miss p 706.

(** ** [peerHandleIcpReply] *)
Definition count_reply (s : ps_state) : ps_state :=
  set_ping (set_n_recv (n_recv (ping s) + 1) (ping s)) s.

Definition note_hit (p : peer) (t : peer_t) (s : ps_state) : ps_state :=
  set_hit_type t (set_hit (Some p) s).

(** The common tail of both reply handlers. *)
Definition after_reply : M unit :=
  s <- get_ps ;;
  if n_recv (ping s) <? n_replies_expected (ping s) then ret tt
  else peerSelectFoo.

Definition peerHandleIcpReply (p : peer) (t : peer_t) (header : icp_common_t)
    : M unit :=
  debugs_entry_url 3 722 ;;
  modify_ps count_reply ;;
  match opcode header with
  | ICP_MISS | ICP_DECHO =>
      when (is_parent t) (peerIcpParentMiss p header) ;;
      after_reply
  | ICP_HIT =>
      modify_ps (note_hit p t) ;;
      peerSelectFoo
  | _ => after_reply
  end.

(** ** [peerHtcpParentMiss], [peerHandleHtcpReply] (under [USE_HTCP]) *)
Definition peerHtcpParentMiss (p : peer) (htcp : htcpReplyData) : M unit :=
  (if USE_ICMP E then
     if query_icmp E then
       if cto_rtt_positive htcp then
         let rtt := cto_rtt_int htcp * 1000 in
         let hops := cto_hops_int htcp * 1000 in
         emit (NetdbUpdatePeer p rtt hops) ;;
         s <- get_ps ;;
         when (negb (rtt =? 0)
               && ((p_rtt (ping s) =? 0) || (rtt <? p_rtt (ping s))))
           (modify_ps (note_closest p rtt))
       else ret tt
     else ret tt
   else ret tt) ;;
  first_miss p 804.

Definition peerHandleHtcpReply (p : peer) (t : peer_t) (htcp : htcpReplyData)
    : M unit :=
  debugs_entry_url 3 757 ;;
  modify_ps count_reply ;;
  if htcp_hit htcp then
    modify_ps (note_hit p t) ;;
    peerSelectFoo
  else
    when (is_parent t) (peerHtcpParentMiss p htcp) ;;
    after_reply.

(** ** [peerHandlePingReply] *)
Definition peerHandlePingReply (p : peer) (t : peer_t) (d : pingdata) : M unit :=
  match d with
  | IcpData h => peerHandleIcpReply p t h
  | HtcpData h => if USE_HTCP E then peerHandleHtcpReply p t h else ret tt
  | OtherData _ => ret tt
  end.

(** ** Selections

    What the other subsystems do to a context.  The event queue, the DNS
    cache and the ACL checker hold a cbdata reference to the context and
    call back at most once per request made of them, and not at all once
    the context is freed; an event that answers nothing outstanding is
    dropped.  The ICP/HTCP client may hand over a reply at any time after
    the pings were sent: nothing in this file tells it when to stop.
    [CallerGone] is the caller's [callback_data] becoming invalid,
    [Clock] the passing of time. *)
Inductive event :=
| AlwaysDirectDone (answer : Z)
| NeverDirectDone (answer : Z)
| PingReply (p : peer) (t : peer_t) (d : pingdata)
| PingTimeout
| DnsResults (ia : option ipcache_addrs)
| CallerGone
| Clock (t : Z).

Definition deliver (ev : event) : M unit := fun w =>
  if freed w then Ret tt w
  else
    match ev with
    | AlwaysDirectDone a =>
        if acl_pending w && match acl_checklist (ps w) with
                            | Some AlwaysDirect => true
                            | _ => false
                            end
        then peerCheckAlwaysDirectDone a (with_acl_pending false w)
        else Ret tt w
    | NeverDirectDone a =>
        if acl_pending w && match acl_checklist (ps w) with
                            | Some NeverDirect => true
                            | _ => false
                            end
        then peerCheckNeverDirectDone a (with_acl_pending false w)
        else Ret tt w
    | PingReply p t d =>
        if pings_sent w then peerHandlePingReply p t d w else Ret tt w
    | PingTimeout =>
        if ping_timer w then peerPingTimeout (with_ping_timer false w)
        else Ret tt w
    | DnsResults ia =>
        match dns_pending w with
        | S k => peerSelectDnsResults ia (with_dns_pending k w)
        | O => Ret tt w
        end
    | CallerGone => Ret tt (with_cb_valid false w)
    | Clock t => Ret tt (with_current_time t w)
    end.

Fixpoint run (evs : list event) : M unit :=
  match evs with
  | [] => ret tt
  | ev :: rest => deliver ev ;; run rest
  end.

End PeerSelect.

(** ** A concrete installation

    Three parents, no ACL lists, ICMP measurements compiled in; used to
    run the code on particular selections.  The knobs are the ones the
    selections below differ in. *)
Definition addr4 (v : Z) : Address := mkAddress v true 0.

Definition P1 : peer := mkPeer "p1.example" (addr4 167772417) 3128 false false 0 1.
Definition P2 : peer := mkPeer "p2.example" (addr4 167772418) 3128 false false 0 1.
Definition P3 : peer := mkPeer "p3.example" (addr4 167772419) 3128 false false 0 1.

Definition peer_by_addr (l : list peer) (a : Address) : option peer :=
  find (fun p => ip_value (in_addr p) =? ip_value a) l.

Definition site (max_tries dbg_level origin_rtt : Z) (private_keys : bool)
    (dflt : option peer) : Env :=
  mkEnv max_tries false false false true true 10 0 [P1; P2; P3]
    private_keys true true true 7 1073741824 1
    (fun _ level => level <=? dbg_level)
    (fun _ => 3) (fun _ => None) (fun _ _ => PEER_PARENT) (fun _ => None)
    (fun _ => origin_rtt) (fun _ => 0)
    (fun a => if IsAnyAddr a then None else peer_by_addr [P1; P2; P3] a)
    (fun _ _ => true) (fun _ _ => true)
    (fun _ _ => (3, 3, 2000))
    (fun _ => dflt) (fun _ => None) (fun _ => None) (fun _ => None)
    (fun _ => None) (fun _ => None) (fun _ => None) (fun _ => None)
    (fun _ _ _ => no_addr).

Definition GET (h : string) (hier nodirect : bool) : HttpRequest :=
  mkRequest h 80 PROTO_HTTP hier nodirect false false (addr4 3232235777) None.

Definition fresh_entry (fl : Z) : StoreEntry := mkEntry "http://origin.example/" PING_NONE fl.

(** ICP replies: a MISS carrying [rtt] in the low half of [pad] with the
    source-RTT flag set, and a HIT. *)
Definition miss_rtt (rtt : Z) : pingdata := IcpData (mkIcp ICP_MISS 1073741824 rtt).
Definition icp_hit : pingdata := IcpData (mkIcp ICP_HIT 0 0).
Definition icp_miss : pingdata := IcpData (mkIcp ICP_MISS 0 0).

(** A privately keyed entry while [direct] is [DIRECT_NO] and private-key
    exchange is off. *)
Definition private_key_request : HttpRequest := GET "origin.example" false true.
Definition private_key_entry : StoreEntry := fresh_entry 128.
Definition private_key_world : world :=
  with_ps (set_direct DIRECT_NO
             (new_ps_state [] private_key_request (Some private_key_entry)))
    (new_world [] private_key_request (Some private_key_entry) 0).

(** A DNS answer with two addresses whose current index is 1, for a
    selection that goes direct. *)
Definition origin_a0 : Address := addr4 167772161.
Definition origin_a1 : Address := addr4 167772162.
Definition rotation_ia : ipcache_addrs := mkIa 2 1 [origin_a0; origin_a1].
Definition rotation_start : world :=
  world_of (peerSelect (site 10 1 0 false None) []
              (GET "origin.example" false false) (Some (fresh_entry 0)) 0).


(** A cache miss that is pinged to the three parents. *)
Definition pinged_request : HttpRequest := GET "origin.example" true false.
Definition pinged_start (E : Env) : world :=
  world_of (peerSelect E [] pinged_request (Some (fresh_entry 0)) 0).
Definition icp_rtt (rtt : Z) : icp_common_t := mkIcp ICP_MISS 1073741824 rtt.

(** The origin is 40 ms away (more than [minDirectRtt]); parent P1
    answers MISS with an RTT of 50 ms, then parent P2 answers HIT. *)
Definition preempted_hit_world : world :=
  world_of (run (site 10 1 40 false None)
              [PingReply P1 PEER_PARENT (miss_rtt 50);
               PingReply P2 PEER_PARENT icp_hit]
              (pinged_start (site 10 1 40 false None))).

(** No RTT known for the origin; of the three parents pinged, P2 answers
    HIT first. *)
Definition hit_world : world :=
  world_of (run (site 10 1 0 false None) [PingReply P2 PEER_PARENT icp_hit]
              (pinged_start (site 10 1 0 false None))).

(** The same, but all three parents answer MISS. *)
Definition quorum_world : world :=
  world_of (run (site 10 1 0 false None)
              [PingReply P1 PEER_PARENT icp_miss;
               PingReply P2 PEER_PARENT icp_miss;
               PingReply P3 PEER_PARENT icp_miss]
              (pinged_start (site 10 1 0 false None))).

(** ** What the specification says, for comparison

    These follow the words of the specification, not the code; the
    theorems below relate them to the definitions above. *)

(** The parent strategies with their tags, in the priority order the
    specification lists them. *)
Definition parent_strategies (E : Env)
    : list ((HttpRequest -> option peer) * hier_code) :=
  [ (getDefaultParent E, DEFAULT_PARENT);
    (peerUserHashSelectParent E, USERHASH_PARENT);
    (peerSourceHashSelectParent E, SOURCEHASH_PARENT);
    (carpSelectParent E, CARP);
    (getRoundRobinParent E, ROUNDROBIN_PARENT);
    (getWeightedRoundRobinParent E, ROUNDROBIN_PARENT);
    (getFirstUpParent E, FIRSTUP_PARENT);
    (getAnyParent E, ANY_OLD_PARENT) ].

(** "First non-null wins": the strategies are tried from the head, and
    the first one that returns a peer gives the record. *)
Fixpoint first_non_null (rq : HttpRequest)
    (l : list ((HttpRequest -> option peer) * hier_code)) : list FwdServer :=
  match l with
  | [] => []
  | (f, c) :: rest =>
      match f rq with
      | Some p => [mkFwd (Some p) c]
      | None => first_non_null rq rest
      end
  end.

(** The directness rules of the specification, top to bottom, once no
    ACL answer is missing. *)
Definition first_matching_rule (E : Env) (s : ps_state) : direct_t :=
  if always_direct s =? 1 then DIRECT_YES
  else if never_direct s =? 1 then DIRECT_NO
  else if no_direct (request s) then DIRECT_NO
  else if loopdetect (request s) then DIRECT_YES
  else if peerCheckNetdbDirect E s then DIRECT_YES
  else DIRECT_MAYBE.

(** "Rotated order (wrap-around)": the addresses from index [cur] to the
    end, then those from index 0 up to [cur]. *)
Definition rotated_order (ia : ipcache_addrs) : list Address :=
  skipn (Z.to_nat (cur ia)) (in_addrs ia) ++ firstn (Z.to_nat (cur ia)) (in_addrs ia).

(** The alive parents of [peerGetAllParents], as the list they form. *)
Definition alive_parents (E : Env) (rq : HttpRequest) : list FwdServer :=
  map (fun p => mkFwd (Some p) ANY_OLD_PARENT)
    (filter (fun p => is_parent (neighborType E p rq) && peerHTTPOkay E p rq)
       (peers E)).

(** The destination [peerSelectDnsResults] builds from address [a] for
    the record [f]. *)
Definition conn_of (E : Env) (rq : HttpRequest) (f : FwdServer) (a : Address)
    : Connection :=
  let r := SetPort a (match _peer f with
                      | Some p => http_port p
                      | None => req_port rq
                      end) in
  mkConn r (code f) (getOutgoingAddress E rq r (code f)).

(** The test [fs && paths->size() < forward_max_tries] of
    [peerSelectDnsPaths]. *)
Definition more_lookups (E : Env) (s : ps_state) : bool :=
  match servers s with
  | _ :: _ => Z.of_nat (length (paths s)) <? to_unsigned (forward_max_tries E)
  | [] => false
  end.

(** How often the caller's callback was invoked. *)
Fixpoint callbacks (t : list effect) : nat :=
  match t with
  | [] => O
  | Callback _ :: rest => S (callbacks rest)
  | _ :: rest => callbacks rest
  end.

(** ** Predicates used in the statements *)

(** [m], run from [w], ends in a world related to [w] by [R]; a fault
    counts with the world it leaves. *)
Definition kept (R : world -> world -> Prop) {A} (m : M A) (w : world) : Prop :=
  R w (world_of (m w)).

(** What [peerSelectFoo] and everything it calls leave alone: the
    closest-parent measurement, the paths, and [direct] once decided. *)
Definition frame_ps (s s' : ps_state) : Prop :=
  closest_parent_miss s' = closest_parent_miss s
  /\ p_rtt (ping s') = p_rtt (ping s)
  /\ paths s' = paths s
  /\ (direct s <> DIRECT_UNKNOWN -> direct s' = direct s).

Definition frame (w w' : world) : Prop := frame_ps (ps w) (ps w').

(** The ACL answers are tri-state: unqueried, yes, no. *)
Definition tri_state (a : Z) : Prop := a = 0 \/ a = 1 \/ a = -1.

(** No ACL answer is missing: a list that is configured and would be
    consulted has been answered. *)
Definition answers_available (E : Env) (s : ps_state) : Prop :=
  (always_direct s = 0 -> has_AlwaysDirect E = false)
  /\ (never_direct s = 0 -> always_direct s = 1 \/ has_NeverDirect E = false).

(** [rtt = header->pad & 0xFFFF] *)
Definition rtt_of (h : icp_common_t) : Z := Z.land (pad h) 65535.

(** A parent's ICP_MISS that carries a positive RTT, from a peer that is
    closest-only or has a weight to divide by. *)
Definition rtt_miss (E : Env) (r : peer * icp_common_t) : Prop :=
  opcode (snd r) = ICP_MISS
  /\ Z.land (icp_flags (snd r)) (ICP_FLAG_SRC_RTT E) <> 0
  /\ 0 < rtt_of (snd r)
  /\ (closest_only (fst r) = true \/ weight (fst r) <> 0).

Definition parent_reply (r : peer * icp_common_t) : event :=
  PingReply (fst r) PEER_PARENT (IcpData (snd r)).

(** What the replacement rule [rtt && (p_rtt == 0 || rtt < p_rtt)] leaves
    after a list of replies. *)
Fixpoint closest_after (rs : list (peer * icp_common_t)) (a : Address) (best : Z)
    : Address * Z :=
  match rs with
  | [] => (a, best)
  | r :: rest =>
      if (best =? 0) || (rtt_of (snd r) <? best)
      then closest_after rest (in_addr (fst r)) (rtt_of (snd r))
      else closest_after rest a best
  end.

Definition closest_state (s : ps_state) : Address * Z :=
  (closest_parent_miss s, p_rtt (ping s)).

(** The context is alive and its pings are out, with [e] its entry. *)
Definition live (w : world) (e : StoreEntry) : Prop :=
  freed w = false /\ pings_sent w = true /\ entry (ps w) = Some e.

(** The codes [peerGetSomeNeighborReplies] gives out. *)
Definition reply_code (c : hier_code) : bool :=
  match c with
  | PARENT_HIT | SIBLING_HIT | CLOSEST_PARENT_MISS | FIRST_PARENT_MISS
  | CLOSEST_DIRECT => true
  | _ => false
  end.

Definition reply_records (l : list FwdServer) : list FwdServer :=
  filter (fun f => reply_code (code f)) l.

(** The neighbour phase is over: the entry, if there is one, is
    [PING_DONE]. *)
Definition settled (s : ps_state) : Prop :=
  match entry s with
  | Some e => ping_status e = PING_DONE
  | None => True
  end.

(** What [peerSelectDnsPaths] leaves alone. *)
Definition dns_frame (w w' : world) : Prop :=
  servers (ps w') = servers (ps w)
  /\ hit (ps w') = hit (ps w)
  /\ hit_type (ps w') = hit_type (ps w)
  /\ (settled (ps w) -> settled (ps w') /\ ping_timer w' = ping_timer w).

(** Once the neighbour phase is over it stays over, the ping timer is
    neither added nor deleted, and the records given out by the reply
    aggregator can only be consumed, from the head. *)
Definition settled_step (w w' : world) : Prop :=
  settled (ps w) ->
  settled (ps w')
  /\ ping_timer w' = ping_timer w
  /\ exists consumed,
       reply_records (servers (ps w)) = consumed ++ reply_records (servers (ps w')).

(** [s'] is [s] with records appended that do not come from the reply
    aggregator. *)
Definition plain_ext (s s' : ps_state) : Prop :=
  entry s' = entry s /\ hit s' = hit s /\ hit_type s' = hit_type s
  /\ direct s' = direct s /\ request s' = request s
  /\ exists more,
       servers s' = servers s ++ more
       /\ Forall (fun f => reply_code (code f) = false) more.

(** What [peerGetSomeNeighborReplies] appends when a hit is recorded. *)
Definition hit_record (E : Env) (s : ps_state) (p : peer) (t : peer_t)
    : FwdServer :=
  if peerCheckNetdbDirect E s then mkFwd None CLOSEST_DIRECT
  else mkFwd (Some p) (if is_parent t then PARENT_HIT else SIBLING_HIT).

(** Delivery may consume the ping timer (when it fires); everything else
    of [settled_step] holds for every event. *)
Definition settled_run (w w' : world) : Prop :=
  settled (ps w) ->
  settled (ps w')
  /\ exists consumed,
       reply_records (servers (ps w)) = consumed ++ reply_records (servers (ps w')).

(** [paths] holds no more than the cap. *)
Definition within_cap (E : Env) (s : ps_state) : Prop :=
  Z.of_nat (length (paths s)) <= to_unsigned (forward_max_tries E).

Definition cap_step (E : Env) (w w' : world) : Prop :=
  within_cap E (ps w) -> within_cap E (ps w').

(** The callback can be invoked only while [psstate->callback] is set,
    and it is cleared before it is invoked: the number of invocations
    made plus the one still possible never grows. *)
Definition credit (w : world) : nat :=
  (callbacks (trace w) + if callback (ps w) then 1 else 0)%nat.

Definition credit_step (w w' : world) : Prop := (credit w' <= credit w)%nat.

(** A whole selection: [peerSelect], then the events. *)
Definition selection (E : Env) (pths : list Connection) (rq : HttpRequest)
    (en : option StoreEntry) (now : Z) (evs : list event) : res unit :=
  match peerSelect E pths rq en now with
  | Ret _ w => run E evs w
  | Fault f w => Fault f w
  end.

(** A DNS answer the cache can give: a null one, or addresses with the
    current index inside the array. *)
Definition answer_ok (ia : option ipcache_addrs) : Prop :=
  match ia with
  | Some a => cur a < count a /\ Z.to_nat (count a) = length (in_addrs a)
  | None => True
  end.

(** A lookup is out for the head of [servers], the callback has not been
    called yet, and there is an entry. *)
Definition dns_stage (w : world) : Prop :=
  freed w = false /\ dns_pending w <> O /\ servers (ps w) <> []
  /\ callback (ps w) = true /\ entry (ps w) <> None.

(** ** Further selections *)

(** A request whose client address is spoofed (TPROXY), started without
    a cache entry under a cap of two destinations, and a DNS answer that
    mixes the address families. *)
Definition spoofed_request : HttpRequest :=
  mkRequest "origin.example" 80 PROTO_HTTP true false false true
    (addr4 3232235777) None.
Definition spoofed_start : world :=
  world_of (peerSelect (site 2 1 0 false None) [] spoofed_request None 0).
Definition mixed_ia : ipcache_addrs :=
  mkIa 4 0 [mkAddress 42 false 0; addr4 167772161; addr4 167772162;
            addr4 167772163].

(** A request that arrives on a connection pinned to P1, with [direct]
    already decided. *)
Definition pinned_request : HttpRequest :=
  mkRequest "origin.example" 80 PROTO_HTTP true false false false
    (addr4 3232235777) (Some (mkPinned (Some P1) true)).
Definition pinned_start : world :=
  with_ps (set_direct DIRECT_MAYBE
             (new_ps_state [] pinned_request (Some (fresh_entry 0))))
    (new_world [] pinned_request (Some (fresh_entry 0)) 0).

(** A cache miss about to be pinged, with [direct] decided. *)
Definition unpinged_start : world :=
  with_ps (set_direct DIRECT_MAYBE
             (new_ps_state [] pinged_request (Some (fresh_entry 0))))
    (new_world [] pinged_request (Some (fresh_entry 0)) 0).

(** An accelerated request ([no_direct]) for a site with a default
    parent. *)
Definition accel_request : HttpRequest := GET "origin.example" true true.
Definition accel_start : world :=
  world_of (peerSelect (site 10 1 0 false (Some P1)) [] accel_request None 0).

(** Two of the three parents have answered MISS. *)
Definition two_misses_world : world :=
  world_of (run (site 10 1 0 false None)
              [PingReply P1 PEER_PARENT icp_miss;
               PingReply P2 PEER_PARENT icp_miss]
              (pinged_start (site 10 1 0 false None))).

(** The installation with both ACL lists configured, and a selection
    that waits for the answer of the first. *)
Definition acl_site : Env :=
  mkEnv 10 true true false true true 10 0 [P1; P2; P3]
    false true true true 7 1073741824 1
    (fun _ level => level <=? 1)
    (fun _ => 3) (fun _ => None) (fun _ _ => PEER_PARENT) (fun _ => None)
    (fun _ => 0) (fun _ => 0)
    (fun a => if IsAnyAddr a then None else peer_by_addr [P1; P2; P3] a)
    (fun _ _ => true) (fun _ _ => true)
    (fun _ _ => (3, 3, 2000))
    (fun _ => None) (fun _ => None) (fun _ => None) (fun _ => None)
    (fun _ => None) (fun _ => None) (fun _ => None) (fun _ => None)
    (fun _ _ _ => no_addr).
Definition acl_start : world :=
  world_of (peerSelect acl_site [] pinged_request (Some (fresh_entry 0)) 0).

(** The installation without ICMP querying, a parent of weight 2, and a
    selection whose pings have been out for 40 ms. *)
Definition plain_site : Env :=
  mkEnv 10 false false false true false 10 0 [P1; P2; P3]
    false true true true 7 1073741824 1
    (fun _ level => level <=? 1)
    (fun _ => 3) (fun _ => None) (fun _ _ => PEER_PARENT) (fun _ => None)
    (fun _ => 0) (fun _ => 0)
    (fun a => if IsAnyAddr a then None else peer_by_addr [P1; P2; P3] a)
    (fun _ _ => true) (fun _ _ => true)
    (fun _ _ => (3, 3, 2000))
    (fun _ => None) (fun _ => None) (fun _ => None) (fun _ => None)
    (fun _ => None) (fun _ => None) (fun _ => None) (fun _ => None)
    (fun _ _ _ => no_addr).
Definition heavy_parent : peer :=
  mkPeer "p4.example" (addr4 167772420) 3128 false false 0 2.
Definition late_world : world :=
  world_of (run plain_site [Clock 40] (pinged_start plain_site)).

(** A parent that may only be used as the closest one. *)
Definition closest_only_parent : peer :=
  mkPeer "p5.example" (addr4 167772421) 3128 true false 0 1.

(** ** Further predicates *)

(** What [peerSelectStateFree] hands back, in the order it does. *)
Definition released_effects (s : ps_state) : list effect :=
  match entry s with
  | Some e =>
      if ping_status_eqb (ping_status e) PING_WAITING then [EventDelete] else []
  | None => []
  end
  ++ (if is_some (acl_checklist s) then [AclFree] else [])
  ++ [RequestUnlock]
  ++ match entry s with
     | Some e => [EntryUnlock (set_ping_status PING_DONE e)]
     | None => []
     end
  ++ [StateFree].

(** The opcodes [peerHandleIcpReply] passes to [peerIcpParentMiss]. *)
Definition miss_opcode (o : icp_opcode) : bool :=
  match o with ICP_MISS | ICP_DECHO => true | _ => false end.

(** The TPROXY test of the loop of [peerSelectDnsResults]: address [a] is
    passed over when the client address is spoofed, the record's peer (if
    it has one) is not marked [no_tproxy], and [a] is not of the client's
    address family. *)
Definition tproxy_usable (rq : HttpRequest) (f : FwdServer) (a : Address) : bool :=
  negb (spoof_client_ip rq
        && negb (match _peer f with Some p => no_tproxy p | None => false end)
        && negb (Bool.eqb (IsIPv4 a) (IsIPv4 (client_addr rq)))).

(** How many destinations [paths] can still take. *)
Definition room (E : Env) (s : ps_state) : nat :=
  Z.to_nat (to_unsigned (forward_max_tries E) - Z.of_nat (length (paths s))).

(** The destinations the addresses [l] give for the record [f]. *)
Definition destinations (E : Env) (s : ps_state) (f : FwdServer)
    (l : list Address) : list Connection :=
  firstn (room E s)
    (map (conn_of E (request s) f) (filter (tproxy_usable (request s) f) l)).

(** The record [peerGetSomeParent] appends for a request, if any, and
    the record of [peerGetSomeDirect]. *)
Definition parent_record (E : Env) (rq : HttpRequest) : list FwdServer :=
  first_non_null rq (parent_strategies E).

Definition direct_record : FwdServer := mkFwd None HIER_DIRECT.

(** The locks [peerSelect] takes and [peerSelectStateFree] gives back,
    and the release of the context, as they appear in a trace. *)
Inductive lock_event :=
| LockRequest | LockEntry | UnlockRequest | UnlockEntry | FreeState.

Fixpoint lock_events (t : list effect) : list lock_event :=
  match t with
  | [] => []
  | RequestLock :: rest => LockRequest :: lock_events rest
  | EntryLock :: rest => LockEntry :: lock_events rest
  | RequestUnlock :: rest => UnlockRequest :: lock_events rest
  | EntryUnlock _ :: rest => UnlockEntry :: lock_events rest
  | StateFree :: rest => FreeState :: lock_events rest
  | _ :: rest => lock_events rest
  end.

(** What [peerSelectStateFree] gives back for a context with or without
    an entry. *)
Definition releases (with_entry : bool) : list lock_event :=
  UnlockRequest :: (if with_entry then [UnlockEntry] else []) ++ [FreeState].

(** Nothing was locked or released, and the context is as alive as it
    was. *)
Definition held (w w' : world) : Prop :=
  freed w' = freed w
  /\ is_some (entry (ps w')) = is_some (entry (ps w))
  /\ lock_events (trace w') = lock_events (trace w).

(** Either that, or the context was released, once. *)
Definition held_or_released (w w' : world) : Prop :=
  held w w'
  \/ (freed w' = true
      /\ lock_events (trace w') =
         lock_events (trace w) ++ releases (is_some (entry (ps w)))).

(** The locks of a selection whose context is alive or released. *)
Definition lock_history (with_entry released : bool) : list lock_event :=
  LockRequest :: (if with_entry then [LockEntry] else [])
  ++ (if released then releases with_entry else []).

Definition balanced (with_entry : bool) (w : world) : Prop :=
  lock_events (trace w) = lock_history with_entry (freed w)
  /\ (freed w = false -> is_some (entry (ps w)) = with_entry).

(** The codes that stand for the origin server. *)
Definition direct_code (c : hier_code) : bool :=
  match c with HIER_DIRECT | CLOSEST_DIRECT => true | _ => false end.

(** A record that names a peer, under a code that is not the origin's. *)
Definition via_peer (f : FwdServer) : Prop :=
  is_some (_peer f) = true /\ direct_code (code f) = false.

(** [direct] is [DIRECT_NO], and neither a record nor a destination
    stands for the origin server. *)
Definition origin_free (s : ps_state) : Prop :=
  direct s = DIRECT_NO
  /\ Forall via_peer (servers s)
  /\ Forall (fun c => direct_code (peerType c) = false) (paths s).

Definition stays_origin_free (w w' : world) : Prop :=
  origin_free (ps w) -> origin_free (ps w').

(** A context that waits for ping replies has its timeout event queued,
    and [direct] decided and not [DIRECT_YES] (what
    [peerGetSomeNeighborReplies] asserts). *)
Definition armed (w : world) : Prop :=
  forall e, entry (ps w) = Some e -> ping_status e = PING_WAITING ->
    ping_timer w = true
    /\ direct (ps w) <> DIRECT_UNKNOWN /\ direct (ps w) <> DIRECT_YES.

Definition stays_armed (w w' : world) : Prop := armed w -> armed w'.

(** The record the reply aggregator appends, by its order of preference:
    the origin when the net-db direct check succeeds, else the peer that
    reported a hit, else the parent of the closest miss, else the parent
    of the first miss; a miss whose address [whichPeer] no longer knows
    gives no record. *)
Definition reply_choice (E : Env) (s : ps_state) : list FwdServer :=
  if peerCheckNetdbDirect E s then [mkFwd None CLOSEST_DIRECT]
  else
    match hit s with
    | Some p =>
        [mkFwd (Some p) (if is_parent (hit_type s) then PARENT_HIT else SIBLING_HIT)]
    | None =>
        if negb (IsAnyAddr (closest_parent_miss s)) then
          match whichPeer E (closest_parent_miss s) with
          | Some p => [mkFwd (Some p) CLOSEST_PARENT_MISS]
          | None => []
          end
        else if negb (IsAnyAddr (first_parent_miss s)) then
          match whichPeer E (first_parent_miss s) with
          | Some p => [mkFwd (Some p) FIRST_PARENT_MISS]
          | None => []
          end
        else []
    end.

(** The state in which [peerSelectFoo], re-entered while the entry
    waits, calls [peerSelectDnsPaths]. *)
Definition finalized (E : Env) (s : ps_state) : ps_state :=
  select_by_direct E
    (store_ping_status PING_DONE
       (set_servers (servers s ++ reply_choice E s) s)).

(** The context after [peerSelectDnsResults] took the answer [ia] for the
    record at the head of [servers]. *)
Definition answered (E : Env) (s : ps_state) (ia : option ipcache_addrs)
    : ps_state :=
  match servers s with
  | f :: rest =>
      set_servers rest
        (set_paths (paths s ++ match ia with
                               | Some a => destinations E s f (in_addrs a)
                               | None => []
                               end) s)
  | [] => s
  end.

(** The destinations the caller is handed when the lookups of the DNS
    stage are answered by [ias], one after the other. *)
Fixpoint resolved (E : Env) (s : ps_state) (ias : list (option ipcache_addrs))
    : list Connection :=
  match ias with
  | [] => paths s
  | ia :: rest =>
      if more_lookups E (answered E s ia)
      then resolved E (answered E s ia) rest
      else paths (answered E s ia)
  end.

(** The calls that ping the neighbours or touch the ping timer. *)
Definition ping_effect (e : effect) : bool :=
  match e with UdpPing | EventAdd _ | EventDelete => true | _ => false end.

(** A context without entry stays without, and nothing of the ping
    machinery moves. *)
Definition no_ping (w w' : world) : Prop :=
  entry (ps w) = None ->
  entry (ps w') = None
  /\ pings_sent w' = pings_sent w
  /\ ping_timer w' = ping_timer w
  /\ filter ping_effect (trace w') = filter ping_effect (trace w).

(** The ACL lists handed to the checker, in the order of the calls. *)
Fixpoint acl_checks (t : list effect) : list acl_list :=
  match t with
  | [] => []
  | AclCheck l :: rest => l :: acl_checks rest
  | _ :: rest => acl_checks rest
  end.

(** Each list at most once, [always_direct] before [never_direct]. *)
Definition acl_order (l : list acl_list) : Prop :=
  l = [] \/ l = [AlwaysDirect] \/ l = [NeverDirect]
  \/ l = [AlwaysDirect; NeverDirect].

(** Once [direct] is decided it stays as it is and no ACL check is
    launched. *)
Definition decided (w w' : world) : Prop :=
  direct (ps w) <> DIRECT_UNKNOWN ->
  direct (ps w') = direct (ps w)
  /\ acl_checks (trace w') = acl_checks (trace w).

(** While [direct] is undecided nothing is selected and nothing but an
    ACL check is outstanding; the check that is outstanding is the last
    one launched. *)
Definition undecided (E : Env) (w : world) : Prop :=
  pings_sent w = false /\ ping_timer w = false /\ dns_pending w = O
  /\ servers (ps w) = []
  /\ (acl_pending w = true ->
      match acl_checklist (ps w) with
      | Some AlwaysDirect => acl_checks (trace w) = [AlwaysDirect]
      | Some NeverDirect =>
          (acl_checks (trace w) = [NeverDirect]
           \/ acl_checks (trace w) = [AlwaysDirect; NeverDirect])
          /\ (always_direct (ps w) <> 0 \/ has_AlwaysDirect E = false)
      | None => True
      end).

Definition acl_invariant (E : Env) (w : world) : Prop :=
  acl_order (acl_checks (trace w))
  /\ (direct (ps w) = DIRECT_UNKNOWN -> freed w = false /\ undecided E w).

(** What the arbiter may still launch was not launched before. *)
Definition launchable (E : Env) (w : world) : Prop :=
  (always_direct (ps w) = 0 -> has_AlwaysDirect E = true ->
   acl_checks (trace w) = [])
  /\ (never_direct (ps w) = 0 -> has_NeverDirect E = true ->
      acl_checks (trace w) = [] \/ acl_checks (trace w) = [AlwaysDirect]).

(** The weighted round-trip time [peerIcpParentMiss] computes for a
    reply of peer [p] that arrives [elapsed] milliseconds after the pings
    went out. *)
Definition weighted_rtt (elapsed : Z) (p : peer) : Z :=
  if Z.quot (elapsed - basetime p) (weight p) <? 1 then 1
  else Z.quot (elapsed - basetime p) (weight p).

Definition elapsed (w : world) : Z :=
  tvSubMsec (start (ping (ps w))) (current_time w).

(** A parent's MISS (or DECHO) that competes for the first parent miss:
    the peer is not closest-only, has a weight to divide by, and an
    address that is set. *)
Definition weighted_miss (r : peer * icp_common_t) : Prop :=
  miss_opcode (opcode (snd r)) = true
  /\ closest_only (fst r) = false
  /\ weight (fst r) <> 0
  /\ IsAnyAddr (in_addr (fst r)) = false.

(** What the replacement rule
    [first_parent_miss.IsAnyAddr() || rtt < w_rtt] leaves after a list of
    replies. *)
Fixpoint first_after (el : Z) (rs : list (peer * icp_common_t)) (a : Address)
    (best : Z) : Address * Z :=
  match rs with
  | [] => (a, best)
  | r :: rest =>
      if IsAnyAddr a || (weighted_rtt el (fst r) <? best)
      then first_after el rest (in_addr (fst r)) (weighted_rtt el (fst r))
      else first_after el rest a best
  end.

Definition first_state (s : ps_state) : Address * Z :=
  (first_parent_miss s, w_rtt (ping s)).

(** The [pad] word of an ICP reply that carries [rtt] in its low half
    and [hops] in its high half. *)
Definition src_rtt_pad (rtt hops : Z) : Z := hops * 65536 + rtt.

(** * Theorems *)

(** Closed goals about particular selections are settled by running the
    definitions. *)
Ltac split_all := repeat match goal with |- _ /\ _ => split end.
Ltac by_running := split_all; vm_compute; reflexivity.

(** ** The monad *)

Lemma bind_Ret {A B} (m : M A) (k : A -> M B) w a w' :
  m w = Ret a w' -> bind m k w = k a w'.
Proof. intros H. unfold bind. now rewrite H. Qed.

Lemma bind_Fault {A B} (m : M A) (k : A -> M B) w f w' :
  m w = Fault f w' -> bind m k w = Fault f w'.
Proof. intros H. unfold bind. now rewrite H. Qed.

Lemma direct_eqb_eq a b : direct_eqb a b = true <-> a = b.
Proof. destruct a, b; simpl; split; intros H; try reflexivity; discriminate. Qed.

Lemma ping_status_eqb_eq a b : ping_status_eqb a b = true <-> a = b.
Proof. destruct a, b; simpl; split; intros H; try reflexivity; discriminate. Qed.

(** ** Running a function while a relation is kept *)

Section Kept.

Variable R : world -> world -> Prop.
Hypothesis R_refl : forall w, R w w.
Hypothesis R_trans : forall a b c, R a b -> R b c -> R a c.

Lemma kept_ret {A} (a : A) w : kept R (ret a) w.
Proof. apply R_refl. Qed.

Lemma kept_raise {A} f w : kept R (@raise A f) w.
Proof. apply R_refl. Qed.

Lemma kept_bind {A B} (m : M A) (k : A -> M B) w :
  kept R m w -> (forall a w', m w = Ret a w' -> kept R (k a) w') ->
  kept R (bind m k) w.
Proof.
  unfold kept, bind. intros Hm Hk. destruct (m w) as [a w'|f w'] eqn:Hw.
  - eapply R_trans; [exact Hm | now apply Hk].
  - exact Hm.
Qed.

Lemma kept_get_ps {B} (k : ps_state -> M B) w :
  kept R (k (ps w)) w -> kept R (bind get_ps k) w.
Proof. intros H. exact H. Qed.

Lemma kept_get_time {B} (k : Z -> M B) w :
  kept R (k (current_time w)) w -> kept R (bind get_time k) w.
Proof. intros H. exact H. Qed.

Lemma kept_step {B} (u : world -> world) (k : unit -> M B) w :
  R w (u w) -> kept R (k tt) (u w) ->
  kept R (bind (fun w => Ret tt (u w)) k) w.
Proof. intros H1 H2. unfold kept, bind. eapply R_trans; [exact H1 | exact H2]. Qed.

Lemma kept_assert {B} b line (k : unit -> M B) w :
  (b = true -> kept R (k tt) w) -> kept R (bind (assert b line) k) w.
Proof. destruct b; intros H; [now apply H | apply R_refl]. Qed.

Lemma kept_when {B} b (m : M unit) (k : unit -> M B) w :
  (b = true -> kept R (bind m k) w) -> (b = false -> kept R (k tt) w) ->
  kept R (bind (when b m) k) w.
Proof. destruct b; intros H1 H2; [now apply H1 | now apply H2]. Qed.

End Kept.

Ltac kstep Rr Rt prim :=
  cbv beta;
  match goal with
  | |- kept _ (bind get_ps _) _ => apply kept_get_ps
  | |- kept _ (bind get_time _) _ => apply kept_get_time
  | |- kept _ (bind cbdataReferenceValid _) _ =>
      apply (kept_bind _ Rt); [apply Rr | intros ? ? ?]
  | |- kept _ (bind (assert _ _) _) _ => apply (kept_assert _ Rr); intros ?
  | |- kept _ (bind (when _ _) _) _ => apply kept_when; intros ?
  | |- kept _ (bind (modify_ps ?f) _) _ =>
      apply (kept_step _ Rt (fun w => with_ps (f (ps w)) w)); [prim|]
  | |- kept _ (bind (emit ?e) _) _ =>
      apply (kept_step _ Rt (fun w => with_trace (trace w ++ [e]) w)); [prim|]
  | |- kept _ (bind (match ?x with _ => _ end) _) _ => destruct x eqn:?
  | |- kept _ (bind (bind _ _) _) _ => apply (kept_bind _ Rt); [ | intros ? ? ?]
  | |- kept _ (bind (ret _) _) _ => apply (kept_bind _ Rt); [ | intros ? ? ?]
  | |- kept _ (bind (fun w => Ret tt (@?u w)) _) _ =>
      apply (kept_step _ Rt u); [prim|]
  | |- kept _ (bind _ _) _ => apply (kept_bind _ Rt); [ | intros ? ? ?]
  | |- kept _ (match ?x with _ => _ end) _ => destruct x eqn:?
  | |- kept _ (ret _) _ => apply Rr
  | |- kept _ (raise _) _ => apply Rr
  | |- kept _ (when _ _) _ => unfold when
  | |- kept _ (assert ?b _) _ => destruct b; apply Rr
  | |- kept _ (modify_ps _) _ => unfold kept, modify_ps; simpl world_of; prim
  | |- kept _ (emit _) _ => unfold kept, emit; simpl world_of; prim
  | |- kept _ (fun w => Ret tt _) _ => unfold kept; simpl world_of; prim
  end.

(** ** The frame of [peerSelectFoo] *)

Lemma frame_refl w : frame w w.
Proof. unfold frame, frame_ps. tauto. Qed.

Lemma frame_trans a b c : frame a b -> frame b c -> frame a c.
Proof.
  unfold frame, frame_ps. intros (A1 & A2 & A3 & A4) (B1 & B2 & B3 & B4).
  repeat split; try congruence.
  intros H. rewrite B4; [now apply A4 | rewrite A4; assumption].
Qed.

Ltac frame_pure :=
  unfold frame, frame_ps; simpl;
  repeat match goal with
         | |- context[match ?x with _ => _ end] => destruct x; simpl
         end;
  repeat split; intros; try reflexivity; try congruence.

Ltac fstep := kstep frame_refl frame_trans
  ltac:(solve [frame_pure | unfold store_ping_status, add_server; frame_pure]).

Lemma frame_cbdataFree w : kept frame cbdataFree w.
Proof. unfold cbdataFree. repeat fstep. Qed.

Lemma frame_eventAdd n w : kept frame (eventAdd n) w.
Proof. unfold eventAdd. repeat fstep. Qed.

Lemma frame_eventDelete w : kept frame eventDelete w.
Proof. unfold eventDelete. repeat fstep. Qed.

Create HintDb frames discriminated.
#[local] Hint Resolve frame_cbdataFree frame_eventAdd frame_eventDelete : frames.

Ltac frames := repeat fstep; auto with frames.

Lemma frame_peerSelectStateFree w : kept frame peerSelectStateFree w.
Proof. unfold peerSelectStateFree. frames. Qed.
#[local] Hint Resolve frame_peerSelectStateFree : frames.

Lemma frame_deref_entry l w : kept frame (deref_entry l) w.
Proof. unfold deref_entry. frames. Qed.
#[local] Hint Resolve frame_deref_entry : frames.

Lemma frame_debugs_entry_url E a b w : kept frame (debugs_entry_url E a b) w.
Proof. unfold debugs_entry_url. frames. Qed.
#[local] Hint Resolve frame_debugs_entry_url : frames.

Lemma frame_nbgethostbyname h w : kept frame (ipcache_nbgethostbyname h) w.
Proof. unfold ipcache_nbgethostbyname. frames. Qed.
#[local] Hint Resolve frame_nbgethostbyname : frames.

Lemma frame_nonBlockingCheck l w : kept frame (nonBlockingCheck l) w.
Proof. unfold nonBlockingCheck. frames. Qed.
#[local] Hint Resolve frame_nonBlockingCheck : frames.

Lemma frame_cbdataReferenceValidDone w : kept frame cbdataReferenceValidDone w.
Proof. unfold cbdataReferenceValidDone. frames. Qed.
#[local] Hint Resolve frame_cbdataReferenceValidDone : frames.

Lemma frame_peerSelectDnsPaths E w : kept frame (peerSelectDnsPaths E) w.
Proof. unfold peerSelectDnsPaths. frames. Qed.
#[local] Hint Resolve frame_peerSelectDnsPaths : frames.

Lemma frame_peerSelectIcpPing E rq d en w : kept frame (peerSelectIcpPing E rq d en) w.
Proof. unfold peerSelectIcpPing. frames. Qed.
#[local] Hint Resolve frame_peerSelectIcpPing : frames.

Lemma frame_neighbor_done pc w : kept frame (neighbor_done pc) w.
Proof. unfold neighbor_done. frames. Qed.
#[local] Hint Resolve frame_neighbor_done : frames.

Lemma frame_peerGetSomeNeighbor E w : kept frame (peerGetSomeNeighbor E) w.
Proof. unfold peerGetSomeNeighbor. frames. Qed.
#[local] Hint Resolve frame_peerGetSomeNeighbor : frames.

Lemma frame_peerGetSomeNeighborReplies E w :
  kept frame (peerGetSomeNeighborReplies E) w.
Proof. unfold peerGetSomeNeighborReplies. frames. Qed.
#[local] Hint Resolve frame_peerGetSomeNeighborReplies : frames.

Lemma frame_ps_refl s : frame_ps s s.
Proof. unfold frame_ps. tauto. Qed.

Lemma frame_ps_servers l s : frame_ps s (set_servers l s).
Proof. unfold frame_ps. simpl. tauto. Qed.

Lemma frame_ps_trans a b c : frame_ps a b -> frame_ps b c -> frame_ps a c.
Proof.
  unfold frame_ps. intros (A1 & A2 & A3 & A4) (B1 & B2 & B3 & B4).
  repeat split; try congruence.
  intros H. rewrite B4; [now apply A4 | rewrite A4; assumption].
Qed.

Lemma frame_ps_add p c s : frame_ps s (add_server p c s).
Proof. apply frame_ps_servers. Qed.

Lemma frame_ps_status st s : frame_ps s (store_ping_status st s).
Proof. unfold store_ping_status, frame_ps. destruct (entry s); simpl; tauto. Qed.

Lemma frame_ps_peerSelectPinned E s : frame_ps s (peerSelectPinned E s).
Proof.
  unfold peerSelectPinned.
  repeat match goal with
         | |- context[match ?x with _ => _ end] => destruct x
         end;
  try apply frame_ps_refl;
  (eapply frame_ps_trans; [apply frame_ps_add | apply frame_ps_status]).
Qed.

Lemma frame_ps_peerGetSomeDirect s : frame_ps s (peerGetSomeDirect s).
Proof.
  unfold peerGetSomeDirect.
  repeat match goal with
         | |- context[match ?x with _ => _ end] => destruct x
         end; try apply frame_ps_refl; apply frame_ps_add.
Qed.

Lemma frame_ps_peerGetSomeParent E s : frame_ps s (peerGetSomeParent E s).
Proof.
  unfold peerGetSomeParent.
  destruct (direct_eqb (direct s) DIRECT_YES); [apply frame_ps_refl|].
  destruct (some_parent E (request s)) as [[p c]|];
    [apply frame_ps_add | apply frame_ps_refl].
Qed.

Lemma frame_ps_peerGetAllParents E s : frame_ps s (peerGetAllParents E s).
Proof.
  unfold peerGetAllParents. cbv zeta.
  destruct (getDefaultParent E _).
  - eapply frame_ps_trans; [apply frame_ps_servers | apply frame_ps_add].
  - apply frame_ps_servers.
Qed.

Lemma frame_ps_select_by_direct E s : frame_ps s (select_by_direct E s).
Proof.
  unfold select_by_direct. cbv zeta.
  destruct (direct s).
  4: apply frame_ps_peerGetSomeDirect.
  2: eapply frame_ps_trans;
       [apply frame_ps_peerGetSomeParent | apply frame_ps_peerGetAllParents].
  all: destruct (prefer_direct E); simpl;
    match goal with
    | |- context[if ?x then _ else _] => destruct x
    end;
    try apply frame_ps_peerGetSomeDirect;
    try apply frame_ps_peerGetSomeParent;
    (eapply frame_ps_trans;
       [apply frame_ps_peerGetSomeDirect | apply frame_ps_peerGetSomeParent])
    || (eapply frame_ps_trans;
       [apply frame_ps_peerGetSomeParent | apply frame_ps_peerGetSomeDirect]).
Qed.

#[local] Hint Resolve frame_ps_peerSelectPinned frame_ps_select_by_direct : frames.

Ltac fstep2 := kstep frame_refl frame_trans
  ltac:(solve [ frame_pure | unfold store_ping_status, add_server; frame_pure
              | unfold frame; simpl; auto with frames ]).
Ltac frames2 := repeat fstep2; auto with frames.

Lemma frame_peerSelectFoo_neighbors E w :
  kept frame (peerSelectFoo_neighbors E) w.
Proof. unfold peerSelectFoo_neighbors. frames2. Qed.
#[local] Hint Resolve frame_peerSelectFoo_neighbors : frames.

Lemma frame_peerSelectFoo E w : kept frame (peerSelectFoo E) w.
Proof.
  unfold peerSelectFoo. frames2.
  apply direct_eqb_eq in Heqb.
  unfold kept, frame, frame_ps; simpl. repeat split; congruence.
Qed.

(** ** Parent selection *)

Lemma some_parent_first_non_null E rq :
  first_non_null rq (parent_strategies E) =
  match some_parent E rq with
  | Some (p, c) => [mkFwd (Some p) c]
  | None => []
  end.
Proof.
  unfold some_parent, parent_strategies; simpl.
  destruct (getDefaultParent E rq); [reflexivity|].
  destruct (peerUserHashSelectParent E rq); [reflexivity|].
  destruct (peerSourceHashSelectParent E rq); [reflexivity|].
  destruct (carpSelectParent E rq); [reflexivity|].
  destruct (getRoundRobinParent E rq); [reflexivity|].
  destruct (getWeightedRoundRobinParent E rq); [reflexivity|].
  destruct (getFirstUpParent E rq); [reflexivity|].
  destruct (getAnyParent E rq); reflexivity.
Qed.

Lemma set_servers_same s : set_servers (servers s) s = s.
Proof. now destruct s. Qed.

(** C7.  [peerGetSomeParent] changes nothing but [servers]; when
    [direct] is [DIRECT_YES] it appends nothing, otherwise it appends the
    record of the first strategy, in the order getDefaultParent,
    peerUserHashSelectParent, peerSourceHashSelectParent,
    carpSelectParent, getRoundRobinParent, getWeightedRoundRobinParent,
    getFirstUpParent, getAnyParent, that returns a peer, under that
    strategy's tag; so at most one record is appended. *)
Theorem peerGetSomeParent_first_strategy_wins (E : Env) (s : ps_state) :
  let appended := if direct_eqb (direct s) DIRECT_YES then []
                  else first_non_null (request s) (parent_strategies E) in
  peerGetSomeParent E s = set_servers (servers s ++ appended) s
  /\ (length appended <= 1)%nat.
Proof.
  cbv zeta. unfold peerGetSomeParent.
  destruct (direct_eqb (direct s) DIRECT_YES).
  - rewrite app_nil_r, set_servers_same. split; [reflexivity | simpl; lia].
  - rewrite some_parent_first_non_null.
    destruct (some_parent E (request s)) as [[p c]|].
    + split; [reflexivity | simpl; lia].
    + rewrite app_nil_r, set_servers_same. split; [reflexivity | simpl; lia].
Qed.

Lemma all_parents_app E rq l acc :
  all_parents E rq l acc =
  acc ++ map (fun p => mkFwd (Some p) ANY_OLD_PARENT)
           (filter (fun p => is_parent (neighborType E p rq) && peerHTTPOkay E p rq) l).
Proof.
  revert acc. induction l as [|p l IH]; intros acc; simpl.
  - now rewrite app_nil_r.
  - destruct (is_parent (neighborType E p rq)); simpl; [|apply IH].
    destruct (peerHTTPOkay E p rq); simpl; [|apply IH].
    rewrite IH. unfold peerAddFwdServer. now rewrite <- app_assoc.
Qed.

(** C10.  In the [DIRECT_NO] branch of the switch, when
    [getDefaultParent] returns a peer [p], the servers list receives
    [(p, DEFAULT_PARENT)] from the parent selector, then one
    [ANY_OLD_PARENT] record per alive parent, then [(p, DEFAULT_PARENT)]
    a second time from the all-parents fallback. *)
Theorem default_parent_appended_twice (E : Env) (s : ps_state) (p : peer) :
  direct s = DIRECT_NO ->
  getDefaultParent E (request s) = Some p ->
  servers (select_by_direct E s) =
    servers s ++ [mkFwd (Some p) DEFAULT_PARENT]
      ++ alive_parents E (request s)
      ++ [mkFwd (Some p) DEFAULT_PARENT]
  /\ Forall (fun f => code f = ANY_OLD_PARENT) (alive_parents E (request s)).
Proof.
  intros Hd Hp. split.
  - unfold select_by_direct. rewrite Hd.
    unfold peerGetSomeParent, some_parent. rewrite Hd, Hp. simpl.
    unfold peerGetAllParents. simpl. rewrite Hp. simpl.
    unfold peerAddFwdServer. rewrite all_parents_app.
    unfold alive_parents. now rewrite <- !app_assoc.
  - unfold alive_parents. apply Forall_forall. intros f Hf.
    apply in_map_iff in Hf. destruct Hf as [q [<- _]]. reflexivity.
Qed.

Lemma default_parent_appended_twice_witness :
  servers (select_by_direct (site 10 1 0 false (Some P1))
             (set_direct DIRECT_NO
                (new_ps_state [] (GET "origin.example" true true) None))) =
  [mkFwd (Some P1) DEFAULT_PARENT; mkFwd (Some P1) ANY_OLD_PARENT;
   mkFwd (Some P2) ANY_OLD_PARENT; mkFwd (Some P3) ANY_OLD_PARENT;
   mkFwd (Some P1) DEFAULT_PARENT].
Proof.
  exact (proj1 (default_parent_appended_twice (site 10 1 0 false (Some P1))
                  (set_direct DIRECT_NO
                     (new_ps_state [] (GET "origin.example" true true) None))
                  P1 eq_refl eq_refl)).
Defined.

(** ** The ICP ping gate *)

Lemma peerSelectIcpPing_nonzero E rq d en w n w' :
  peerSelectIcpPing E rq d en w = Ret n w' -> n <> 0 ->
  exists e, en = Some e /\ w' = w
    /\ (hierarchical rq = true \/ d = DIRECT_NO)
    /\ (EBIT_TEST (flags e) (KEY_PRIVATE E) = true ->
        neighbors_do_private_keys E = true \/ d = DIRECT_NO).
Proof.
  unfold peerSelectIcpPing. destruct en as [e|]; [|discriminate].
  unfold bind, assert, ret, raise.
  destruct (ping_status_eqb (ping_status e) PING_NONE); [|discriminate].
  destruct (direct_eqb d DIRECT_YES) eqn:Hy; simpl; [discriminate|].
  destruct (hierarchical rq) eqn:Hh, (direct_eqb d DIRECT_NO) eqn:Hn; simpl;
    try apply direct_eqb_eq in Hn;
    destruct (EBIT_TEST (flags e) (KEY_PRIVATE E)) eqn:Hk,
             (neighbors_do_private_keys E) eqn:Hp; simpl;
    intros H Hnz; inversion H; subst; try congruence;
    exists e; repeat split; auto; try discriminate; try (intros; congruence).
Qed.

Lemma neighbor_done_pings_sent pc w :
  pings_sent (world_of (neighbor_done pc w)) = pings_sent w.
Proof. destruct pc as [[p c]|]; reflexivity. Qed.

Lemma peerSelectIcpPing_world E rq d en w :
  world_of (peerSelectIcpPing E rq d en w) = w.
Proof.
  unfold peerSelectIcpPing. destruct en as [e|]; [|reflexivity].
  unfold bind, assert, ret, raise.
  repeat match goal with
         | |- context[if ?b then _ else _] => destruct b; simpl
         end; reflexivity.
Qed.

(** C6, as amended.  With the entry in [PING_NONE] and [direct] not
    [DIRECT_YES], [peerGetSomeNeighbor] calls [neighborsUdpPing] only if
    the request is hierarchical or [direct] is [DIRECT_NO], and, when the
    entry is privately keyed, only if [neighbors_do_private_keys] is set
    or [direct] is [DIRECT_NO]. *)
Theorem ping_fanout_gate (E : Env) (w : world) (e : StoreEntry) :
  entry (ps w) = Some e -> ping_status e = PING_NONE ->
  direct (ps w) <> DIRECT_YES ->
  pings_sent w = false ->
  pings_sent (world_of (peerGetSomeNeighbor E w)) = true ->
  (hierarchical (request (ps w)) = true \/ direct (ps w) = DIRECT_NO)
  /\ (EBIT_TEST (flags e) (KEY_PRIVATE E) = true ->
      neighbors_do_private_keys E = true \/ direct (ps w) = DIRECT_NO).
Proof.
  intros He Hs Hd Hp.
  unfold peerGetSomeNeighbor, deref_entry, get_ps, assert, bind, ret, raise.
  rewrite He, Hs. simpl.
  destruct (direct_eqb (direct (ps w)) DIRECT_YES) eqn:Hy.
  { apply direct_eqb_eq in Hy. congruence. }
  destruct (if USE_CACHE_DIGESTS E
            then neighborsDigestSelect E (request (ps w)) else None).
  { rewrite neighbor_done_pings_sent. congruence. }
  destruct (netdbClosestParent E (request (ps w))).
  { rewrite neighbor_done_pings_sent. congruence. }
  rewrite He.
  pose proof (peerSelectIcpPing_world E (request (ps w)) (direct (ps w))
                (Some e) w) as Hw.
  destruct (peerSelectIcpPing E (request (ps w)) (direct (ps w)) (Some e) w)
    as [n w'|f w'] eqn:Hi; simpl in Hw; subst w'.
  2:{ simpl. congruence. }
  destruct (n =? 0) eqn:Hn; simpl.
  { intros Hx. congruence. }
  intros _. apply Z.eqb_neq in Hn.
  destruct (peerSelectIcpPing_nonzero _ _ _ _ _ _ _ Hi Hn)
    as [e' [He' [_ [H1 H2]]]].
  inversion He'; subst e'. split; assumption.
Qed.

Lemma ping_fanout_gate_witness :
  (hierarchical (GET "origin.example" true false) = true
   \/ DIRECT_MAYBE = DIRECT_NO)
  /\ (EBIT_TEST 0 7 = true -> false = true \/ DIRECT_MAYBE = DIRECT_NO).
Proof.
  exact (ping_fanout_gate (site 10 1 0 false None)
           (with_ps (set_direct DIRECT_MAYBE
                       (new_ps_state [] (GET "origin.example" true false)
                          (Some (fresh_entry 0))))
              (new_world [] (GET "origin.example" true false)
                 (Some (fresh_entry 0)) 0))
           (fresh_entry 0) eq_refl eq_refl
           ltac:(discriminate) eq_refl eq_refl).
Defined.

(** C6, as stated, fails: a privately keyed entry, private-key exchange
    not allowed, [direct] = [DIRECT_NO], three neighbours; the pings are
    sent all the same. *)
Lemma ping_fanout_private_key_counterexample :
  entry (ps private_key_world) = Some private_key_entry
  /\ ping_status private_key_entry = PING_NONE
  /\ direct (ps private_key_world) <> DIRECT_YES
  /\ EBIT_TEST (flags private_key_entry)
       (KEY_PRIVATE (site 10 1 0 false None)) = true
  /\ neighbors_do_private_keys (site 10 1 0 false None) = false
  /\ pings_sent private_key_world = false
  /\ pings_sent (world_of (peerGetSomeNeighbor (site 10 1 0 false None)
                             private_key_world)) = true
  /\ In UdpPing (trace (world_of (peerGetSomeNeighbor (site 10 1 0 false None)
                                    private_key_world))).
Proof.
  split_all; try (vm_compute; reflexivity); try discriminate.
  vm_compute. auto.
Qed.

(** ** The directness arbiter *)

Lemma arbiter_first_matching_rule E s :
  tri_state (always_direct s) -> tri_state (never_direct s) ->
  answers_available E s ->
  arbiter E s = Decided (first_matching_rule E s).
Proof.
  unfold tri_state, answers_available, arbiter, first_matching_rule.
  intros Ha Hn [Aa An].
  destruct Ha as [Ha|[Ha|Ha]], Hn as [Hn|[Hn|Hn]]; rewrite Ha, Hn in *;
    repeat match goal with
           | H : ?x = ?x -> _ |- _ => specialize (H eq_refl)
           | H : _ \/ _ |- _ => destruct H
           end;
    try discriminate;
    repeat match goal with
           | H : _ E = false |- _ => rewrite H
           end;
    simpl;
    repeat match goal with
           | |- context[if ?b then _ else _] => destruct b
           end;
    reflexivity.
Qed.

Lemma first_matching_rule_known E s : first_matching_rule E s <> DIRECT_UNKNOWN.
Proof.
  unfold first_matching_rule.
  repeat match goal with
         | |- context[if ?b then _ else _] => destruct b
         end; discriminate.
Qed.

(** C5.  Entered with [direct] = [DIRECT_UNKNOWN] and no ACL answer
    missing, [peerSelectFoo] sets [direct] by the first rule that
    matches, top to bottom: always_direct = +1 gives YES, never_direct =
    +1 gives NO, request.no_direct gives NO, request.loopdetect gives
    YES, the net-db direct check gives YES, otherwise MAYBE.  Entered
    with [direct] already decided, it leaves [direct] as it is. *)
Theorem arbiter_decides_once (E : Env) (w : world) :
  (direct (ps w) = DIRECT_UNKNOWN ->
   tri_state (always_direct (ps w)) -> tri_state (never_direct (ps w)) ->
   answers_available E (ps w) ->
   direct (ps (world_of (peerSelectFoo E w))) = first_matching_rule E (ps w))
  /\ (direct (ps w) <> DIRECT_UNKNOWN ->
      direct (ps (world_of (peerSelectFoo E w))) = direct (ps w)).
Proof.
  split.
  - intros Hu Ha Hn Hav.
    pose proof (arbiter_first_matching_rule E (ps w) Ha Hn Hav) as Harb.
    unfold peerSelectFoo, bind, get_ps. rewrite Hu. simpl. rewrite Harb.
    simpl.
    destruct (frame_peerSelectFoo_neighbors E
                (with_ps (set_direct (first_matching_rule E (ps w)) (ps w)) w))
      as (_ & _ & _ & Hd).
    simpl in Hd. apply Hd. apply first_matching_rule_known.
  - intros Hk. destruct (frame_peerSelectFoo E w) as (_ & _ & _ & Hd).
    now apply Hd.
Qed.

Lemma arbiter_decides_once_witness :
  direct (ps (world_of (peerSelectFoo (site 10 1 0 false None)
                          (new_world [] (GET "origin.example" true true) None 0))))
  = DIRECT_NO
  /\ direct (ps (world_of (peerSelectFoo (site 10 1 0 false None)
                             (with_ps (set_direct DIRECT_MAYBE
                                         (new_ps_state []
                                            (GET "origin.example" true true) None))
                                (new_world [] (GET "origin.example" true true)
                                   None 0)))))
  = DIRECT_MAYBE.
Proof.
  split.
  - apply (proj1 (arbiter_decides_once (site 10 1 0 false None)
                    (new_world [] (GET "origin.example" true true) None 0))).
    + reflexivity.
    + left; reflexivity.
    + left; reflexivity.
    + split; intros _; [reflexivity | right; reflexivity].
  - apply (proj2 (arbiter_decides_once (site 10 1 0 false None)
                    (with_ps (set_direct DIRECT_MAYBE
                                (new_ps_state []
                                   (GET "origin.example" true true) None))
                       (new_world [] (GET "origin.example" true true) None 0)))).
    simpl. discriminate.
Defined.

(** ** The DNS loop *)

Lemma nth_error_middle {A} (l1 : list A) a l2 :
  nth_error (l1 ++ a :: l2) (length l1) = Some a.
Proof. induction l1; simpl; auto. Qed.

(** Without TPROXY filtering and with room under the cap, the loop
    appends one destination per address, by index from where it stands:
    [ip], and so [cur], has no part in it. *)
Lemma dns_loop_index_order E ia f rest :
  forall done ip w,
    in_addrs ia = done ++ rest ->
    spoof_client_ip (request (ps w)) = false ->
    Z.of_nat (length (paths (ps w)) + length rest)
      <= to_unsigned (forward_max_tries E) ->
    exists w',
      dns_loop E ia (Some f) (length rest) (Z.of_nat (length done)) ip w
        = Ret tt w'
      /\ paths (ps w') =
           paths (ps w) ++ map (conn_of E (request (ps w)) f) rest
      /\ request (ps w') = request (ps w)
      /\ servers (ps w') = servers (ps w).
Proof.
  induction rest as [|a rest IH]; intros done ip w Hl Hs Hroom.
  - exists w. simpl. rewrite app_nil_r. auto.
  - simpl length in *. cbn [dns_loop]. unfold bind at 1. unfold get_ps.
    assert (Hlt : (Z.of_nat (length (paths (ps w)))
                   >=? to_unsigned (forward_max_tries E)) = false)
      by (rewrite Z.geb_leb; apply Z.leb_gt; lia).
    rewrite Hlt, Hs. unfold bind at 1. unfold ret at 1.
    cbv iota beta. unfold bind at 1, in_addrs_at.
    rewrite Nat2Z.id, Hl, nth_error_middle. unfold ret at 1. cbv iota beta.
    unfold bind at 1, modify_ps at 1. cbv iota beta.
    set (w1 := with_ps _ w).
    specialize (IH (done ++ [a])
                  ((if ip >=? count ia then 0 else ip) + 1) w1).
    replace (Z.of_nat (length (done ++ [a])))
      with (Z.of_nat (length done) + 1) in IH
      by (rewrite length_app; simpl; lia).
    destruct IH as (w' & Hrun & Hp & Hr & Hsv).
    + now rewrite <- app_assoc.
    + exact Hs.
    + subst w1. simpl. rewrite length_app. simpl. lia.
    + exists w'. split; [exact Hrun|].
      subst w1. simpl in *. rewrite Hp, <- app_assoc. auto.
Qed.

(** C2.  On the answer [rotation_ia] (two addresses, current index 1),
    [peerSelectDnsResults] appends the address at index 0 and then the
    one at index 1: the order of the array, not the rotated order that
    starts at the current index. *)
Theorem dns_results_not_rotated :
  map remote
    (paths (ps (world_of (run (site 10 1 0 false None)
                            [DnsResults (Some rotation_ia)] rotation_start))))
    = [SetPort origin_a0 80; SetPort origin_a1 80]
  /\ map (fun a => SetPort a 80) (rotated_order rotation_ia)
    = [SetPort origin_a1 80; SetPort origin_a0 80]
  /\ trace (world_of (run (site 10 1 0 false None)
                        [DnsResults (Some rotation_ia)] rotation_start))
    = [RequestLock; EntryLock; DnsLookup "origin.example"; RecordLookup;
       Callback [mkConn (SetPort origin_a0 80) HIER_DIRECT no_addr;
                 mkConn (SetPort origin_a1 80) HIER_DIRECT no_addr];
       RequestUnlock;
       EntryUnlock (mkEntry "http://origin.example/" PING_DONE 0);
       StateFree].
Proof. by_running. Qed.

(** ** The DNS stage without a cache entry *)




(** ** Closest parent miss *)

(** The first-miss part returns, and touches neither the closest parent
    nor the counters. *)
Lemma first_miss_returns p l w :
  closest_only p = true \/ weight p <> 0 ->
  exists w',
    first_miss p l w = Ret tt w'
    /\ (w' = w \/ exists r, w' = with_ps (note_first p r (ps w)) w).
Proof.
  intros Hp. unfold first_miss.
  destruct (closest_only p) eqn:Hc; [exists w; auto|].
  destruct Hp as [Hp|Hp]; [discriminate|].
  unfold bind at 1, get_ps at 1.
  destruct (negb (IsAnyAddr (closest_parent_miss (ps w)))); [exists w; auto|].
  unfold bind at 1, get_time at 1.
  apply Z.eqb_neq in Hp. rewrite Hp. cbv zeta. unfold when.
  destruct (IsAnyAddr (first_parent_miss (ps w)) || _).
  - eexists. split; [reflexivity|]. right. eexists. reflexivity.
  - exists w. auto.
Qed.

Lemma peerIcpParentMiss_closest E p h w :
  USE_ICMP E = true -> query_icmp E = true ->
  rtt_miss E (p, h) ->
  exists w1,
    peerIcpParentMiss E p h w = Ret tt w1
    /\ closest_state (ps w1) =
         (if (p_rtt (ping (ps w)) =? 0) || (rtt_of h <? p_rtt (ping (ps w)))
          then (in_addr p, rtt_of h) else closest_state (ps w))
    /\ entry (ps w1) = entry (ps w)
    /\ n_recv (ping (ps w1)) = n_recv (ping (ps w))
    /\ n_replies_expected (ping (ps w1)) = n_replies_expected (ping (ps w))
    /\ freed w1 = freed w /\ pings_sent w1 = pings_sent w.
Proof.
  intros Hi Hq (Hop & Hfl & Hpos & Hw). simpl in *.
  unfold peerIcpParentMiss. rewrite Hi, Hq.
  apply Z.eqb_neq in Hfl. rewrite Hfl. simpl negb. cbv iota.
  fold (rtt_of h).
  assert (Hnz : (rtt_of h =? 0) = false) by (apply Z.eqb_neq; lia).
  assert (Hp : (0 <? rtt_of h) = true) by (apply Z.ltb_lt; lia).
  rewrite Hp.
  set (upd := (p_rtt (ping (ps w)) =? 0) || (rtt_of h <? p_rtt (ping (ps w)))).
  assert (Hfm : forall w2,
             closest_state (ps w2) =
               (if upd then (in_addr p, rtt_of h) else closest_state (ps w)) ->
             entry (ps w2) = entry (ps w) ->
             n_recv (ping (ps w2)) = n_recv (ping (ps w)) ->
             n_replies_expected (ping (ps w2)) = n_replies_expected (ping (ps w)) ->
             freed w2 = freed w -> pings_sent w2 = pings_sent w ->
             exists w1,
               first_miss p 706 w2 = Ret tt w1
               /\ closest_state (ps w1) =
                    (if upd then (in_addr p, rtt_of h) else closest_state (ps w))
               /\ entry (ps w1) = entry (ps w)
               /\ n_recv (ping (ps w1)) = n_recv (ping (ps w))
               /\ n_replies_expected (ping (ps w1)) = n_replies_expected (ping (ps w))
               /\ freed w1 = freed w /\ pings_sent w1 = pings_sent w).
  { intros w2 H1 H2 H3 H4 H5 H6.
    destruct (first_miss_returns p 706 w2 Hw) as (w1 & Hr & [-> | [r ->]]);
      exists w1 || eexists; (split; [exact Hr|]); simpl; auto 10. }
  destruct (rtt_of h <? 65535);
    simpl; unfold bind at 1; unfold when, emit, get_ps, modify_ps, ret, bind;
    simpl; rewrite Hnz; simpl; fold upd; destruct upd eqn:Hu; simpl;
    apply Hfm; simpl; rewrite ?Hu; reflexivity.
Qed.

(** One reply, up to the test on the number received. *)
Lemma parent_miss_reply E p h w e :
  USE_ICMP E = true -> query_icmp E = true ->
  live w e -> rtt_miss E (p, h) ->
  exists w1,
    deliver E (parent_reply (p, h)) w = after_reply E w1
    /\ closest_state (ps w1) =
         (if (p_rtt (ping (ps w)) =? 0) || (rtt_of h <? p_rtt (ping (ps w)))
          then (in_addr p, rtt_of h) else closest_state (ps w))
    /\ live w1 e
    /\ n_recv (ping (ps w1)) = n_recv (ping (ps w)) + 1
    /\ n_replies_expected (ping (ps w1)) = n_replies_expected (ping (ps w)).
Proof.
  intros Hi Hq (Hf & Hs & He) Hr.
  pose proof Hr as (Hop & _). simpl in Hop.
  unfold deliver, parent_reply. simpl fst; simpl snd. rewrite Hf, Hs.
  unfold peerHandlePingReply, peerHandleIcpReply. rewrite Hop.
  assert (Hdbg : debugs_entry_url E 3 722 w = Ret tt w).
  { unfold debugs_entry_url. destruct (debugs_on E 44 3); [|reflexivity].
    unfold bind, deref_entry, bind, get_ps. now rewrite He. }
  unfold bind at 1. rewrite Hdbg.
  unfold bind at 1. unfold modify_ps at 1. simpl is_parent. unfold when.
  set (w0 := with_ps (count_reply (ps w)) w).
  destruct (peerIcpParentMiss_closest E p h w0 Hi Hq Hr)
    as (w1 & Hrun & Hc & He1 & Hn1 & Hx1 & Hf1 & Hs1).
  exists w1. unfold bind at 1. rewrite Hrun. split; [reflexivity|].
  subst w0. simpl in *. unfold live.
  rewrite Hc, He1, Hn1, Hx1, Hf1, Hs1. repeat split; auto.
Qed.

Lemma after_reply_frame E w : frame w (world_of (after_reply E w)).
Proof.
  unfold after_reply, bind, get_ps.
  destruct (n_recv (ping (ps w)) <? n_replies_expected (ping (ps w))).
  - apply frame_refl.
  - apply frame_peerSelectFoo.
Qed.

Lemma frame_closest_state w w' :
  frame w w' -> closest_state (ps w') = closest_state (ps w).
Proof. intros (H1 & H2 & _). unfold closest_state. now rewrite H1, H2. Qed.

Lemma closest_after_run E e rs :
  USE_ICMP E = true -> query_icmp E = true ->
  forall w,
    live w e ->
    n_recv (ping (ps w)) + Z.of_nat (length rs)
      <= n_replies_expected (ping (ps w)) ->
    Forall (rtt_miss E) rs ->
    closest_state (ps (world_of (run E (map parent_reply rs) w))) =
    closest_after rs (closest_parent_miss (ps w)) (p_rtt (ping (ps w))).
Proof.
  intros Hi Hq. induction rs as [|[p h] rs IH]; intros w Hl Hn Hall.
  - reflexivity.
  - inversion Hall as [|? ? Hr Hrest]; subst.
    destruct (parent_miss_reply E p h w e Hi Hq Hl Hr)
      as (w1 & Hrun & Hc & Hl1 & Hn1 & He1).
    cbn [map run closest_after fst snd]. unfold bind. rewrite Hrun.
    assert (Hstate : closest_after rs (closest_parent_miss (ps w1)) (p_rtt (ping (ps w1)))
                     = (if (p_rtt (ping (ps w)) =? 0) || (rtt_of h <? p_rtt (ping (ps w)))
                        then closest_after rs (in_addr p) (rtt_of h)
                        else closest_after rs (closest_parent_miss (ps w)) (p_rtt (ping (ps w))))).
    { unfold closest_state in Hc.
      destruct ((p_rtt (ping (ps w)) =? 0) || (rtt_of h <? p_rtt (ping (ps w))));
        inversion Hc as [[Ha Hb]]; reflexivity. }
    rewrite <- Hstate. clear Hstate.
    simpl length in Hn.
    destruct (n_recv (ping (ps w1)) <? n_replies_expected (ping (ps w1))) eqn:Hq1.
    + assert (Har : after_reply E w1 = Ret tt w1)
        by (unfold after_reply, bind, get_ps; now rewrite Hq1).
      rewrite Har. apply IH; auto. apply Z.ltb_lt in Hq1. lia.
    + apply Z.ltb_ge in Hq1.
      assert (rs = []) by (destruct rs; [reflexivity | simpl length in Hn; lia]).
      subst rs. simpl.
      replace (world_of match after_reply E w1 with
                        | Ret _ w' => ret tt w'
                        | Fault f w' => Fault f w'
                        end) with (world_of (after_reply E w1))
        by (destruct (after_reply E w1); reflexivity).
      apply frame_closest_state, after_reply_frame.
Qed.

Lemma closest_after_spec rs :
  forall a best,
    0 < best ->
    Forall (fun r => 0 < rtt_of (snd r)) rs ->
    (closest_after rs a best = (a, best)
     /\ Forall (fun r => best <= rtt_of (snd r)) rs)
    \/ (exists before p h after,
          rs = before ++ (p, h) :: after
          /\ closest_after rs a best = (in_addr p, rtt_of h)
          /\ rtt_of h < best
          /\ Forall (fun r => rtt_of h < rtt_of (snd r)) before
          /\ Forall (fun r => rtt_of h <= rtt_of (snd r)) after).
Proof.
  induction rs as [|[p h] rs IH]; intros a best Hb Hall.
  - left. split; [reflexivity | constructor].
  - inversion Hall as [|? ? Hp Hrest]; subst. simpl in Hp.
    cbn [closest_after fst snd].
    assert (Hz : (best =? 0) = false) by (apply Z.eqb_neq; lia).
    rewrite Hz. simpl orb.
    destruct (rtt_of h <? best) eqn:Hlt.
    + apply Z.ltb_lt in Hlt.
      destruct (IH (in_addr p) (rtt_of h) Hp Hrest)
        as [[Heq Hge] | (before & p' & h' & after & Hrs & Heq & Hlt' & Hbf & Haf)].
      * right. exists [], p, h, rs. repeat split; auto.
      * right. exists ((p, h) :: before), p', h', after.
        subst rs. repeat split; auto; try lia;
          try (constructor; [simpl; lia | exact Hbf]).
    + apply Z.ltb_ge in Hlt.
      destruct (IH a best Hb Hrest)
        as [[Heq Hge] | (before & p' & h' & after & Hrs & Heq & Hlt' & Hbf & Haf)].
      * left. split; [exact Heq | constructor; [simpl; lia | exact Hge]].
      * right. exists ((p, h) :: before), p', h', after.
        subst rs. repeat split; auto;
          try (constructor; [simpl; lia | exact Hbf]).
Qed.

(** C4.  ICMP querying is on; the context is alive with its pings out
    and no closest parent recorded yet ([p_rtt] = 0); [rs] is a non-empty
    list of parent ICP_MISS replies, each carrying a positive RTT (from
    peers that are closest-only or have a weight to divide by), delivered
    while replies are still expected.  After the last one,
    [closest_parent_miss] is the address of a peer of minimum RTT and
    [p_rtt] that RTT; every reply before that peer's has a strictly
    larger RTT, so among equals the first one processed stays. *)
Theorem closest_parent_miss_first_minimum (E : Env) (w : world)
    (e : StoreEntry) (rs : list (peer * icp_common_t)) :
  USE_ICMP E = true -> query_icmp E = true ->
  freed w = false -> pings_sent w = true -> entry (ps w) = Some e ->
  p_rtt (ping (ps w)) = 0 ->
  n_recv (ping (ps w)) + Z.of_nat (length rs)
    <= n_replies_expected (ping (ps w)) ->
  rs <> [] ->
  Forall (rtt_miss E) rs ->
  exists before p h after,
    rs = before ++ (p, h) :: after
    /\ closest_parent_miss (ps (world_of (run E (map parent_reply rs) w)))
       = in_addr p
    /\ p_rtt (ping (ps (world_of (run E (map parent_reply rs) w)))) = rtt_of h
    /\ Forall (fun r => rtt_of h < rtt_of (snd r)) before
    /\ Forall (fun r => rtt_of h <= rtt_of (snd r)) after.
Proof.
  intros Hi Hq Hf Hs He Hp Hn Hne Hall.
  pose proof (closest_after_run E e rs Hi Hq w (conj Hf (conj Hs He))
                Hn Hall) as Hrun.
  unfold closest_state in Hrun.
  destruct rs as [|[p h] rs]; [congruence|].
  rewrite Hp in Hrun. cbn [closest_after fst snd] in Hrun. simpl in Hrun.
  inversion Hall as [|? ? Hr Hrest]; subst.
  assert (Hpos : Forall (fun r => 0 < rtt_of (snd r)) rs).
  { eapply Forall_impl; [|exact Hrest]. intros r H. apply H. }
  destruct (closest_after_spec rs (in_addr p) (rtt_of h)
              ltac:(apply Hr) Hpos)
    as [[Heq Hge] | (before & p' & h' & after & Hrs & Heq & Hlt' & Hbf & Haf)];
    rewrite Heq in Hrun; inversion Hrun as [[Ha Hb]].
  - exists [], p, h, rs. repeat split; auto.
  - exists ((p, h) :: before), p', h', after. subst rs. repeat split; auto;
      try (constructor; [simpl; lia | exact Hbf]).
Qed.

Lemma closest_parent_miss_first_minimum_witness :
  exists before p h after,
    [(P1, icp_rtt 50); (P2, icp_rtt 30); (P3, icp_rtt 30)]
      = before ++ (p, h) :: after
    /\ closest_parent_miss
         (ps (world_of (run (site 10 1 0 false None)
                          (map parent_reply
                             [(P1, icp_rtt 50); (P2, icp_rtt 30); (P3, icp_rtt 30)])
                          (pinged_start (site 10 1 0 false None)))))
       = in_addr p
    /\ p_rtt (ping (ps (world_of (run (site 10 1 0 false None)
                          (map parent_reply
                             [(P1, icp_rtt 50); (P2, icp_rtt 30); (P3, icp_rtt 30)])
                          (pinged_start (site 10 1 0 false None))))))
       = rtt_of h
    /\ Forall (fun r => rtt_of h < rtt_of (snd r)) before
    /\ Forall (fun r => rtt_of h <= rtt_of (snd r)) after.
Proof.
  apply (closest_parent_miss_first_minimum (site 10 1 0 false None)
           (pinged_start (site 10 1 0 false None))
           (mkEntry "http://origin.example/" PING_WAITING 0)).
  - reflexivity.
  - reflexivity.
  - reflexivity.
  - reflexivity.
  - reflexivity.
  - reflexivity.
  - vm_compute. discriminate.
  - discriminate.
  - repeat constructor; vm_compute; discriminate.
Defined.

Example closest_parent_miss_tie :
  closest_parent_miss
    (ps (world_of (run (site 10 1 0 false None)
                     (map parent_reply
                        [(P1, icp_rtt 50); (P2, icp_rtt 30); (P3, icp_rtt 30)])
                     (pinged_start (site 10 1 0 false None)))))
  = in_addr P2.
Proof. vm_compute. reflexivity. Qed.

(** ** What [peerSelectDnsPaths] leaves alone *)

Lemma dns_frame_refl w : dns_frame w w.
Proof. unfold dns_frame. tauto. Qed.

Lemma dns_frame_trans a b c : dns_frame a b -> dns_frame b c -> dns_frame a c.
Proof.
  unfold dns_frame. intros (A1 & A2 & A3 & A4) (B1 & B2 & B3 & B4).
  repeat split; try congruence.
  - apply B4, A4, H.
  - destruct (A4 H) as [Hs Ht]. destruct (B4 Hs). congruence.
Qed.

Ltac dns_pure :=
  unfold dns_frame, settled, store_ping_status; simpl;
  repeat match goal with
         | H : entry _ = _ |- _ => rewrite H
         | |- context[match ?x with _ => _ end] => destruct x eqn:?; simpl
         end;
  repeat split; intros; try reflexivity; try congruence; auto.

Ltac dstep := kstep dns_frame_refl dns_frame_trans ltac:(solve [dns_pure]).
Create HintDb dns_frames discriminated.
Ltac dns_frames := repeat dstep; auto with dns_frames.

Lemma dns_frame_cbdataFree w : kept dns_frame cbdataFree w.
Proof. unfold cbdataFree. dns_frames. Qed.
#[local] Hint Resolve dns_frame_cbdataFree : dns_frames.

Lemma dns_frame_deref_entry l w : kept dns_frame (deref_entry l) w.
Proof. unfold deref_entry. dns_frames. Qed.
#[local] Hint Resolve dns_frame_deref_entry : dns_frames.

Lemma dns_frame_debugs E a b w : kept dns_frame (debugs_entry_url E a b) w.
Proof. unfold debugs_entry_url. dns_frames. Qed.
#[local] Hint Resolve dns_frame_debugs : dns_frames.

Lemma dns_frame_nbgethostbyname h w : kept dns_frame (ipcache_nbgethostbyname h) w.
Proof. unfold ipcache_nbgethostbyname. dns_frames. Qed.
#[local] Hint Resolve dns_frame_nbgethostbyname : dns_frames.

Lemma dns_frame_ValidDone w : kept dns_frame cbdataReferenceValidDone w.
Proof. unfold cbdataReferenceValidDone. dns_frames. Qed.
#[local] Hint Resolve dns_frame_ValidDone : dns_frames.

Lemma settled_store_done s : settled (store_ping_status PING_DONE s).
Proof.
  unfold settled, store_ping_status.
  destruct (entry s) eqn:He; simpl; rewrite ?He; auto.
Qed.

Lemma dns_frame_store_done w :
  kept dns_frame (modify_ps (store_ping_status PING_DONE)) w.
Proof.
  unfold kept, dns_frame. simpl. unfold store_ping_status.
  destruct (entry (ps w)) eqn:He; simpl; repeat split; auto;
    unfold settled; simpl; rewrite ?He; auto.
Qed.
#[local] Hint Resolve dns_frame_store_done : dns_frames.

Lemma dns_frame_peerSelectStateFree w : kept dns_frame peerSelectStateFree w.
Proof.
  unfold peerSelectStateFree. dns_frames.
  unfold kept, dns_frame, settled. simpl. rewrite Heqo.
  apply ping_status_eqb_eq in H. rewrite H. repeat split; discriminate.
Qed.
#[local] Hint Resolve dns_frame_peerSelectStateFree : dns_frames.

Lemma dns_frame_peerSelectDnsPaths E w : kept dns_frame (peerSelectDnsPaths E) w.
Proof. unfold peerSelectDnsPaths. dns_frames. Qed.


(** ** Records appended outside the reply aggregator *)

Lemma plain_ext_refl s : plain_ext s s.
Proof.
  unfold plain_ext. repeat split; auto. exists []. now rewrite app_nil_r.
Qed.

Lemma plain_ext_trans a b c : plain_ext a b -> plain_ext b c -> plain_ext a c.
Proof.
  intros (A1 & A2 & A3 & A4 & A5 & m1 & A6 & A7)
         (B1 & B2 & B3 & B4 & B5 & m2 & B6 & B7).
  unfold plain_ext. repeat split; try congruence.
  exists (m1 ++ m2). rewrite B6, A6, app_assoc. split; [reflexivity|].
  apply Forall_app. auto.
Qed.

Lemma plain_ext_add p c s :
  reply_code c = false -> plain_ext s (add_server p c s).
Proof.
  intros Hc. unfold plain_ext. simpl. repeat split; auto.
  exists [mkFwd p c]. split; [reflexivity|]. constructor; auto.
Qed.

Lemma plain_ext_peerGetSomeDirect s : plain_ext s (peerGetSomeDirect s).
Proof.
  unfold peerGetSomeDirect.
  destruct (direct_eqb (direct s) DIRECT_NO); [apply plain_ext_refl|].
  destruct (req_protocol (request s));
    try apply plain_ext_refl; now apply plain_ext_add.
Qed.

Lemma some_parent_plain E rq p c :
  some_parent E rq = Some (p, c) -> reply_code c = false.
Proof.
  unfold some_parent.
  repeat match goal with
         | |- context[match ?x with _ => _ end] => destruct x
         end; intros H; inversion H; reflexivity.
Qed.

Lemma plain_ext_peerGetSomeParent E s : plain_ext s (peerGetSomeParent E s).
Proof.
  unfold peerGetSomeParent.
  destruct (direct_eqb (direct s) DIRECT_YES); [apply plain_ext_refl|].
  destruct (some_parent E (request s)) as [[p c]|] eqn:Hsp;
    [|apply plain_ext_refl].
  apply plain_ext_add. eapply some_parent_plain; eauto.
Qed.

Lemma plain_ext_peerGetAllParents E s : plain_ext s (peerGetAllParents E s).
Proof.
  unfold peerGetAllParents. cbv zeta.
  assert (H1 : plain_ext s (set_servers (all_parents E (request s) (peers E) (servers s)) s)).
  { unfold plain_ext. simpl. repeat split; auto.
    rewrite all_parents_app. eexists. split; [reflexivity|].
    apply Forall_forall. intros f Hf. apply in_map_iff in Hf.
    destruct Hf as [q [<- _]]. reflexivity. }
  destruct (getDefaultParent E _); [|exact H1].
  eapply plain_ext_trans; [exact H1 | now apply plain_ext_add].
Qed.

Lemma plain_ext_select_by_direct E s : plain_ext s (select_by_direct E s).
Proof.
  unfold select_by_direct. cbv zeta.
  destruct (direct s).
  4: apply plain_ext_peerGetSomeDirect.
  2: eapply plain_ext_trans;
       [apply plain_ext_peerGetSomeParent | apply plain_ext_peerGetAllParents].
  all: destruct (prefer_direct E); simpl;
    match goal with
    | |- context[if ?x then _ else _] => destruct x
    end;
    try apply plain_ext_peerGetSomeDirect;
    try apply plain_ext_peerGetSomeParent;
    (eapply plain_ext_trans;
       [apply plain_ext_peerGetSomeDirect | apply plain_ext_peerGetSomeParent])
    || (eapply plain_ext_trans;
       [apply plain_ext_peerGetSomeParent | apply plain_ext_peerGetSomeDirect]).
Qed.

Lemma plain_ext_peerSelectPinned E s :
  entry s = None -> plain_ext s (peerSelectPinned E s).
Proof.
  intros He. unfold peerSelectPinned.
  assert (Hst : forall s', entry s' = None ->
                           store_ping_status PING_DONE s' = s')
    by (intros s' H; unfold store_ping_status; now rewrite H).
  repeat match goal with
         | |- context[match ?x with _ => _ end] => destruct x
         end; try apply plain_ext_refl;
    rewrite Hst by exact He; now apply plain_ext_add.
Qed.

(** ** An ICP_HIT while replies are awaited *)

Lemma peerCheckNetdbDirect_hit E s p t :
  peerCheckNetdbDirect E (note_hit p t (count_reply s)) = peerCheckNetdbDirect E s.
Proof. reflexivity. Qed.

Lemma hit_reply_runs E w e p t h :
  freed w = false -> pings_sent w = true ->
  entry (ps w) = Some e -> ping_status e = PING_WAITING ->
  direct (ps w) <> DIRECT_UNKNOWN -> direct (ps w) <> DIRECT_YES ->
  opcode h = ICP_HIT ->
  deliver E (PingReply p t (IcpData h)) w =
  peerSelectDnsPaths E
    (with_ps (select_by_direct E
                (store_ping_status PING_DONE
                   (set_servers (servers (ps w) ++ [hit_record E (ps w) p t])
                      (note_hit p t (count_reply (ps w)))))) w).
Proof.
  intros Hf Hs He Hst Hu Hy Hop.
  unfold deliver. rewrite Hf, Hs. unfold peerHandlePingReply, peerHandleIcpReply.
  rewrite Hop.
  assert (Hdbg : debugs_entry_url E 3 722 w = Ret tt w).
  { unfold debugs_entry_url. destruct (debugs_on E 44 3); [|reflexivity].
    unfold bind, deref_entry, bind, get_ps. now rewrite He. }
  unfold bind at 1. rewrite Hdbg.
  unfold bind at 1, modify_ps at 1. unfold bind at 1, modify_ps at 1.
  cbv iota beta.
  unfold peerSelectFoo, bind at 1, get_ps at 1. simpl.
  assert (Hu' : direct_eqb (direct (ps w)) DIRECT_UNKNOWN = false).
  { destruct (direct_eqb (direct (ps w)) DIRECT_UNKNOWN) eqn:H; auto.
    apply direct_eqb_eq in H. contradiction. }
  assert (Hy' : direct_eqb (direct (ps w)) DIRECT_YES = false).
  { destruct (direct_eqb (direct (ps w)) DIRECT_YES) eqn:H; auto.
    apply direct_eqb_eq in H. contradiction. }
  rewrite Hu'.
  unfold peerSelectFoo_neighbors, peerGetSomeNeighborReplies, hit_record.
  unfold when, deref_entry, assert.
  unfold bind, get_ps, modify_ps, ret, raise.
  simpl. repeat (progress (rewrite ?He, ?Hst, ?Hy'; simpl)).
  change (peerCheckNetdbDirect E (note_hit p t (count_reply (ps w))))
    with (peerCheckNetdbDirect E (ps w)).
  destruct (peerCheckNetdbDirect E (ps w)); simpl.
  - reflexivity.
  - destruct (is_parent t); reflexivity.
Qed.

(** ** After the neighbour phase *)

Lemma settled_step_refl w : settled_step w w.
Proof. intros H. repeat split; auto. now exists []. Qed.

Lemma settled_step_trans a b c :
  settled_step a b -> settled_step b c -> settled_step a c.
Proof.
  intros Hab Hbc Ha. destruct (Hab Ha) as (Hb & Ht1 & c1 & H1).
  destruct (Hbc Hb) as (Hc & Ht2 & c2 & H2).
  repeat split; [exact Hc | congruence |].
  exists (c1 ++ c2). now rewrite H1, H2, app_assoc.
Qed.

Lemma settled_step_same w w' :
  entry (ps w') = entry (ps w) -> servers (ps w') = servers (ps w) ->
  ping_timer w' = ping_timer w -> settled_step w w'.
Proof.
  intros He Hs Ht H. unfold settled in *. rewrite He, Hs.
  repeat split; auto. now exists [].
Qed.

Lemma settled_step_dns_frame w w' : dns_frame w w' -> settled_step w w'.
Proof.
  intros (Hs & _ & _ & H) Hw. destruct (H Hw) as [H1 H2].
  repeat split; auto. exists []. now rewrite Hs.
Qed.

Lemma reply_records_app l m :
  Forall (fun f => reply_code (code f) = false) m ->
  reply_records (l ++ m) = reply_records l.
Proof.
  intros H. unfold reply_records. rewrite filter_app.
  replace (filter (fun f => reply_code (code f)) m) with (@nil FwdServer).
  - apply app_nil_r.
  - induction H as [|f m Hf _ IH]; simpl; [reflexivity|]. now rewrite Hf.
Qed.

Lemma settled_step_plain w s' :
  plain_ext (ps w) s' -> settled_step w (with_ps s' w).
Proof.
  intros (He & _ & _ & _ & _ & more & Hs & Hm) Hw. simpl.
  unfold settled in *. rewrite He, Hs, reply_records_app by exact Hm.
  repeat split; auto. now exists [].
Qed.

Ltac settled_pure :=
  first [ apply settled_step_same; reflexivity
        | apply settled_step_same; simpl; unfold store_ping_status;
          repeat match goal with
                 | |- context[match ?x with _ => _ end] => destruct x eqn:?; simpl
                 end; congruence ].

Ltac sstep := kstep settled_step_refl settled_step_trans ltac:(solve [settled_pure]).
Create HintDb settled_steps discriminated.
Ltac settled_steps := repeat sstep; auto with settled_steps.

Lemma settled_peerSelectDnsPaths E w : kept settled_step (peerSelectDnsPaths E) w.
Proof. apply settled_step_dns_frame, dns_frame_peerSelectDnsPaths. Qed.
#[local] Hint Resolve settled_peerSelectDnsPaths : settled_steps.

Lemma settled_peerSelectStateFree w : kept settled_step peerSelectStateFree w.
Proof. apply settled_step_dns_frame, dns_frame_peerSelectStateFree. Qed.
#[local] Hint Resolve settled_peerSelectStateFree : settled_steps.

Lemma settled_store_done_step w :
  kept settled_step (modify_ps (store_ping_status PING_DONE)) w.
Proof. apply settled_step_dns_frame, dns_frame_store_done. Qed.
#[local] Hint Resolve settled_store_done_step : settled_steps.

Lemma settled_deref_entry l w : kept settled_step (deref_entry l) w.
Proof. unfold deref_entry. settled_steps. Qed.
#[local] Hint Resolve settled_deref_entry : settled_steps.

Lemma settled_debugs E a b w : kept settled_step (debugs_entry_url E a b) w.
Proof. unfold debugs_entry_url. settled_steps. Qed.
#[local] Hint Resolve settled_debugs : settled_steps.

Lemma settled_nonBlockingCheck l w : kept settled_step (nonBlockingCheck l) w.
Proof. unfold nonBlockingCheck. settled_steps. Qed.
#[local] Hint Resolve settled_nonBlockingCheck : settled_steps.

Lemma peerSelectPinned_entry_none E s :
  entry s = None -> entry (peerSelectPinned E s) = None.
Proof. intros H. destruct (plain_ext_peerSelectPinned E s H) as [He _]. congruence. Qed.

Lemma neighbors_settled E w :
  settled (ps w) ->
  peerSelectFoo_neighbors E w =
  peerSelectDnsPaths E
    (with_ps (select_by_direct E
                (match entry (ps w) with
                 | None => peerSelectPinned E (ps w)
                 | Some _ => ps w
                 end)) w).
Proof.
  unfold settled. intros Hs. unfold peerSelectFoo_neighbors.
  unfold when, deref_entry. unfold bind, get_ps, modify_ps, ret.
  destruct (entry (ps w)) as [e|] eqn:He.
  - rewrite Hs. simpl. rewrite He, Hs. reflexivity.
  - simpl. rewrite (peerSelectPinned_entry_none E _ He). reflexivity.
Qed.

Lemma settled_peerSelectFoo_neighbors E w :
  kept settled_step (peerSelectFoo_neighbors E) w.
Proof.
  unfold kept. intros Hs. rewrite (neighbors_settled E w Hs).
  revert Hs. change (settled_step w
     (world_of (peerSelectDnsPaths E
        (with_ps (select_by_direct E
                    match entry (ps w) with
                    | Some _ => ps w
                    | None => peerSelectPinned E (ps w)
                    end) w)))).
  eapply settled_step_trans; [|apply settled_peerSelectDnsPaths].
  apply settled_step_plain.
  destruct (entry (ps w)) eqn:He.
  - apply plain_ext_select_by_direct.
  - eapply plain_ext_trans;
      [now apply plain_ext_peerSelectPinned | apply plain_ext_select_by_direct].
Qed.
#[local] Hint Resolve settled_peerSelectFoo_neighbors : settled_steps.

Lemma settled_peerSelectFoo E w : kept settled_step (peerSelectFoo E) w.
Proof. unfold peerSelectFoo. settled_steps. Qed.
#[local] Hint Resolve settled_peerSelectFoo : settled_steps.

Lemma settled_dns_loop E ia fs k :
  forall n ip w, kept settled_step (dns_loop E ia fs k n ip) w.
Proof.
  induction k as [|k IH]; intros n ip w; cbn [dns_loop].
  - apply settled_step_refl.
  - unfold in_addrs_at. settled_steps.
Qed.
#[local] Hint Resolve settled_dns_loop : settled_steps.

Lemma settled_pop w :
  kept settled_step (modify_ps (fun s => set_servers (tl (servers s)) s)) w.
Proof.
  unfold kept. simpl. intros Hs. repeat split; auto.
  destruct (servers (ps w)) as [|f l]; simpl; [now exists []|].
  unfold reply_records. simpl.
  destruct (reply_code (code f)); [now exists [f] | now exists []].
Qed.
#[local] Hint Resolve settled_pop : settled_steps.

Lemma settled_peerSelectDnsResults E ia w :
  kept settled_step (peerSelectDnsResults E ia) w.
Proof. unfold peerSelectDnsResults. settled_steps. Qed.
#[local] Hint Resolve settled_peerSelectDnsResults : settled_steps.

Lemma settled_first_miss p l w : kept settled_step (first_miss p l) w.
Proof. unfold first_miss. cbv zeta. settled_steps. Qed.
#[local] Hint Resolve settled_first_miss : settled_steps.

Lemma settled_peerIcpParentMiss E p h w :
  kept settled_step (peerIcpParentMiss E p h) w.
Proof. unfold peerIcpParentMiss. settled_steps. Qed.
#[local] Hint Resolve settled_peerIcpParentMiss : settled_steps.

Lemma settled_peerHtcpParentMiss E p h w :
  kept settled_step (peerHtcpParentMiss E p h) w.
Proof. unfold peerHtcpParentMiss. settled_steps. Qed.
#[local] Hint Resolve settled_peerHtcpParentMiss : settled_steps.

Lemma settled_after_reply E w : kept settled_step (after_reply E) w.
Proof. unfold after_reply. settled_steps. Qed.
#[local] Hint Resolve settled_after_reply : settled_steps.

Lemma settled_peerHandlePingReply E p t d w :
  kept settled_step (peerHandlePingReply E p t d) w.
Proof.
  unfold peerHandlePingReply, peerHandleIcpReply, peerHandleHtcpReply.
  settled_steps.
Qed.

Lemma settled_peerCheckAlwaysDirectDone E a w :
  kept settled_step (peerCheckAlwaysDirectDone E a) w.
Proof. unfold peerCheckAlwaysDirectDone. settled_steps. Qed.

Lemma settled_peerCheckNeverDirectDone E a w :
  kept settled_step (peerCheckNeverDirectDone E a) w.
Proof. unfold peerCheckNeverDirectDone. settled_steps. Qed.

Lemma settled_peerPingTimeout E w : kept settled_step (peerPingTimeout E) w.
Proof. unfold peerPingTimeout. settled_steps. Qed.


Lemma settled_run_refl w : settled_run w w.
Proof. intros H. split; auto. now exists []. Qed.

Lemma settled_run_trans a b c :
  settled_run a b -> settled_run b c -> settled_run a c.
Proof.
  intros Hab Hbc Ha. destruct (Hab Ha) as (Hb & c1 & H1).
  destruct (Hbc Hb) as (Hc & c2 & H2).
  split; [exact Hc|]. exists (c1 ++ c2). now rewrite H1, H2, app_assoc.
Qed.

Lemma settled_run_step w w' : settled_step w w' -> settled_run w w'.
Proof. intros H Hs. destruct (H Hs) as (H1 & _ & H2). auto. Qed.

Lemma settled_deliver E ev w : kept settled_run (deliver E ev) w.
Proof.
  unfold kept, deliver. destruct (freed w); [apply settled_run_refl|].
  destruct ev.
  - destruct (acl_pending w && _); [|apply settled_run_refl].
    apply (settled_run_trans _ (with_acl_pending false w)).
    + apply settled_run_step, settled_step_same; reflexivity.
    + apply settled_run_step, settled_peerCheckAlwaysDirectDone.
  - destruct (acl_pending w && _); [|apply settled_run_refl].
    apply (settled_run_trans _ (with_acl_pending false w)).
    + apply settled_run_step, settled_step_same; reflexivity.
    + apply settled_run_step, settled_peerCheckNeverDirectDone.
  - destruct (pings_sent w); [|apply settled_run_refl].
    apply settled_run_step, settled_peerHandlePingReply.
  - destruct (ping_timer w); [|apply settled_run_refl].
    apply (settled_run_trans _ (with_ping_timer false w)).
    + intros Hs. split; [exact Hs | now exists []].
    + apply settled_run_step, settled_peerPingTimeout.
  - destruct (dns_pending w) as [|k]; [apply settled_run_refl|].
    apply (settled_run_trans _ (with_dns_pending k w)).
    + apply settled_run_step, settled_step_same; reflexivity.
    + apply settled_run_step, settled_peerSelectDnsResults.
  - apply settled_run_step, settled_step_same; reflexivity.
  - apply settled_run_step, settled_step_same; reflexivity.
Qed.

Lemma settled_run_events E evs : forall w, kept settled_run (run E evs) w.
Proof.
  induction evs as [|ev evs IH]; intros w; cbn [run].
  - apply settled_run_refl.
  - apply (kept_bind _ settled_run_trans); [apply settled_deliver|].
    intros a w' _. apply IH.
Qed.

(** C3, as amended.  An ICP_HIT from peer [p] of relation [t] is handed
    to the reply handler while the entry is [PING_WAITING] (and [direct]
    is decided and not [DIRECT_YES], as the aggregator asserts).  However
    many replies are still outstanding, the handler records [p] and [t]
    and runs the selection to its DNS stage at once: the entry ends
    settled, and the servers list receives first the aggregator's record,
    [CLOSEST_DIRECT] when the net-db direct check succeeds and otherwise
    [p] tagged [PARENT_HIT] or [SIBLING_HIT], then only records with
    codes the aggregator never gives out; no [FIRST_PARENT_MISS] or
    [CLOSEST_PARENT_MISS] record is among them.  Whatever is delivered
    afterwards, the entry stays settled and the aggregator's records are
    only consumed from the head: none is added or replaced. *)
Theorem hit_reply_finalizes (E : Env) (w : world) (e : StoreEntry)
    (p : peer) (t : peer_t) (h : icp_common_t) :
  freed w = false -> pings_sent w = true ->
  entry (ps w) = Some e -> ping_status e = PING_WAITING ->
  direct (ps w) <> DIRECT_UNKNOWN -> direct (ps w) <> DIRECT_YES ->
  opcode h = ICP_HIT ->
  let w' := world_of (deliver E (PingReply p t (IcpData h)) w) in
  hit (ps w') = Some p /\ hit_type (ps w') = t
  /\ settled (ps w')
  /\ (exists more,
        servers (ps w') = servers (ps w) ++ hit_record E (ps w) p t :: more
        /\ Forall (fun f => reply_code (code f) = false) more
        /\ Forall (fun f => code f <> FIRST_PARENT_MISS
                            /\ code f <> CLOSEST_PARENT_MISS)
             (hit_record E (ps w) p t :: more))
  /\ (forall evs,
        settled (ps (world_of (run E evs w')))
        /\ exists consumed,
             reply_records (servers (ps w')) =
             consumed ++ reply_records (servers (ps (world_of (run E evs w'))))).
Proof.
  intros Hf Hs He Hst Hu Hy Hop w'.
  assert (Hw : w' = world_of (deliver E (PingReply p t (IcpData h)) w))
    by reflexivity.
  rewrite (hit_reply_runs E w e p t h Hf Hs He Hst Hu Hy Hop) in Hw.
  set (s1 := store_ping_status PING_DONE
               (set_servers (servers (ps w) ++ [hit_record E (ps w) p t])
                  (note_hit p t (count_reply (ps w))))) in Hw.
  destruct (dns_frame_peerSelectDnsPaths E
              (with_ps (select_by_direct E s1) w)) as (Hsv & Hh & Ht & Hset).
  rewrite <- Hw in Hsv, Hh, Ht, Hset. simpl in Hsv, Hh, Ht, Hset.
  destruct (plain_ext_select_by_direct E s1)
    as (Pe & Ph & Pt & _ & _ & more & Psv & Pm).
  assert (Hs1 : settled s1) by apply settled_store_done.
  assert (Hsel : settled (select_by_direct E s1))
    by (unfold settled in *; now rewrite Pe).
  destruct (Hset Hsel) as [Hset' _].
  assert (Hs1e : entry (ps w) = Some e -> servers s1 =
            servers (ps w) ++ [hit_record E (ps w) p t]
            /\ hit s1 = Some p /\ hit_type s1 = t).
  { intros H. subst s1. unfold store_ping_status. simpl. rewrite H. simpl. auto. }
  destruct (Hs1e He) as (S1 & S2 & S3).
  repeat split.
  - congruence.
  - congruence.
  - exact Hset'.
  - exists more. rewrite Hsv, Psv, S1, <- app_assoc.
    repeat split; auto. constructor.
    + unfold hit_record. destruct (peerCheckNetdbDirect E (ps w)); simpl;
        [|destruct (is_parent t)]; split; discriminate.
    + eapply Forall_impl; [|exact Pm]. intros f Hpl. simpl in Hpl.
      split; intros Hc; rewrite Hc in Hpl; discriminate.
  - destruct (settled_run_events E evs w' Hset') as [H1 _]. exact H1.
  - destruct (settled_run_events E evs w' Hset') as [_ H2]. exact H2.
Qed.

Lemma hit_reply_finalizes_witness :
  hit (ps (world_of (deliver (site 10 1 0 false None)
                       (PingReply P2 PEER_PARENT (IcpData (mkIcp ICP_HIT 0 0)))
                       (pinged_start (site 10 1 0 false None))))) = Some P2
  /\ settled (ps (world_of (deliver (site 10 1 0 false None)
                       (PingReply P2 PEER_PARENT (IcpData (mkIcp ICP_HIT 0 0)))
                       (pinged_start (site 10 1 0 false None))))).
Proof.
  destruct (hit_reply_finalizes (site 10 1 0 false None)
              (pinged_start (site 10 1 0 false None))
              (mkEntry "http://origin.example/" PING_WAITING 0)
              P2 PEER_PARENT (mkIcp ICP_HIT 0 0)
              eq_refl eq_refl eq_refl eq_refl
              ltac:(discriminate) ltac:(discriminate) eq_refl)
    as (H1 & _ & H3 & _).
  split; [exact H1 | exact H3].
Defined.

(** C3, as stated, fails: P2's HIT is recorded and the selection is
    finalized at once, but by then P1's MISS has recorded a closest parent
    50 ms away and the origin is 40 ms away, so the net-db direct check
    succeeds and the aggregator appends [CLOSEST_DIRECT]; no record for P2
    and no [PARENT_HIT] or [SIBLING_HIT] record is appended. *)
Lemma hit_preempted_by_netdb_counterexample :
  hit (ps preempted_hit_world) = Some P2
  /\ hit_type (ps preempted_hit_world) = PEER_PARENT
  /\ servers (ps preempted_hit_world)
     = [mkFwd None CLOSEST_DIRECT; mkFwd None HIER_DIRECT]
  /\ trace preempted_hit_world
     = [RequestLock; EntryLock; UdpPing; EventAdd 2000; NetdbUpdatePeer P1 50 0;
        DnsLookup "origin.example"].
Proof. by_running. Qed.

(** A reply handed to the handler after the finalization is not
    filtered by this file: P1's MISS after P2's HIT changes nothing but
    the count, and P3's, the last one expected, re-enters the selection,
    which appends the direct record a second time and issues a second
    lookup. *)
Example late_replies_reach_the_handler :
  servers (ps (world_of (run (site 10 1 0 false None)
                           [PingReply P1 PEER_PARENT icp_miss] hit_world)))
    = servers (ps hit_world)
  /\ servers (ps (world_of (run (site 10 1 0 false None)
                              [PingReply P1 PEER_PARENT icp_miss;
                               PingReply P3 PEER_PARENT icp_miss] hit_world)))
    = servers (ps hit_world) ++ [mkFwd None HIER_DIRECT]
  /\ dns_pending (world_of (run (site 10 1 0 false None)
                              [PingReply P1 PEER_PARENT icp_miss;
                               PingReply P3 PEER_PARENT icp_miss] hit_world))
    = 2%nat.
Proof. by_running. Qed.

(** ** The ping timer *)

(** When a HIT finalizes the aggregator, the timer is left as it was. *)
Lemma hit_reply_keeps_timer E w e p t h :
  freed w = false -> pings_sent w = true ->
  entry (ps w) = Some e -> ping_status e = PING_WAITING ->
  direct (ps w) <> DIRECT_UNKNOWN -> direct (ps w) <> DIRECT_YES ->
  opcode h = ICP_HIT ->
  ping_timer (world_of (deliver E (PingReply p t (IcpData h)) w))
  = ping_timer w.
Proof.
  intros Hf Hs He Hst Hu Hy Hop.
  rewrite (hit_reply_runs E w e p t h Hf Hs He Hst Hu Hy Hop).
  set (s1 := store_ping_status PING_DONE _).
  destruct (dns_frame_peerSelectDnsPaths E
              (with_ps (select_by_direct E s1) w)) as (_ & _ & _ & Hset).
  destruct (plain_ext_select_by_direct E s1) as (Pe & _).
  assert (Hsel : settled (select_by_direct E s1)).
  { unfold settled. rewrite Pe. apply settled_store_done. }
  destruct (Hset Hsel) as [_ Ht]. exact Ht.
Qed.

(** C8, on selections the code can receive.  Three parents are pinged
    and the timer is queued; P2 answers HIT and the aggregator finalizes
    (the entry is [PING_DONE], the lookup for P2 is out).  [eventDelete]
    was not called: the timer is still queued.  When it then fires before
    the DNS answer, [peerPingTimeout] runs: it counts a timeout, sets
    [timedout], and re-enters the selection, which appends the direct
    record a second time and issues a second lookup for the same record.
    The same holds when the aggregator finalizes because all three
    replies came in. *)
Theorem ping_timer_not_cancelled :
  trace hit_world = [RequestLock; EntryLock; UdpPing; EventAdd 2000; DnsLookup "p2.example"]
  /\ settled (ps hit_world)
  /\ ping_timer hit_world = true
  /\ freed hit_world = false
  /\ (exists w,
        run (site 10 1 0 false None) [PingTimeout] hit_world = Ret tt w
        /\ PeerStats_timeouts w = 1
        /\ timedout (ping (ps w)) = 1
        /\ servers (ps w) = servers (ps hit_world) ++ [mkFwd None HIER_DIRECT]
        /\ trace w = trace hit_world ++ [DnsLookup "p2.example"])
  /\ trace quorum_world
     = [RequestLock; EntryLock; UdpPing; EventAdd 2000; DnsLookup "p1.example"]
  /\ ping_timer quorum_world = true
  /\ (exists w,
        run (site 10 1 0 false None) [PingTimeout] quorum_world = Ret tt w
        /\ PeerStats_timeouts w = 1
        /\ trace w = trace quorum_world ++ [DnsLookup "p1.example"]).
Proof.
  split_all; try (vm_compute; reflexivity).
  - eexists. by_running.
  - eexists. by_running.
Qed.

(** ** Every selection *)

Lemma cap_step_refl E w : cap_step E w w.
Proof. intros H; exact H. Qed.

Lemma cap_step_trans E a b c : cap_step E a b -> cap_step E b c -> cap_step E a c.
Proof. unfold cap_step. auto. Qed.

Lemma cap_step_same E w w' : paths (ps w') = paths (ps w) -> cap_step E w w'.
Proof. unfold cap_step, within_cap. intros ->. auto. Qed.

Lemma cap_step_frame E w w' : frame w w' -> cap_step E w w'.
Proof. intros (_ & _ & H & _). now apply cap_step_same. Qed.

Ltac cap_pure :=
  apply cap_step_same; simpl; unfold store_ping_status;
  repeat match goal with
         | |- context[match ?x with _ => _ end] => destruct x eqn:?; simpl
         end; reflexivity.

Ltac cstep E := kstep (cap_step_refl E) (cap_step_trans E) ltac:(solve [cap_pure]).
Create HintDb cap_steps discriminated.
Ltac cap_steps E := repeat (cstep E); auto with cap_steps.

Lemma cap_peerSelectFoo E w : kept (cap_step E) (peerSelectFoo E) w.
Proof. apply cap_step_frame, frame_peerSelectFoo. Qed.
#[local] Hint Resolve cap_peerSelectFoo : cap_steps.

Lemma cap_peerSelectDnsPaths E w : kept (cap_step E) (peerSelectDnsPaths E) w.
Proof. apply cap_step_frame, frame_peerSelectDnsPaths. Qed.
#[local] Hint Resolve cap_peerSelectDnsPaths : cap_steps.

Lemma cap_peerSelectStateFree E w : kept (cap_step E) peerSelectStateFree w.
Proof. apply cap_step_frame, frame_peerSelectStateFree. Qed.
#[local] Hint Resolve cap_peerSelectStateFree : cap_steps.

Lemma cap_deref_entry E l w : kept (cap_step E) (deref_entry l) w.
Proof. apply cap_step_frame, frame_deref_entry. Qed.
#[local] Hint Resolve cap_deref_entry : cap_steps.

Lemma cap_debugs E a b w : kept (cap_step E) (debugs_entry_url E a b) w.
Proof. apply cap_step_frame, frame_debugs_entry_url. Qed.
#[local] Hint Resolve cap_debugs : cap_steps.

Lemma cap_first_miss E p l w : kept (cap_step E) (first_miss p l) w.
Proof. unfold first_miss. cbv zeta. cap_steps E. Qed.
#[local] Hint Resolve cap_first_miss : cap_steps.

Lemma cap_peerHandlePingReply E p t d w :
  kept (cap_step E) (peerHandlePingReply E p t d) w.
Proof.
  unfold peerHandlePingReply, peerHandleIcpReply, peerHandleHtcpReply,
    peerIcpParentMiss, peerHtcpParentMiss, after_reply.
  cbv zeta. cap_steps E.
Qed.

Lemma cap_peerCheckAlwaysDirectDone E a w :
  kept (cap_step E) (peerCheckAlwaysDirectDone E a) w.
Proof. unfold peerCheckAlwaysDirectDone. cap_steps E. Qed.

Lemma cap_peerCheckNeverDirectDone E a w :
  kept (cap_step E) (peerCheckNeverDirectDone E a) w.
Proof. unfold peerCheckNeverDirectDone. cap_steps E. Qed.

Lemma cap_peerPingTimeout E w : kept (cap_step E) (peerPingTimeout E) w.
Proof. unfold peerPingTimeout. cap_steps E. Qed.

(** The address filter of the loop leaves the world as it is. *)
Lemma dns_loop_cap E ia fs k :
  forall n ip w, kept (cap_step E) (dns_loop E ia fs k n ip) w.
Proof.
  induction k as [|k IH]; intros n ip w; cbn [dns_loop].
  - apply cap_step_refl.
  - unfold kept, cap_step. intros Hw.
    unfold bind at 1, get_ps at 1.
    destruct (Z.of_nat (length (paths (ps w)))
              >=? to_unsigned (forward_max_tries E)) eqn:Hc; [exact Hw|].
    rewrite Z.geb_leb in Hc. apply Z.leb_gt in Hc.
    assert (Hpush : forall a f,
      within_cap E (ps (world_of
        ((modify_ps (fun s => set_paths (paths s ++ [conn_of E (request (ps w)) f a]) s) ;;
          dns_loop E ia fs k (n + 1) ((if ip >=? count ia then 0 else ip) + 1)) w)))).
    { intros a f. unfold bind, modify_ps. apply IH.
      unfold within_cap. simpl. rewrite length_app. simpl. lia. }
    unfold in_addrs_at.
    destruct (spoof_client_ip (request (ps w))).
    + destruct fs as [f|]; [|exact Hw].
      destruct (negb match _peer f with Some p => no_tproxy p | None => false end).
      * unfold bind at 1. unfold bind at 1.
        destruct (nth_error (in_addrs ia) (Z.to_nat n)) as [a|]; [|exact Hw].
        unfold ret at 1.
        destruct (negb (Bool.eqb (IsIPv4 a) (IsIPv4 (client_addr (request (ps w)))))).
        -- unfold ret. apply IH, Hw.
        -- unfold ret at 1. unfold bind at 1. unfold ret at 1. apply Hpush.
      * unfold bind at 1, ret at 1. unfold bind at 1.
        destruct (nth_error (in_addrs ia) (Z.to_nat n)) as [a|]; [|exact Hw].
        unfold ret at 1. apply Hpush.
    + unfold bind at 1, ret at 1. unfold bind at 1.
      destruct (nth_error (in_addrs ia) (Z.to_nat n)) as [a|]; [|exact Hw].
      unfold ret at 1. destruct fs as [f|]; [|exact Hw]. apply Hpush.
Qed.
#[local] Hint Resolve dns_loop_cap : cap_steps.

Lemma cap_peerSelectDnsResults E ia w :
  kept (cap_step E) (peerSelectDnsResults E ia) w.
Proof. unfold peerSelectDnsResults. cap_steps E. Qed.

Lemma cap_deliver E ev w : kept (cap_step E) (deliver E ev) w.
Proof.
  unfold kept, deliver. destruct (freed w); [apply cap_step_refl|].
  destruct ev.
  - destruct (acl_pending w && _); [|apply cap_step_refl].
    apply (cap_peerCheckAlwaysDirectDone E answer (with_acl_pending false w)).
  - destruct (acl_pending w && _); [|apply cap_step_refl].
    apply (cap_peerCheckNeverDirectDone E answer (with_acl_pending false w)).
  - destruct (pings_sent w); [|apply cap_step_refl].
    apply cap_peerHandlePingReply.
  - destruct (ping_timer w); [|apply cap_step_refl].
    apply (cap_peerPingTimeout E (with_ping_timer false w)).
  - destruct (dns_pending w) as [|k]; [apply cap_step_refl|].
    apply (cap_peerSelectDnsResults E ia (with_dns_pending k w)).
  - apply cap_step_same; reflexivity.
  - apply cap_step_same; reflexivity.
Qed.

Lemma cap_run E evs : forall w, kept (cap_step E) (run E evs) w.
Proof.
  induction evs as [|ev evs IH]; intros w; cbn [run].
  - apply cap_step_refl.
  - apply (kept_bind _ (cap_step_trans E)); [apply cap_deliver|].
    intros a w' _. apply IH.
Qed.

(** ** The callback *)

Lemma callbacks_app t1 t2 : callbacks (t1 ++ t2) = (callbacks t1 + callbacks t2)%nat.
Proof.
  induction t1 as [|e t1 IH]; simpl; [reflexivity|].
  destruct e; simpl; rewrite IH; reflexivity.
Qed.

Lemma credit_step_refl w : credit_step w w.
Proof. unfold credit_step. lia. Qed.

Lemma credit_step_trans a b c :
  credit_step a b -> credit_step b c -> credit_step a c.
Proof. unfold credit_step. lia. Qed.

Lemma credit_step_same w w' :
  callbacks (trace w') = callbacks (trace w) ->
  callback (ps w') = callback (ps w) -> credit_step w w'.
Proof. unfold credit_step, credit. intros -> ->. lia. Qed.

Ltac credit_pure :=
  apply credit_step_same; simpl; unfold store_ping_status;
  repeat match goal with
         | |- context[match ?x with _ => _ end] => destruct x eqn:?; simpl
         end;
  rewrite ?callbacks_app; simpl; try reflexivity; lia.

Ltac bstep := kstep credit_step_refl credit_step_trans ltac:(solve [credit_pure]).
Create HintDb credit_steps discriminated.
Ltac credit_steps := repeat bstep; auto with credit_steps.

Lemma credit_cbdataFree w : kept credit_step cbdataFree w.
Proof. unfold cbdataFree. credit_steps. Qed.
#[local] Hint Resolve credit_cbdataFree : credit_steps.

Lemma credit_eventAdd n w : kept credit_step (eventAdd n) w.
Proof. unfold eventAdd. credit_steps. Qed.
#[local] Hint Resolve credit_eventAdd : credit_steps.

Lemma credit_eventDelete w : kept credit_step eventDelete w.
Proof. unfold eventDelete. credit_steps. Qed.
#[local] Hint Resolve credit_eventDelete : credit_steps.

Lemma credit_deref_entry l w : kept credit_step (deref_entry l) w.
Proof. unfold deref_entry. credit_steps. Qed.
#[local] Hint Resolve credit_deref_entry : credit_steps.

Lemma credit_debugs E a b w : kept credit_step (debugs_entry_url E a b) w.
Proof. unfold debugs_entry_url. credit_steps. Qed.
#[local] Hint Resolve credit_debugs : credit_steps.

Lemma credit_nbgethostbyname h w : kept credit_step (ipcache_nbgethostbyname h) w.
Proof. unfold ipcache_nbgethostbyname. credit_steps. Qed.
#[local] Hint Resolve credit_nbgethostbyname : credit_steps.

Lemma credit_nonBlockingCheck l w : kept credit_step (nonBlockingCheck l) w.
Proof. unfold nonBlockingCheck. credit_steps. Qed.
#[local] Hint Resolve credit_nonBlockingCheck : credit_steps.

Lemma credit_peerSelectStateFree w : kept credit_step peerSelectStateFree w.
Proof. unfold peerSelectStateFree. credit_steps. Qed.
#[local] Hint Resolve credit_peerSelectStateFree : credit_steps.

(** The debug statements change nothing in the world, fault or not. *)
Lemma debugs_entry_url_world E a b w :
  world_of (debugs_entry_url E a b w) = w.
Proof.
  unfold debugs_entry_url, deref_entry, bind, get_ps, ret, raise.
  destruct (debugs_on E 44 a); [|reflexivity].
  destruct (entry (ps w)); reflexivity.
Qed.

Lemma credit_peerSelectDnsPaths E w : kept credit_step (peerSelectDnsPaths E) w.
Proof.
  unfold peerSelectDnsPaths. apply kept_get_ps.
  destruct (match servers (ps w) with
            | f :: _ =>
                if Z.of_nat (length (paths (ps w)))
                   <? to_unsigned (forward_max_tries E)
                then Some f else None
            | [] => None
            end) as [f|].
  { credit_steps. }
  cbv zeta.
  unfold kept. unfold bind at 1, modify_ps at 1.
  set (w1 := with_ps (set_callback false (ps w)) w).
  assert (H1 : (credit w1 + (if callback (ps w) then 1 else 0) <= credit w)%nat
               /\ callback (ps w1) = false).
  { subst w1. unfold credit. simpl. split; [lia | reflexivity]. }
  destruct H1 as [H1 H1c].
  set (dbg := if Z.of_nat (length (paths (ps w))) <? 1
              then debugs_entry_url E (DBG_IMPORTANT E) 213
              else debugs_entry_url E 2 218).
  assert (Hd : world_of (dbg w1) = w1)
    by (subst dbg; destruct (_ <? 1); apply debugs_entry_url_world).
  unfold bind at 1. destruct (dbg w1) as [[] w2|f w2]; simpl in Hd; subst w2.
  2:{ simpl. unfold credit_step. destruct (callback (ps w)); lia. }
  unfold bind at 1, get_time at 1. unfold bind at 1, modify_ps at 1.
  unfold bind at 1. unfold bind at 1.
  unfold cbdataReferenceValidDone at 1. unfold bind at 1.
  unfold cbdataReferenceValid at 1. unfold bind at 1, modify_ps at 1.
  unfold ret at 1. cbv iota beta.
  set (w3 := with_ps (set_callback_data false _) _).
  assert (H3 : credit w3 = credit w1 /\ callback (ps w3) = false)
    by (subst w3; unfold credit; simpl; rewrite ?H1c; auto).
  destruct H3 as [H3 H3c].
  destruct (cb_valid _); unfold when.
  - destruct (callback (ps w)).
    + unfold bind at 1. unfold bind at 1, get_ps at 1, emit at 1.
      set (w4 := with_trace _ w3).
      pose proof (credit_peerSelectStateFree w4) as H4.
      unfold kept, credit_step in *.
      assert (credit w4 = S (credit w3)).
      { subst w4. unfold credit. simpl. rewrite callbacks_app. simpl. lia. }
      lia.
    + unfold bind at 1, raise at 1. simpl. unfold credit_step. lia.
  - unfold bind at 1, ret at 1.
    pose proof (credit_peerSelectStateFree w3) as H4.
    unfold kept, credit_step in *. lia.
Qed.
#[local] Hint Resolve credit_peerSelectDnsPaths : credit_steps.

Lemma credit_peerSelectIcpPing E rq d en w :
  kept credit_step (peerSelectIcpPing E rq d en) w.
Proof. unfold peerSelectIcpPing. credit_steps. Qed.
#[local] Hint Resolve credit_peerSelectIcpPing : credit_steps.

Lemma credit_neighbor_done pc w : kept credit_step (neighbor_done pc) w.
Proof. unfold neighbor_done. credit_steps. Qed.
#[local] Hint Resolve credit_neighbor_done : credit_steps.

Lemma credit_peerGetSomeNeighbor E w : kept credit_step (peerGetSomeNeighbor E) w.
Proof. unfold peerGetSomeNeighbor. credit_steps. Qed.
#[local] Hint Resolve credit_peerGetSomeNeighbor : credit_steps.

Lemma credit_peerGetSomeNeighborReplies E w :
  kept credit_step (peerGetSomeNeighborReplies E) w.
Proof. unfold peerGetSomeNeighborReplies. credit_steps. Qed.
#[local] Hint Resolve credit_peerGetSomeNeighborReplies : credit_steps.

Lemma callback_store_ping_status st s :
  callback (store_ping_status st s) = callback s.
Proof. unfold store_ping_status. destruct (entry s); reflexivity. Qed.

Lemma callback_peerSelectPinned E s : callback (peerSelectPinned E s) = callback s.
Proof.
  unfold peerSelectPinned.
  repeat match goal with
         | |- context[match ?x with _ => _ end] => destruct x
         end; rewrite ?callback_store_ping_status; reflexivity.
Qed.

Lemma callback_peerGetSomeDirect s : callback (peerGetSomeDirect s) = callback s.
Proof.
  unfold peerGetSomeDirect.
  repeat match goal with
         | |- context[match ?x with _ => _ end] => destruct x
         end; reflexivity.
Qed.

Lemma callback_peerGetSomeParent E s : callback (peerGetSomeParent E s) = callback s.
Proof.
  unfold peerGetSomeParent.
  destruct (direct_eqb (direct s) DIRECT_YES); [reflexivity|].
  destruct (some_parent E (request s)) as [[p c]|]; reflexivity.
Qed.

Lemma callback_peerGetAllParents E s : callback (peerGetAllParents E s) = callback s.
Proof.
  unfold peerGetAllParents. cbv zeta. destruct (getDefaultParent E _); reflexivity.
Qed.

Lemma callback_select_by_direct E s : callback (select_by_direct E s) = callback s.
Proof.
  unfold select_by_direct. cbv zeta.
  destruct (direct s), (prefer_direct E); simpl;
    repeat match goal with
           | |- context[if ?x then _ else _] => destruct x
           end;
    rewrite ?callback_peerGetAllParents, ?callback_peerGetSomeDirect,
      ?callback_peerGetSomeParent, ?callback_peerGetSomeDirect; reflexivity.
Qed.

Lemma credit_modify_pinned E w : kept credit_step (modify_ps (peerSelectPinned E)) w.
Proof. apply credit_step_same; simpl; [reflexivity | apply callback_peerSelectPinned]. Qed.

Lemma credit_modify_select E w : kept credit_step (modify_ps (select_by_direct E)) w.
Proof. apply credit_step_same; simpl; [reflexivity | apply callback_select_by_direct]. Qed.
#[local] Hint Resolve credit_modify_pinned credit_modify_select : credit_steps.

Lemma credit_peerSelectFoo_neighbors E w :
  kept credit_step (peerSelectFoo_neighbors E) w.
Proof. unfold peerSelectFoo_neighbors. credit_steps. Qed.
#[local] Hint Resolve credit_peerSelectFoo_neighbors : credit_steps.

Lemma credit_peerSelectFoo E w : kept credit_step (peerSelectFoo E) w.
Proof. unfold peerSelectFoo. credit_steps. Qed.
#[local] Hint Resolve credit_peerSelectFoo : credit_steps.

Lemma credit_dns_loop E ia fs k :
  forall n ip w, kept credit_step (dns_loop E ia fs k n ip) w.
Proof.
  induction k as [|k IH]; intros n ip w; cbn [dns_loop].
  - apply credit_step_refl.
  - unfold in_addrs_at. credit_steps.
Qed.
#[local] Hint Resolve credit_dns_loop : credit_steps.

Lemma credit_peerSelectDnsResults E ia w :
  kept credit_step (peerSelectDnsResults E ia) w.
Proof. unfold peerSelectDnsResults. credit_steps. Qed.

Lemma credit_peerHandlePingReply E p t d w :
  kept credit_step (peerHandlePingReply E p t d) w.
Proof.
  unfold peerHandlePingReply, peerHandleIcpReply, peerHandleHtcpReply,
    peerIcpParentMiss, peerHtcpParentMiss, first_miss, after_reply.
  cbv zeta. credit_steps.
Qed.

Lemma credit_peerCheckAlwaysDirectDone E a w :
  kept credit_step (peerCheckAlwaysDirectDone E a) w.
Proof. unfold peerCheckAlwaysDirectDone. credit_steps. Qed.

Lemma credit_peerCheckNeverDirectDone E a w :
  kept credit_step (peerCheckNeverDirectDone E a) w.
Proof. unfold peerCheckNeverDirectDone. credit_steps. Qed.

Lemma credit_peerPingTimeout E w : kept credit_step (peerPingTimeout E) w.
Proof. unfold peerPingTimeout. credit_steps. Qed.

Lemma credit_deliver E ev w : kept credit_step (deliver E ev) w.
Proof.
  unfold kept, deliver. destruct (freed w); [apply credit_step_refl|].
  destruct ev.
  - destruct (acl_pending w && _); [|apply credit_step_refl].
    apply (credit_peerCheckAlwaysDirectDone E answer (with_acl_pending false w)).
  - destruct (acl_pending w && _); [|apply credit_step_refl].
    apply (credit_peerCheckNeverDirectDone E answer (with_acl_pending false w)).
  - destruct (pings_sent w); [|apply credit_step_refl].
    apply credit_peerHandlePingReply.
  - destruct (ping_timer w); [|apply credit_step_refl].
    apply (credit_peerPingTimeout E (with_ping_timer false w)).
  - destruct (dns_pending w) as [|k]; [apply credit_step_refl|].
    apply (credit_peerSelectDnsResults E ia (with_dns_pending k w)).
  - apply credit_step_same; reflexivity.
  - apply credit_step_same; reflexivity.
Qed.

Lemma credit_run E evs : forall w, kept credit_step (run E evs) w.
Proof.
  induction evs as [|ev evs IH]; intros w; cbn [run].
  - apply credit_step_refl.
  - apply (kept_bind _ credit_step_trans); [apply credit_deliver|].
    intros a w' _. apply IH.
Qed.

(** X1.  Over a whole selection, whatever the events: the callback is invoked
    at most once, and a paths list that starts within the cap stays within
    it. *)
Theorem selection_safe (E : Env) (pths : list Connection) (rq : HttpRequest)
    (en : option StoreEntry) (now : Z) (evs : list event) :
  (callbacks (trace (world_of (selection E pths rq en now evs))) <= 1)%nat
  /\ (Z.of_nat (length pths) <= to_unsigned (forward_max_tries E) ->
      within_cap E (ps (world_of (selection E pths rq en now evs)))).
Proof.
  unfold selection, peerSelect.
  set (w0 := new_world pths rq en now).
  assert (Hstart : credit_step w0
            (world_of ((emit RequestLock ;; when (is_some en) (emit EntryLock) ;;
                        peerSelectFoo E) w0))
          /\ cap_step E w0
            (world_of ((emit RequestLock ;; when (is_some en) (emit EntryLock) ;;
                        peerSelectFoo E) w0))).
  { split.
    - change (kept credit_step (emit RequestLock ;; when (is_some en) (emit EntryLock) ;;
                                peerSelectFoo E) w0). credit_steps.
    - change (kept (cap_step E) (emit RequestLock ;; when (is_some en) (emit EntryLock) ;;
                                 peerSelectFoo E) w0). cap_steps E. }
  destruct Hstart as [Hc Hp].
  destruct ((emit RequestLock ;; when (is_some en) (emit EntryLock) ;;
             peerSelectFoo E) w0) as [[] w1|f w1]; simpl in Hc, Hp.
  - pose proof (credit_run E evs w1) as Hc2. pose proof (cap_run E evs w1) as Hp2.
    unfold kept, credit_step, cap_step in *. split.
    + assert (credit w0 = 1%nat) by reflexivity.
      unfold credit in Hc2 at 1. lia.
    + intros H. apply Hp2, Hp. exact H.
  - simpl. unfold credit_step, cap_step in *. split.
    + assert (credit w0 = 1%nat) by reflexivity. unfold credit in Hc at 1. lia.
    + intros H. apply Hp. exact H.
Qed.

(** ** The DNS stage runs to the callback *)

Lemma run_freed E evs w : freed w = true -> run E evs w = Ret tt w.
Proof.
  intros Hf. induction evs as [|ev evs IH]; [reflexivity|].
  cbn [run]. unfold bind, deliver. rewrite Hf. exact IH.
Qed.

Lemma with_ps_set_paths_id w : with_ps (set_paths (paths (ps w)) (ps w)) w = w.
Proof. destruct w as [s ? ? ? ? ? ? ? ? ? ?]. destruct s. reflexivity. Qed.

(** With a record at the head and the addresses in range, the loop
    returns, and changes [paths] only. *)
Lemma dns_loop_returns E ia f k :
  forall n ip w,
    (Z.to_nat n + k <= length (in_addrs ia))%nat -> 0 <= n ->
    exists p', dns_loop E ia (Some f) k n ip w
               = Ret tt (with_ps (set_paths p' (ps w)) w).
Proof.
  induction k as [|k IH]; intros n ip w Hn Hn0; cbn [dns_loop].
  - exists (paths (ps w)). now rewrite with_ps_set_paths_id.
  - unfold bind at 1, get_ps at 1.
    destruct (Z.of_nat (length (paths (ps w)))
              >=? to_unsigned (forward_max_tries E)).
    { exists (paths (ps w)). now rewrite with_ps_set_paths_id. }
    assert (Hnth : exists a, nth_error (in_addrs ia) (Z.to_nat n) = Some a).
    { destruct (nth_error (in_addrs ia) (Z.to_nat n)) eqn:H; [eauto|].
      apply nth_error_None in H. lia. }
    destruct Hnth as [a Ha].
    assert (Hnext : (Z.to_nat (n + 1) + k <= length (in_addrs ia))%nat) by lia.
    assert (Hpush : forall c,
      exists p', (modify_ps (fun s => set_paths (paths s ++ [c]) s) ;;
                  dns_loop E ia (Some f) k (n + 1)
                    ((if ip >=? count ia then 0 else ip) + 1)) w
                 = Ret tt (with_ps (set_paths p' (ps w)) w)).
    { intros c. unfold bind, modify_ps.
      destruct (IH (n + 1) ((if ip >=? count ia then 0 else ip) + 1)
                  (with_ps (set_paths (paths (ps w) ++ [c]) (ps w)) w)
                  Hnext ltac:(lia)) as [p' Hp'].
      exists p'. rewrite Hp'. reflexivity. }
    unfold in_addrs_at. rewrite Ha.
    destruct (spoof_client_ip (request (ps w))).
    + destruct (negb match _peer f with Some p => no_tproxy p | None => false end).
      * unfold bind at 1. unfold bind at 1. unfold ret at 1. unfold ret at 1.
        destruct (negb (Bool.eqb (IsIPv4 a) (IsIPv4 (client_addr (request (ps w)))))).
        -- apply IH; [exact Hnext | lia].
        -- unfold bind at 1, ret at 1. apply Hpush.
      * unfold bind at 1, ret at 1. unfold bind at 1, ret at 1. apply Hpush.
    + unfold bind at 1, ret at 1. unfold bind at 1, ret at 1. apply Hpush.
Qed.

(** Released it is, once [peerSelectStateFree] is entered: the entry is
    set to [PING_DONE] before the assertion looks at it. *)
Lemma peerSelectStateFree_frees w :
  exists w', peerSelectStateFree w = Ret tt w' /\ freed w' = true
             /\ callbacks (trace w') = callbacks (trace w)
             /\ cb_valid w' = cb_valid w.
Proof.
  unfold peerSelectStateFree, cbdataFree, eventDelete, when, assert.
  unfold bind, get_ps, modify_ps, emit, ret, raise. simpl.
  destruct (entry (ps w)) as [e|] eqn:He; simpl.
  - destruct (ping_status_eqb (ping_status e) PING_WAITING); simpl;
      unfold store_ping_status; simpl; rewrite He; simpl;
      destruct (is_some (acl_checklist (ps w))); simpl;
      eexists; (split; [reflexivity|]); simpl;
      rewrite ?callbacks_app; simpl; repeat split; auto; lia.
  - rewrite ?He. destruct (is_some (acl_checklist (ps w))); simpl;
      rewrite ?He; eexists; (split; [reflexivity|]); simpl;
      rewrite ?callbacks_app; simpl; repeat split; auto; lia.
Qed.

(** The end of [peerSelectDnsPaths] when there is nothing more to look
    up: with an entry, the callback is invoked if the caller's reference
    is valid, and the context is released either way. *)
Lemma dns_paths_completes E w :
  more_lookups E (ps w) = false -> callback (ps w) = true ->
  entry (ps w) <> None ->
  exists w',
    peerSelectDnsPaths E w = Ret tt w' /\ freed w' = true
    /\ callbacks (trace w') =
       (callbacks (trace w) + if cb_valid w then 1 else 0)%nat
    /\ cb_valid w' = cb_valid w.
Proof.
  intros Hm Hcb He. unfold more_lookups in Hm.
  unfold peerSelectDnsPaths. unfold bind at 1, get_ps at 1.
  assert (Hfs : match servers (ps w) with
                | f :: _ =>
                    if Z.of_nat (length (paths (ps w)))
                       <? to_unsigned (forward_max_tries E)
                    then Some f else None
                | [] => None
                end = None)
    by (destruct (servers (ps w)); [reflexivity | now rewrite Hm]).
  rewrite Hfs. cbv zeta. rewrite Hcb.
  unfold bind at 1, modify_ps at 1.
  set (w1 := with_ps (set_callback false (ps w)) w).
  assert (Hdbg : forall a b, debugs_entry_url E a b w1 = Ret tt w1).
  { intros a b. unfold debugs_entry_url. destruct (debugs_on E 44 a); [|reflexivity].
    unfold bind, deref_entry, bind, get_ps. subst w1. simpl.
    destruct (entry (ps w)); [reflexivity | congruence]. }
  unfold bind at 1.
  replace ((if Z.of_nat (length (paths (ps w))) <? 1
            then debugs_entry_url E (DBG_IMPORTANT E) 213
            else debugs_entry_url E 2 218) w1) with (Ret tt w1)
    by (destruct (_ <? 1); now rewrite Hdbg).
  unfold bind at 1, get_time at 1. unfold bind at 1, modify_ps at 1.
  unfold bind at 1. unfold bind at 1.
  unfold cbdataReferenceValidDone at 1. unfold bind at 1.
  unfold cbdataReferenceValid at 1. unfold bind at 1, modify_ps at 1.
  unfold ret at 1. cbv iota beta.
  set (w3 := with_ps (set_callback_data false _) _).
  assert (H3 : callbacks (trace w3) = callbacks (trace w) /\ cb_valid w3 = cb_valid w)
    by (subst w3 w1; simpl; auto).
  destruct H3 as [H3 H3v].
  change (cb_valid (with_hier_ping
            (ping (ps (with_ps (set_ping (set_stop (current_time w1) (ping (ps w1))) (ps w1)) w1)))
            (with_ps (set_ping (set_stop (current_time w1) (ping (ps w1))) (ps w1)) w1)))
    with (cb_valid w).
  destruct (cb_valid w) eqn:Hv; unfold when.
  - unfold bind at 1. unfold bind at 1, get_ps at 1, emit at 1.
    set (w4 := with_trace _ w3).
    destruct (peerSelectStateFree_frees w4) as (w' & Hr & Hf & Hc & Hcv).
    exists w'. rewrite Hr. repeat split; auto.
    + rewrite Hc. subst w4. simpl. rewrite callbacks_app. simpl. lia.
    + rewrite Hcv. subst w4. simpl. exact H3v.
  - unfold bind at 1, ret at 1.
    destruct (peerSelectStateFree_frees w3) as (w' & Hr & Hf & Hc & Hcv).
    exists w'. rewrite Hr. repeat split; auto; [lia | congruence].
Qed.

Lemma dns_paths_next_lookup E w :
  more_lookups E (ps w) = true -> entry (ps w) <> None ->
  exists h,
    peerSelectDnsPaths E w =
    Ret tt (with_dns_pending (S (dns_pending w))
              (with_trace (trace w ++ [DnsLookup h]) w)).
Proof.
  intros Hm He. unfold more_lookups in Hm.
  unfold peerSelectDnsPaths. unfold bind at 1, get_ps at 1.
  destruct (servers (ps w)) as [|f l]; [discriminate|]. rewrite Hm.
  eexists. unfold debugs_entry_url.
  destruct (debugs_on E 44 2).
  - unfold bind, deref_entry, bind, get_ps, ipcache_nbgethostbyname, bind, emit.
    destruct (entry (ps w)); [reflexivity | congruence].
  - reflexivity.
Qed.

Lemma more_lookups_servers E s : more_lookups E s = true -> servers s <> [].
Proof. unfold more_lookups. destruct (servers s); [discriminate | discriminate]. Qed.

(** One answer: the selection either completes, or is in the DNS stage
    again with one record fewer. *)
Lemma dns_answer_step E w ia :
  debugs_on E 44 3 = false ->
  dns_stage w -> answer_ok ia ->
  exists w',
    deliver E (DnsResults ia) w = Ret tt w'
    /\ cb_valid w' = cb_valid w
    /\ ((freed w' = true
         /\ callbacks (trace w') =
            (callbacks (trace w) + if cb_valid w then 1 else 0)%nat)
        \/ (dns_stage w'
            /\ callbacks (trace w') = callbacks (trace w)
            /\ servers (ps w') = tl (servers (ps w)))).
Proof.
  intros Hd3 (Hf & Hp & Hs & Hcb & He) Hia.
  unfold deliver. rewrite Hf.
  destruct (dns_pending w) as [|k] eqn:Hk; [congruence|].
  destruct (servers (ps w)) as [|f rest] eqn:Hsv; [congruence|].
  unfold peerSelectDnsResults. unfold bind at 1, emit at 1.
  unfold bind at 1, get_ps at 1. simpl servers. rewrite Hsv. simpl hd_error.
  set (w1 := with_trace _ (with_dns_pending k w)).
  assert (Hloop : exists p',
    match ia with
    | Some a =>
        assert (cur a <? count a) 242;;
        dns_loop E a (Some f) (Z.to_nat (count a)) 0 (cur a)
    | None =>
        if debugs_on E 44 3
        then if is_some (_peer f) then ret tt else raise (NullDeref 276)
        else ret tt
    end w1 = Ret tt (with_ps (set_paths p' (ps w1)) w1)).
  { destruct ia as [a|].
    - destruct Hia as [Hc Hl]. unfold bind, assert.
      apply Z.ltb_lt in Hc. rewrite Hc. unfold ret at 1.
      apply dns_loop_returns; simpl; lia.
    - rewrite Hd3. exists (paths (ps w1)). now rewrite with_ps_set_paths_id. }
  destruct Hloop as [p' Hloop].
  unfold bind at 1. rewrite Hloop.
  unfold bind at 1, modify_ps at 1.
  set (w2 := with_ps _ _).
  assert (H2 : servers (ps w2) = rest /\ callback (ps w2) = true
               /\ entry (ps w2) = entry (ps w) /\ freed w2 = false
               /\ cb_valid w2 = cb_valid w
               /\ callbacks (trace w2) = callbacks (trace w)).
  { subst w2 w1. simpl. rewrite Hsv. simpl. repeat split; auto.
    rewrite callbacks_app. simpl. lia. }
  destruct H2 as (S2 & C2 & E2 & F2 & V2 & T2).
  destruct (more_lookups E (ps w2)) eqn:Hm.
  - destruct (dns_paths_next_lookup E w2 Hm) as [h Hr]; [congruence|].
    eexists. split; [exact Hr|]. split; [simpl; exact V2|].
    right. unfold dns_stage. simpl. rewrite !callbacks_app. simpl.
    repeat split; auto; try congruence; try lia.
    apply (more_lookups_servers E _ Hm).
  - destruct (dns_paths_completes E w2 Hm C2) as (w' & Hr & Hf' & Hc' & Hv');
      [congruence|].
    exists w'. split; [exact Hr|]. split; [congruence|].
    left. split; [exact Hf'|]. rewrite Hc', T2, V2. reflexivity.
Qed.

(** X2.  With an entry, a valid caller and section-44 debugging below level
    3, answering the lookups of the DNS stage one by one ends in exactly
    one invocation of the callback and the release of the context; with
    an invalid caller, in the release alone. *)
Theorem dns_stage_calls_back_once (E : Env) (ias : list (option ipcache_addrs)) :
  debugs_on E 44 3 = false ->
  forall w,
    dns_stage w -> Forall answer_ok ias ->
    (length (servers (ps w)) <= length ias)%nat ->
    exists w',
      run E (map DnsResults ias) w = Ret tt w' /\ freed w' = true
      /\ callbacks (trace w') =
         (callbacks (trace w) + if cb_valid w then 1 else 0)%nat.
Proof.
  intros Hd3. induction ias as [|ia ias IH]; intros w Hst Hok Hlen.
  - destruct Hst as (_ & _ & Hs & _).
    destruct (servers (ps w)); [congruence | simpl in Hlen; lia].
  - inversion Hok as [|? ? Hia Hrest]; subst.
    destruct (dns_answer_step E w ia Hd3 Hst Hia)
      as (w1 & Hr & Hv & [[Hf Hc] | (Hst1 & Hc & Hsv)]).
    + exists w1. cbn [map run]. unfold bind. rewrite Hr, (run_freed E _ w1 Hf).
      auto.
    + destruct (IH w1 Hst1 Hrest) as (w' & Hr' & Hf' & Hc').
      { rewrite Hsv. destruct (servers (ps w)); simpl in *; lia. }
      exists w'. cbn [map run]. unfold bind. rewrite Hr, Hr'.
      repeat split; auto. rewrite Hc', Hc, Hv. reflexivity.
Qed.

(** * Further properties of the code *)

(** ** Releasing the context *)

(** X3.  [peerSelectStateFree] always returns:
    the assertion at line 102 cannot fail, because the entry was set to
    [PING_DONE] a few lines before.  It cancels the ping timer exactly
    when the entry was [PING_WAITING], deletes a pending ACL checklist,
    unlocks the request, unlocks the entry (by then [PING_DONE]) if there
    is one and clears the pointer, and frees the context, in this
    order. *)
Theorem peerSelectStateFree_releases (w : world) :
  exists w',
    peerSelectStateFree w = Ret tt w'
    /\ trace w' = trace w ++ released_effects (ps w)
    /\ freed w' = true
    /\ entry (ps w') = None
    /\ ping_timer w' =
       match entry (ps w) with
       | Some e =>
           if ping_status_eqb (ping_status e) PING_WAITING then false
           else ping_timer w
       | None => ping_timer w
       end.
Proof.
  unfold peerSelectStateFree, released_effects, cbdataFree, eventDelete, when, assert.
  unfold bind, get_ps, modify_ps, emit, ret, raise. simpl.
  destruct (entry (ps w)) as [e|] eqn:He; simpl.
  - destruct (ping_status_eqb (ping_status e) PING_WAITING); simpl;
      unfold store_ping_status; simpl; rewrite He; simpl;
      destruct (is_some (acl_checklist (ps w))); simpl;
      eexists; (split; [reflexivity|]); simpl;
      rewrite <- ?app_assoc; simpl; repeat split; reflexivity.
  - rewrite ?He. destruct (is_some (acl_checklist (ps w))); simpl;
      rewrite ?He; eexists; (split; [reflexivity|]); simpl;
      rewrite <- ?app_assoc; simpl; repeat split; auto.
Qed.

(** X18.  When the timeout fires after the caller's
    [callback_data] became invalid, [peerPingTimeout] only cleans up: the
    entry goes to [PING_DONE], the locks are given back and the context
    is freed.  The callback is not invoked, no lookup is started, no
    record is added, [PeerStats.timeouts] is not counted and [timedout]
    is not set; [eventDelete] is not called either, the entry being
    [PING_DONE] by the time [peerSelectStateFree] looks. *)
Theorem ping_timeout_caller_gone (E : Env) (w : world) (e : StoreEntry) :
  cb_valid w = false -> entry (ps w) = Some e ->
  exists w',
    peerPingTimeout E w = Ret tt w'
    /\ trace w' =
       trace w ++ (if is_some (acl_checklist (ps w)) then [AclFree] else [])
               ++ [RequestUnlock; EntryUnlock (set_ping_status PING_DONE e); StateFree]
    /\ freed w' = true
    /\ PeerStats_timeouts w' = PeerStats_timeouts w
    /\ timedout (ping (ps w')) = timedout (ping (ps w))
    /\ servers (ps w') = servers (ps w)
    /\ paths (ps w') = paths (ps w).
Proof.
  intros Hv He.
  unfold peerPingTimeout, cbdataReferenceValid, deref_entry.
  unfold peerSelectStateFree, cbdataFree, eventDelete, when, assert.
  unfold bind, get_ps, modify_ps, emit, ret, raise. rewrite Hv. simpl.
  rewrite He. simpl. unfold store_ping_status. rewrite He. simpl.
  destruct (is_some (acl_checklist (ps w))); simpl;
    eexists; (split; [reflexivity|]); simpl;
    rewrite <- ?app_assoc; simpl; repeat split; reflexivity.
Qed.

Lemma ping_timeout_caller_gone_witness :
  exists w',
    peerPingTimeout (site 10 1 0 false None)
      (with_cb_valid false (pinged_start (site 10 1 0 false None))) = Ret tt w'
    /\ freed w' = true
    /\ PeerStats_timeouts w' = 0.
Proof.
  destruct (ping_timeout_caller_gone (site 10 1 0 false None)
              (with_cb_valid false (pinged_start (site 10 1 0 false None)))
              (mkEntry "http://origin.example/" PING_WAITING 0)
              eq_refl eq_refl)
    as (w' & H1 & _ & H3 & H4 & _).
  exists w'. split; [exact H1|]. split; [exact H3|]. exact H4.
Defined.

(** ** The reply handlers *)

(** X14.  While more replies are expected, an ICP
    reply that is not a HIT, and not a parent's MISS or DECHO, is counted
    in [n_recv] and changes nothing else: a sibling's MISS leaves no
    first or closest parent miss, and opcodes such as ICP_DENIED or
    ICP_MISS_NOFETCH leave no record at all. *)
Theorem icp_reply_only_counted (E : Env) (w : world) (p : peer) (t : peer_t)
    (h : icp_common_t) :
  entry (ps w) <> None ->
  opcode h <> ICP_HIT ->
  is_parent t && miss_opcode (opcode h) = false ->
  n_recv (ping (ps w)) + 1 < n_replies_expected (ping (ps w)) ->
  peerHandleIcpReply E p t h w = Ret tt (with_ps (count_reply (ps w)) w).
Proof.
  intros He Hh Hm Hn.
  unfold peerHandleIcpReply, debugs_entry_url, deref_entry, after_reply, when.
  unfold bind, get_ps, modify_ps, ret, raise.
  assert (Hlt : (n_recv (ping (count_reply (ps w)))
                 <? n_replies_expected (ping (count_reply (ps w)))) = true)
    by (apply Z.ltb_lt; simpl; lia).
  simpl in Hlt.
  destruct (entry (ps w)) eqn:Hen; [|congruence].
  destruct (debugs_on E 44 3);
    destruct (opcode h) eqn:Ho; try congruence;
    destruct t; simpl in Hm; try discriminate; simpl;
    rewrite ?Hen, ?Hlt; reflexivity.
Qed.

Lemma icp_reply_only_counted_witness :
  peerHandleIcpReply (site 10 1 0 false None) P1 PEER_SIBLING (mkIcp ICP_MISS 0 0)
    (pinged_start (site 10 1 0 false None))
  = Ret tt (with_ps (count_reply (ps (pinged_start (site 10 1 0 false None))))
              (pinged_start (site 10 1 0 false None))).
Proof.
  apply (icp_reply_only_counted (site 10 1 0 false None)
           (pinged_start (site 10 1 0 false None)) P1 PEER_SIBLING
           (mkIcp ICP_MISS 0 0)).
  - vm_compute. discriminate.
  - discriminate.
  - reflexivity.
  - vm_compute. reflexivity.
Defined.

(** X15.  With HTCP compiled in, an HTCP reply that
    reports a hit is handled exactly as an ICP_HIT from the same peer:
    the same count, the same [hit] and [hit_type], the same immediate
    re-entry of [peerSelectFoo]. *)
Theorem htcp_hit_as_icp_hit (E : Env) (w : world) (p : peer) (t : peer_t)
    (h : htcpReplyData) (i : icp_common_t) :
  USE_HTCP E = true -> entry (ps w) <> None ->
  htcp_hit h = true -> opcode i = ICP_HIT ->
  peerHandlePingReply E p t (HtcpData h) w = peerHandlePingReply E p t (IcpData i) w.
Proof.
  intros Hu He Hh Hi.
  unfold peerHandlePingReply, peerHandleHtcpReply, peerHandleIcpReply.
  rewrite Hu, Hh, Hi.
  unfold debugs_entry_url, deref_entry, bind, get_ps, ret, raise.
  destruct (entry (ps w)) eqn:Hen; [|congruence].
  destruct (debugs_on E 44 3); rewrite ?Hen; reflexivity.
Qed.

Lemma htcp_hit_as_icp_hit_witness :
  peerHandlePingReply (site 10 1 0 false None) P2 PEER_PARENT
    (HtcpData (mkHtcp true false 0 0)) (pinged_start (site 10 1 0 false None))
  = peerHandlePingReply (site 10 1 0 false None) P2 PEER_PARENT
      (IcpData (mkIcp ICP_HIT 0 0)) (pinged_start (site 10 1 0 false None)).
Proof.
  apply (htcp_hit_as_icp_hit (site 10 1 0 false None)
           (pinged_start (site 10 1 0 false None)) P2 PEER_PARENT
           (mkHtcp true false 0 0) (mkIcp ICP_HIT 0 0)).
  - reflexivity.
  - vm_compute. discriminate.
  - reflexivity.
  - reflexivity.
Defined.

(** ** The destinations of a DNS answer *)

Lemma dns_loop_destinations E ia f rest beyond :
  forall done ip w,
    in_addrs ia = done ++ rest ++ beyond ->
    dns_loop E ia (Some f) (length rest) (Z.of_nat (length done)) ip w
    = Ret tt (with_ps (set_paths (paths (ps w) ++ destinations E (ps w) f rest)
                         (ps w)) w).
Proof.
  induction rest as [|a rest IH]; intros done ip w Hl.
  - unfold destinations. simpl. rewrite firstn_nil, app_nil_r.
    now rewrite with_ps_set_paths_id.
  - simpl length. cbn [dns_loop]. unfold bind at 1, get_ps at 1.
    destruct (Z.of_nat (length (paths (ps w)))
              >=? to_unsigned (forward_max_tries E)) eqn:Hc.
    { rewrite Z.geb_leb in Hc. apply Z.leb_le in Hc.
      unfold destinations, room.
      replace (Z.to_nat _) with O by lia. simpl firstn.
      rewrite app_nil_r. now rewrite with_ps_set_paths_id. }
    rewrite Z.geb_leb in Hc. apply Z.leb_gt in Hc.
    assert (Hroom : room E (ps w) = S (Z.to_nat (to_unsigned (forward_max_tries E)
                       - Z.of_nat (length (paths (ps w))) - 1)))
      by (unfold room; lia).
    assert (Hnth : nth_error (in_addrs ia) (Z.to_nat (Z.of_nat (length done)))
                   = Some a)
      by (rewrite Nat2Z.id, Hl; apply (nth_error_middle done a (rest ++ beyond))).
    assert (Hnext : in_addrs ia = (done ++ [a]) ++ rest ++ beyond)
      by (rewrite <- app_assoc; exact Hl).
    assert (Hlen : Z.of_nat (length done) + 1 = Z.of_nat (length (done ++ [a])))
      by (rewrite length_app; simpl; lia).
    assert (Hskip : tproxy_usable (request (ps w)) f a = false ->
      dns_loop E ia (Some f) (length rest) (Z.of_nat (length done) + 1)
        ((if ip >=? count ia then 0 else ip) + 1) w
      = Ret tt (with_ps (set_paths (paths (ps w)
                   ++ destinations E (ps w) f (a :: rest)) (ps w)) w)).
    { intros Hu. rewrite Hlen, (IH _ _ w Hnext).
      unfold destinations. simpl filter. rewrite Hu. reflexivity. }
    assert (Hpush : tproxy_usable (request (ps w)) f a = true ->
      (modify_ps (fun s => set_paths (paths s ++ [conn_of E (request (ps w)) f a]) s) ;;
       dns_loop E ia (Some f) (length rest) (Z.of_nat (length done) + 1)
         ((if ip >=? count ia then 0 else ip) + 1)) w
      = Ret tt (with_ps (set_paths (paths (ps w)
                   ++ destinations E (ps w) f (a :: rest)) (ps w)) w)).
    { intros Hu. unfold bind, modify_ps. rewrite Hlen, (IH _ _ _ Hnext).
      unfold destinations. simpl filter. rewrite Hu. simpl map.
      rewrite Hroom. simpl firstn. simpl.
      replace (room E (set_paths (paths (ps w) ++ [conn_of E (request (ps w)) f a]) (ps w)))
        with (Z.to_nat (to_unsigned (forward_max_tries E)
                        - Z.of_nat (length (paths (ps w))) - 1))
        by (unfold room; simpl; rewrite length_app; simpl; lia).
      rewrite <- app_assoc. reflexivity. }
    unfold in_addrs_at. rewrite Hnth.
    unfold tproxy_usable in Hskip, Hpush.
    destruct (spoof_client_ip (request (ps w))); simpl in Hskip, Hpush.
    + destruct (negb match _peer f with Some p => no_tproxy p | None => false end);
        simpl in Hskip, Hpush.
      * unfold bind at 1. unfold bind at 1. unfold ret at 1. unfold ret at 1.
        destruct (negb (Bool.eqb (IsIPv4 a) (IsIPv4 (client_addr (request (ps w))))));
          simpl in Hskip, Hpush.
        -- apply Hskip. reflexivity.
        -- unfold bind at 1, ret at 1. apply Hpush. reflexivity.
      * unfold bind at 1, ret at 1. unfold bind at 1, ret at 1.
        apply Hpush. reflexivity.
    + unfold bind at 1, ret at 1. unfold bind at 1, ret at 1.
      apply Hpush. reflexivity.
Qed.

(** X9.  A DNS answer [ia] whose current index is
    inside the array (what line 242 asserts), for the record [f] at the
    head of [servers]: [peerSelectDnsResults] records the lookup, appends
    to [paths] one destination per address of the answer, in array
    order, leaving out the addresses that fail the TPROXY family test and
    stopping at [forward_max_tries]; each destination carries the address
    with the port of the record's peer (the request's port for a record
    without peer), the record's code and the outgoing address
    [getOutgoingAddress] gives.  It then drops the record [f] and hands
    over to [peerSelectDnsPaths]. *)
Theorem dns_answer_destinations (E : Env) (w : world) (ia : ipcache_addrs)
    (f : FwdServer) (rest : list FwdServer) :
  servers (ps w) = f :: rest ->
  cur ia < count ia ->
  (Z.to_nat (count ia) <= length (in_addrs ia))%nat ->
  peerSelectDnsResults E (Some ia) w =
  peerSelectDnsPaths E
    (with_ps (set_servers rest
                (set_paths (paths (ps w)
                            ++ destinations E (ps w) f
                                 (firstn (Z.to_nat (count ia)) (in_addrs ia)))
                   (ps w)))
       (with_trace (trace w ++ [RecordLookup]) w)).
Proof.
  intros Hs Hc Hn.
  unfold peerSelectDnsResults. unfold bind at 1, emit at 1.
  unfold bind at 1, get_ps at 1. simpl servers. rewrite Hs. simpl hd_error.
  unfold bind at 1. unfold bind at 1, assert at 1.
  apply Z.ltb_lt in Hc. rewrite Hc. unfold ret at 1.
  set (w1 := with_trace (trace w ++ [RecordLookup]) w).
  pose proof (dns_loop_destinations E ia f
                (firstn (Z.to_nat (count ia)) (in_addrs ia))
                (skipn (Z.to_nat (count ia)) (in_addrs ia)) [] (cur ia) w1) as Hl.
  rewrite length_firstn, Nat.min_l in Hl by exact Hn.
  simpl in Hl. rewrite Hl by (now rewrite firstn_skipn).
  unfold bind at 1, modify_ps at 1. simpl. rewrite Hs. reflexivity.
Qed.

Lemma dns_answer_destinations_witness :
  peerSelectDnsResults (site 2 1 0 false None) (Some mixed_ia) spoofed_start =
  peerSelectDnsPaths (site 2 1 0 false None)
    (with_ps (set_servers []
                (set_paths (paths (ps spoofed_start)
                            ++ destinations (site 2 1 0 false None) (ps spoofed_start)
                                 (mkFwd None HIER_DIRECT)
                                 (firstn (Z.to_nat (count mixed_ia)) (in_addrs mixed_ia)))
                   (ps spoofed_start)))
       (with_trace (trace spoofed_start ++ [RecordLookup]) spoofed_start)).
Proof.
  apply (dns_answer_destinations (site 2 1 0 false None) spoofed_start mixed_ia
           (mkFwd None HIER_DIRECT) []).
  - vm_compute. reflexivity.
  - simpl. lia.
  - simpl. lia.
Defined.

(** Of the four addresses of [mixed_ia] the IPv6 one is passed over for
    the IPv4 client, and the cap of two cuts off the last. *)
Example mixed_destinations :
  map remote (destinations (site 2 1 0 false None) (ps spoofed_start)
                (mkFwd None HIER_DIRECT) (in_addrs mixed_ia))
  = [mkAddress 167772161 true 80; mkAddress 167772162 true 80].
Proof. vm_compute. reflexivity. Qed.

(** ** The switch on [direct] *)

Lemma peerGetSomeParent_servers E s :
  peerGetSomeParent E s =
  set_servers (servers s ++ (if direct_eqb (direct s) DIRECT_YES then []
                             else parent_record E (request s))) s.
Proof.
  unfold peerGetSomeParent, parent_record.
  destruct (direct_eqb (direct s) DIRECT_YES).
  - now rewrite app_nil_r, set_servers_same.
  - rewrite some_parent_first_non_null.
    destruct (some_parent E (request s)) as [[p c]|]; [reflexivity|].
    now rewrite app_nil_r, set_servers_same.
Qed.

(** X11.  With [direct] = [DIRECT_MAYBE] (and a
    protocol other than WAIS) the switch of [peerSelectFoo] appends the
    direct record and, when the request is hierarchical or
    [nonhierarchical_direct] is off, the parent record of
    [peerGetSomeParent]: the direct record first when [prefer_direct] is
    on, last otherwise.  A non-hierarchical request under
    [nonhierarchical_direct] gets the direct record alone. *)
Theorem select_by_direct_maybe_order (E : Env) (s : ps_state) :
  direct s = DIRECT_MAYBE -> req_protocol (request s) <> PROTO_WAIS ->
  select_by_direct E s =
  set_servers
    (servers s ++
     (if hierarchical (request s) || negb (nonhierarchical_direct E)
      then (if prefer_direct E
            then direct_record :: parent_record E (request s)
            else parent_record E (request s) ++ [direct_record])
      else [direct_record])) s.
Proof.
  intros Hd Hw. unfold select_by_direct. rewrite Hd. cbv zeta.
  assert (HD : forall s', direct s' = DIRECT_MAYBE -> request s' = request s ->
            peerGetSomeDirect s' = set_servers (servers s' ++ [direct_record]) s').
  { intros s' H1 H2. unfold peerGetSomeDirect. rewrite H1, H2. simpl.
    destruct (req_protocol (request s)); try reflexivity. congruence. }
  destruct (prefer_direct E); simpl.
  - rewrite (HD s Hd eq_refl). simpl.
    destruct (hierarchical (request s) || negb (nonhierarchical_direct E)).
    + rewrite peerGetSomeParent_servers. simpl. rewrite Hd. simpl.
      now rewrite <- app_assoc.
    + reflexivity.
  - destruct (hierarchical (request s) || negb (nonhierarchical_direct E)).
    + rewrite peerGetSomeParent_servers at 1. rewrite Hd. simpl.
      rewrite HD; simpl; auto. now rewrite <- app_assoc.
    + now apply HD.
Qed.

Lemma select_by_direct_maybe_order_witness :
  select_by_direct (site 10 1 0 false (Some P1))
    (set_direct DIRECT_MAYBE (new_ps_state [] pinged_request None)) =
  set_servers [mkFwd (Some P1) DEFAULT_PARENT; direct_record]
    (set_direct DIRECT_MAYBE (new_ps_state [] pinged_request None)).
Proof.
  apply (select_by_direct_maybe_order (site 10 1 0 false (Some P1))
           (set_direct DIRECT_MAYBE (new_ps_state [] pinged_request None))).
  - reflexivity.
  - discriminate.
Defined.

(** ** Pinned connections *)

(** X12.  The request carries a pinned
    connection that validates as open, with a peer the request may use,
    or with no peer while [direct] is not [DIRECT_NO]; [direct] is
    decided and the entry, if any, is [PING_NONE].  Then [peerSelectFoo]
    appends the [PINNED] record, sets the entry to [PING_DONE] and goes
    from there to the switch and the DNS stage: [peerGetSomeNeighbor] is
    not entered, so no neighbour is pinged and no timeout is queued, and
    the [PINNED] record comes before whatever the switch appends. *)
Theorem pinned_connection_skips_ping (E : Env) (w : world) (pc : PinnedConn) :
  direct (ps w) <> DIRECT_UNKNOWN ->
  match entry (ps w) with
  | Some e => ping_status e = PING_NONE
  | None => True
  end ->
  pinnedConnection (request (ps w)) = Some pc ->
  pinned_conn_open pc = true ->
  match pinnedPeer pc with
  | Some pear => peerAllowedToUse E pear (request (ps w)) = true
  | None => direct (ps w) <> DIRECT_NO
  end ->
  peerSelectFoo E w =
  peerSelectDnsPaths E
    (with_ps (select_by_direct E
                (store_ping_status PING_DONE
                   (add_server (pinnedPeer pc) PINNED (ps w)))) w)
  /\ ping_timer (world_of (peerSelectFoo E w)) = ping_timer w
  /\ exists more,
       servers (ps (world_of (peerSelectFoo E w))) =
       servers (ps w) ++ mkFwd (pinnedPeer pc) PINNED :: more.
Proof.
  intros Hu Hst Hpc Hop Hok.
  assert (Hu' : direct_eqb (direct (ps w)) DIRECT_UNKNOWN = false).
  { destruct (direct_eqb (direct (ps w)) DIRECT_UNKNOWN) eqn:H; auto.
    apply direct_eqb_eq in H. contradiction. }
  assert (Hpin : peerSelectPinned E (ps w) =
                 store_ping_status PING_DONE (add_server (pinnedPeer pc) PINNED (ps w))).
  { unfold peerSelectPinned. rewrite Hpc, Hop.
    destruct (pinnedPeer pc) as [pear|].
    - now rewrite Hok.
    - destruct (direct_eqb (direct (ps w)) DIRECT_NO) eqn:H; [|reflexivity].
      apply direct_eqb_eq in H. contradiction. }
  assert (Heq : peerSelectFoo E w =
    peerSelectDnsPaths E
      (with_ps (select_by_direct E
                  (store_ping_status PING_DONE
                     (add_server (pinnedPeer pc) PINNED (ps w)))) w)).
  { unfold peerSelectFoo. unfold bind at 1, get_ps at 1. rewrite Hu'.
    unfold peerSelectFoo_neighbors, when, deref_entry.
    unfold bind, get_ps, modify_ps, ret.
    destruct (entry (ps w)) as [e|] eqn:He.
    - rewrite Hst. simpl. rewrite Hpin. unfold store_ping_status at 1 2.
      simpl. rewrite He. simpl. unfold store_ping_status. simpl. rewrite He.
      reflexivity.
    - simpl. rewrite Hpin. unfold store_ping_status at 1. simpl. rewrite He.
      unfold store_ping_status. simpl. rewrite He. reflexivity. }
  split; [exact Heq|]. rewrite Heq.
  set (s1 := store_ping_status PING_DONE (add_server (pinnedPeer pc) PINNED (ps w))).
  destruct (dns_frame_peerSelectDnsPaths E (with_ps (select_by_direct E s1) w))
    as (Hsv & _ & _ & Hset).
  destruct (plain_ext_select_by_direct E s1) as (Pe & _ & _ & _ & _ & more & Psv & _).
  assert (Hsel : settled (select_by_direct E s1)).
  { unfold settled. rewrite Pe. apply settled_store_done. }
  destruct (Hset Hsel) as [_ Ht]. split; [exact Ht|].
  assert (Hs1 : servers s1 = servers (ps w) ++ [mkFwd (pinnedPeer pc) PINNED])
    by (subst s1; unfold store_ping_status; simpl; destruct (entry (ps w));
        reflexivity).
  exists more. rewrite Hsv. simpl. rewrite Psv, Hs1, <- app_assoc. reflexivity.
Qed.

Lemma pinned_connection_skips_ping_witness :
  ping_timer (world_of (peerSelectFoo (site 10 1 0 false None) pinned_start))
  = ping_timer pinned_start.
Proof.
  apply (pinned_connection_skips_ping (site 10 1 0 false None) pinned_start
           (mkPinned (Some P1) true)).
  - discriminate.
  - reflexivity.
  - reflexivity.
  - reflexivity.
  - reflexivity.
Defined.

Example pinned_selection_trace :
  trace (world_of (peerSelectFoo (site 10 1 0 false None) pinned_start))
  = [DnsLookup "p1.example"]
  /\ map code (servers (ps (world_of (peerSelectFoo (site 10 1 0 false None)
                                       pinned_start))))
     = [PINNED; HIER_DIRECT].
Proof. by_running. Qed.

(** ** Pinging the neighbours *)

(** X13.  The entry is [PING_NONE], [direct] is
    not [DIRECT_YES], neither the cache digests nor the net-db name a
    neighbour, and the ping gate is open (hierarchical request, publicly
    keyed entry, a neighbour to ask).  [peerGetSomeNeighbor] then calls
    [neighborsUdpPing] and stores what it returns; it starts to wait
    ([PING_WAITING], with the timeout event queued for [ping.timeout]
    milliseconds) exactly when [n_replies_expected] is positive.  With no
    reply expected the entry goes to [PING_DONE] at once and no event is
    queued. *)
Theorem pings_wait_only_for_replies (E : Env) (w : world) (e : StoreEntry)
    (sent expected tmo : Z) :
  entry (ps w) = Some e -> ping_status e = PING_NONE ->
  direct (ps w) <> DIRECT_YES ->
  (if USE_CACHE_DIGESTS E then neighborsDigestSelect E (request (ps w)) else None)
    = None ->
  netdbClosestParent E (request (ps w)) = None ->
  hierarchical (request (ps w)) = true ->
  EBIT_TEST (flags e) (KEY_PRIVATE E) = false ->
  neighborsCount E (request (ps w)) <> 0 ->
  neighborsUdpPing E (request (ps w)) e = (sent, expected, tmo) ->
  exists w',
    peerGetSomeNeighbor E w = Ret tt w'
    /\ pings_sent w' = true
    /\ servers (ps w') = servers (ps w)
    /\ ping (ps w') =
       set_n_sent sent
         (set_timeout tmo
            (set_n_replies_expected expected
               (set_start (current_time w) (ping (ps w)))))
    /\ (0 < expected ->
        entry (ps w') = Some (set_ping_status PING_WAITING e)
        /\ trace w' = trace w ++ [UdpPing; EventAdd tmo]
        /\ ping_timer w' = true)
    /\ (expected <= 0 ->
        entry (ps w') = Some (set_ping_status PING_DONE e)
        /\ trace w' = trace w ++ [UdpPing]
        /\ ping_timer w' = ping_timer w).
Proof.
  intros He Hst Hy Hcd Hnc Hh Hk Hn Hp.
  assert (Hy' : direct_eqb (direct (ps w)) DIRECT_YES = false).
  { destruct (direct_eqb (direct (ps w)) DIRECT_YES) eqn:H; auto.
    apply direct_eqb_eq in H. contradiction. }
  apply Z.eqb_neq in Hn.
  unfold peerGetSomeNeighbor, peerSelectIcpPing, deref_entry, assert,
    neighbor_done, eventAdd.
  unfold bind, get_ps, get_time, modify_ps, emit, ret, raise.
  rewrite He. simpl.
  repeat (progress (rewrite ?He, ?Hst, ?Hy', ?Hcd, ?Hnc, ?Hh, ?Hk, ?Hn, ?Hp; simpl)).
  destruct (0 <? expected) eqn:Hx.
  - apply Z.ltb_lt in Hx. eexists. split; [reflexivity|].
    simpl. unfold store_ping_status. simpl. rewrite He. simpl.
    rewrite <- app_assoc. repeat split; auto; intros; lia.
  - apply Z.ltb_ge in Hx. eexists. split; [reflexivity|].
    simpl. unfold store_ping_status. simpl. rewrite He. simpl.
    repeat split; auto; intros; lia.
Qed.

Lemma pings_wait_only_for_replies_witness :
  exists w',
    peerGetSomeNeighbor (site 10 1 0 false None) unpinged_start = Ret tt w'
    /\ trace w' = trace unpinged_start ++ [UdpPing; EventAdd 2000]
    /\ ping_timer w' = true.
Proof.
  destruct (pings_wait_only_for_replies (site 10 1 0 false None) unpinged_start
              (fresh_entry 0) 3 3 2000
              eq_refl eq_refl ltac:(discriminate) eq_refl eq_refl eq_refl
              eq_refl ltac:(discriminate) eq_refl)
    as (w' & H1 & _ & _ & _ & H5 & _).
  destruct (H5 ltac:(lia)) as (_ & H6 & H7).
  exists w'. split; [exact H1|]. split; [exact H6 | exact H7].
Defined.

(** ** The locks of a selection *)

Lemma lock_events_app t1 t2 :
  lock_events (t1 ++ t2) = lock_events t1 ++ lock_events t2.
Proof.
  induction t1 as [|e t1 IH]; simpl; [reflexivity|].
  destruct e; simpl; rewrite IH; reflexivity.
Qed.

Lemma held_refl w : held w w.
Proof. unfold held. auto. Qed.

Lemma held_trans a b c : held a b -> held b c -> held a c.
Proof. unfold held. intros (A1 & A2 & A3) (B1 & B2 & B3). repeat split; congruence. Qed.

Lemma is_some_store_ping_status st s :
  is_some (entry (store_ping_status st s)) = is_some (entry s).
Proof. unfold store_ping_status. destruct (entry s) eqn:H; simpl; now rewrite ?H. Qed.

Lemma entry_presence_peerSelectPinned E s :
  is_some (entry (peerSelectPinned E s)) = is_some (entry s).
Proof.
  unfold peerSelectPinned.
  repeat match goal with
         | |- context[match ?x with _ => _ end] => destruct x
         end; rewrite ?is_some_store_ping_status; reflexivity.
Qed.

Lemma entry_select_by_direct E s : entry (select_by_direct E s) = entry s.
Proof. destruct (plain_ext_select_by_direct E s) as (H & _). exact H. Qed.

Ltac held_pure :=
  unfold held; simpl;
  rewrite ?is_some_store_ping_status, ?entry_presence_peerSelectPinned,
    ?entry_select_by_direct, ?lock_events_app;
  simpl; rewrite ?app_nil_r; auto.

Ltac hstep := kstep held_refl held_trans ltac:(solve [held_pure]).
Create HintDb helds discriminated.
Ltac held_steps := repeat hstep; auto with helds.

Lemma held_deref_entry l w : kept held (deref_entry l) w.
Proof. unfold deref_entry. held_steps. Qed.
#[local] Hint Resolve held_deref_entry : helds.

Lemma held_debugs E a b w : kept held (debugs_entry_url E a b) w.
Proof. unfold debugs_entry_url. held_steps. Qed.
#[local] Hint Resolve held_debugs : helds.

Lemma held_eventAdd n w : kept held (eventAdd n) w.
Proof. unfold eventAdd. held_steps. Qed.
#[local] Hint Resolve held_eventAdd : helds.

Lemma held_nbgethostbyname h w : kept held (ipcache_nbgethostbyname h) w.
Proof. unfold ipcache_nbgethostbyname. held_steps. Qed.
#[local] Hint Resolve held_nbgethostbyname : helds.

Lemma held_nonBlockingCheck l w : kept held (nonBlockingCheck l) w.
Proof. unfold nonBlockingCheck. held_steps. Qed.
#[local] Hint Resolve held_nonBlockingCheck : helds.

Lemma held_cbdataReferenceValid w : kept held cbdataReferenceValid w.
Proof. apply held_refl. Qed.
#[local] Hint Resolve held_cbdataReferenceValid : helds.

Lemma held_ValidDone w : kept held cbdataReferenceValidDone w.
Proof. unfold cbdataReferenceValidDone. held_steps. Qed.
#[local] Hint Resolve held_ValidDone : helds.

Lemma held_peerSelectIcpPing E rq d en w : kept held (peerSelectIcpPing E rq d en) w.
Proof. unfold peerSelectIcpPing. held_steps. Qed.
#[local] Hint Resolve held_peerSelectIcpPing : helds.

Lemma held_neighbor_done pc w : kept held (neighbor_done pc) w.
Proof. unfold neighbor_done. held_steps. Qed.
#[local] Hint Resolve held_neighbor_done : helds.

Lemma held_peerGetSomeNeighbor E w : kept held (peerGetSomeNeighbor E) w.
Proof. unfold peerGetSomeNeighbor. held_steps. Qed.
#[local] Hint Resolve held_peerGetSomeNeighbor : helds.

Lemma held_peerGetSomeNeighborReplies E w :
  kept held (peerGetSomeNeighborReplies E) w.
Proof. unfold peerGetSomeNeighborReplies. held_steps. Qed.
#[local] Hint Resolve held_peerGetSomeNeighborReplies : helds.

Lemma held_first_miss p l w : kept held (first_miss p l) w.
Proof. unfold first_miss. cbv zeta. held_steps. Qed.
#[local] Hint Resolve held_first_miss : helds.

Lemma held_peerIcpParentMiss E p h w : kept held (peerIcpParentMiss E p h) w.
Proof. unfold peerIcpParentMiss. cbv zeta. held_steps. Qed.
#[local] Hint Resolve held_peerIcpParentMiss : helds.

Lemma held_peerHtcpParentMiss E p h w : kept held (peerHtcpParentMiss E p h) w.
Proof. unfold peerHtcpParentMiss. cbv zeta. held_steps. Qed.
#[local] Hint Resolve held_peerHtcpParentMiss : helds.

Lemma held_dns_loop E ia fs k :
  forall n ip w, kept held (dns_loop E ia fs k n ip) w.
Proof.
  induction k as [|k IH]; intros n ip w; cbn [dns_loop].
  - apply held_refl.
  - unfold in_addrs_at. held_steps.
Qed.
#[local] Hint Resolve held_dns_loop : helds.

(** The second tier: functions that may end in [peerSelectStateFree]. *)

Lemma released_of_held {A} (m : M A) w :
  kept held m w -> kept held_or_released m w.
Proof. intros H. now left. Qed.

Lemma held_then a b c : held a b -> held_or_released b c -> held_or_released a c.
Proof.
  intros (A1 & A2 & A3) [H | (B1 & B2)].
  - left. eapply held_trans; [|exact H]. unfold held. auto.
  - right. split; [exact B1|]. rewrite B2, A3, A2. reflexivity.
Qed.

Lemma released_bind {A B} (m : M A) (k : A -> M B) w :
  kept held m w ->
  (forall a w', m w = Ret a w' -> kept held_or_released (k a) w') ->
  kept held_or_released (bind m k) w.
Proof.
  unfold kept, bind. intros Hm Hk. destruct (m w) as [a w'|f w'] eqn:Hw.
  - eapply held_then; [exact Hm | now apply Hk].
  - now left.
Qed.

Create HintDb release_steps discriminated.

Ltac rstep :=
  cbv beta;
  match goal with
  | |- kept held_or_released (bind get_ps _) _ => apply kept_get_ps
  | |- kept held_or_released (bind get_time _) _ => apply kept_get_time
  | |- kept held_or_released (bind _ _) _ =>
      first [ apply released_bind; [solve [held_steps] | intros ? ? ?]
            | match goal with
              | |- kept _ (bind (match ?x with _ => _ end) _) _ => destruct x eqn:?
              end ]
  | |- kept held_or_released (match ?x with _ => _ end) _ => destruct x eqn:?
  | |- kept held_or_released _ _ =>
      first [ solve [auto with release_steps]
            | apply released_of_held; solve [held_steps] ]
  end.
Ltac released_steps := repeat rstep.

Lemma released_peerSelectStateFree w : kept held_or_released peerSelectStateFree w.
Proof.
  right.
  unfold peerSelectStateFree, cbdataFree, eventDelete, when, assert.
  unfold bind, get_ps, modify_ps, emit, ret, raise. simpl.
  destruct (entry (ps w)) as [e|] eqn:He; simpl.
  - destruct (ping_status_eqb (ping_status e) PING_WAITING); simpl;
      unfold store_ping_status; simpl; rewrite He; simpl;
      destruct (is_some (acl_checklist (ps w))); simpl;
      rewrite ?lock_events_app; simpl; rewrite ?app_nil_r, <- ?app_assoc; auto.
  - rewrite ?He. destruct (is_some (acl_checklist (ps w))); simpl;
      rewrite ?He; simpl;
      rewrite ?lock_events_app; simpl; rewrite ?app_nil_r, <- ?app_assoc; auto.
Qed.
#[local] Hint Resolve released_peerSelectStateFree : release_steps.

Lemma released_peerSelectDnsPaths E w :
  kept held_or_released (peerSelectDnsPaths E) w.
Proof. unfold peerSelectDnsPaths. cbv zeta. released_steps. Qed.
#[local] Hint Resolve released_peerSelectDnsPaths : release_steps.

Lemma released_modify_select E w :
  kept held (modify_ps (select_by_direct E)) w.
Proof. unfold kept, modify_ps. simpl. held_pure. Qed.

Lemma released_peerSelectFoo_neighbors E w :
  kept held_or_released (peerSelectFoo_neighbors E) w.
Proof. unfold peerSelectFoo_neighbors. released_steps. Qed.
#[local] Hint Resolve released_peerSelectFoo_neighbors : release_steps.

Lemma released_peerSelectFoo E w : kept held_or_released (peerSelectFoo E) w.
Proof. unfold peerSelectFoo. released_steps. Qed.
#[local] Hint Resolve released_peerSelectFoo : release_steps.

Lemma released_peerSelectDnsResults E ia w :
  kept held_or_released (peerSelectDnsResults E ia) w.
Proof. unfold peerSelectDnsResults. released_steps. Qed.

Lemma released_after_reply E w : kept held_or_released (after_reply E) w.
Proof. unfold after_reply. released_steps. Qed.
#[local] Hint Resolve released_after_reply : release_steps.

Lemma released_peerHandlePingReply E p t d w :
  kept held_or_released (peerHandlePingReply E p t d) w.
Proof.
  unfold peerHandlePingReply, peerHandleIcpReply, peerHandleHtcpReply.
  released_steps.
Qed.

Lemma released_peerCheckAlwaysDirectDone E a w :
  kept held_or_released (peerCheckAlwaysDirectDone E a) w.
Proof. unfold peerCheckAlwaysDirectDone. released_steps. Qed.

Lemma released_peerCheckNeverDirectDone E a w :
  kept held_or_released (peerCheckNeverDirectDone E a) w.
Proof. unfold peerCheckNeverDirectDone. released_steps. Qed.

Lemma released_peerPingTimeout E w : kept held_or_released (peerPingTimeout E) w.
Proof. unfold peerPingTimeout. released_steps. Qed.

Lemma released_deliver E ev w :
  freed w = false -> kept held_or_released (deliver E ev) w.
Proof.
  intros Hf. unfold kept, deliver. rewrite Hf.
  assert (Hsame : forall w1, freed w1 = freed w -> entry (ps w1) = entry (ps w) ->
            trace w1 = trace w -> held w w1).
  { intros w1 H1 H2 H3. unfold held. now rewrite H1, H2, H3. }
  destruct ev.
  - destruct (acl_pending w && _); [|now left].
    eapply held_then; [|apply (released_peerCheckAlwaysDirectDone E answer)].
    now apply Hsame.
  - destruct (acl_pending w && _); [|now left].
    eapply held_then; [|apply (released_peerCheckNeverDirectDone E answer)].
    now apply Hsame.
  - destruct (pings_sent w); [|now left]. apply released_peerHandlePingReply.
  - destruct (ping_timer w); [|now left].
    eapply held_then; [|apply (released_peerPingTimeout E)]. now apply Hsame.
  - destruct (dns_pending w) as [|k]; [now left|].
    eapply held_then; [|apply (released_peerSelectDnsResults E ia)]. now apply Hsame.
  - left. now apply Hsame.
  - left. now apply Hsame.
Qed.

Lemma balanced_step b w w' :
  balanced b w -> freed w = false -> held_or_released w w' -> balanced b w'.
Proof.
  intros [Ht He] Hf [(H1 & H2 & H3) | (H1 & H2)]; unfold balanced.
  - rewrite H1, H3, H2. split; [exact Ht | intros _; now apply He].
  - rewrite H1, H2, Ht, Hf, (He Hf). split; [|discriminate].
    unfold lock_history. simpl. now rewrite <- app_assoc.
Qed.

Lemma balanced_run E b evs : forall w, balanced b w -> balanced b (world_of (run E evs w)).
Proof.
  induction evs as [|ev evs IH]; intros w Hb; cbn [run]; [exact Hb|].
  unfold bind. destruct (freed w) eqn:Hf.
  - unfold deliver. rewrite Hf. now apply IH.
  - pose proof (released_deliver E ev w Hf) as Hd. unfold kept in Hd.
    destruct (deliver E ev w) as [[] w1|f w1]; simpl in Hd.
    + apply IH. eapply balanced_step; eauto.
    + simpl. eapply balanced_step; eauto.
Qed.

(** X4.  Whatever events a selection receives, the
    locks balance: [peerSelect] locks the request once and the entry once
    if there is one, and nothing else does; as long as the context is
    alive nothing is unlocked; once it is freed, the request was unlocked
    once, then the entry (if any) once, then the context freed once, and
    nothing is released a second time. *)
Theorem selection_releases_once (E : Env) (pths : list Connection)
    (rq : HttpRequest) (en : option StoreEntry) (now : Z) (evs : list event) :
  lock_events (trace (world_of (selection E pths rq en now evs))) =
  lock_history (is_some en) (freed (world_of (selection E pths rq en now evs))).
Proof.
  assert (H0 : balanced (is_some en) (world_of (peerSelect E pths rq en now))).
  { unfold peerSelect.
    set (w1 := with_trace (RequestLock :: (if is_some en then [EntryLock] else []))
                 (new_world pths rq en now)).
    assert (H1 : balanced (is_some en) w1).
    { subst w1. unfold balanced. simpl. destruct en; simpl; auto. }
    assert (Hr : (emit RequestLock ;; when (is_some en) (emit EntryLock) ;;
                  peerSelectFoo E) (new_world pths rq en now)
                 = peerSelectFoo E w1).
    { subst w1. unfold bind, emit, when, ret. destruct en; reflexivity. }
    rewrite Hr. eapply balanced_step; [exact H1 | reflexivity |].
    apply released_peerSelectFoo. }
  unfold selection.
  destruct (peerSelect E pths rq en now) as [[] w1|f w1]; simpl in H0.
  - apply (balanced_run E _ evs w1 H0).
  - apply H0.
Qed.

(** ** Selections that must not go direct *)

Lemma stays_origin_free_refl w : stays_origin_free w w.
Proof. intros H; exact H. Qed.

Lemma stays_origin_free_trans a b c :
  stays_origin_free a b -> stays_origin_free b c -> stays_origin_free a c.
Proof. unfold stays_origin_free. auto. Qed.

Lemma origin_free_same s s' :
  direct s' = direct s -> servers s' = servers s -> paths s' = paths s ->
  origin_free s -> origin_free s'.
Proof. unfold origin_free. intros -> -> ->. auto. Qed.

Lemma origin_free_store st s : origin_free s -> origin_free (store_ping_status st s).
Proof.
  apply origin_free_same; unfold store_ping_status; destruct (entry s); reflexivity.
Qed.

Lemma origin_free_add p c s :
  direct_code c = false ->
  origin_free s -> origin_free (add_server (Some p) c s).
Proof.
  intros Hc (Hd & Hs & Hp). unfold origin_free. simpl. repeat split; auto.
  unfold peerAddFwdServer. apply Forall_app. split; [exact Hs|].
  repeat constructor. exact Hc.
Qed.

Lemma origin_free_pop s :
  origin_free s -> origin_free (set_servers (tl (servers s)) s).
Proof.
  intros (Hd & Hs & Hp). unfold origin_free. simpl. repeat split; auto.
  destruct (servers s); simpl; [constructor|]. now inversion Hs.
Qed.

Ltac origin_pure :=
  unfold stays_origin_free; simpl; intros;
  first [ assumption
        | apply origin_free_store; assumption
        | apply origin_free_pop; assumption
        | apply origin_free_add; [reflexivity | assumption]
        | eapply origin_free_same; [| | |eassumption]; reflexivity ].

Ltac ostep := kstep stays_origin_free_refl stays_origin_free_trans
                ltac:(solve [origin_pure]).
Create HintDb origins discriminated.
Ltac origin_steps := repeat ostep; auto with origins.

Lemma origin_cbdataFree w : kept stays_origin_free cbdataFree w.
Proof. unfold cbdataFree. origin_steps. Qed.
Lemma origin_eventAdd n w : kept stays_origin_free (eventAdd n) w.
Proof. unfold eventAdd. origin_steps. Qed.
Lemma origin_eventDelete w : kept stays_origin_free eventDelete w.
Proof. unfold eventDelete. origin_steps. Qed.
Lemma origin_deref_entry l w : kept stays_origin_free (deref_entry l) w.
Proof. unfold deref_entry. origin_steps. Qed.
#[local] Hint Resolve origin_cbdataFree origin_eventAdd origin_eventDelete
  origin_deref_entry : origins.

Lemma origin_debugs E a b w : kept stays_origin_free (debugs_entry_url E a b) w.
Proof. unfold debugs_entry_url. origin_steps. Qed.
Lemma origin_nbgethostbyname h w :
  kept stays_origin_free (ipcache_nbgethostbyname h) w.
Proof. unfold ipcache_nbgethostbyname. origin_steps. Qed.
Lemma origin_nonBlockingCheck l w : kept stays_origin_free (nonBlockingCheck l) w.
Proof. unfold nonBlockingCheck. origin_steps. Qed.
Lemma origin_ValidDone w : kept stays_origin_free cbdataReferenceValidDone w.
Proof. unfold cbdataReferenceValidDone. origin_steps. Qed.
#[local] Hint Resolve origin_debugs origin_nbgethostbyname origin_nonBlockingCheck
  origin_ValidDone : origins.

Lemma origin_peerSelectStateFree w : kept stays_origin_free peerSelectStateFree w.
Proof. unfold peerSelectStateFree. origin_steps. Qed.
#[local] Hint Resolve origin_peerSelectStateFree : origins.

Lemma origin_peerSelectDnsPaths E w :
  kept stays_origin_free (peerSelectDnsPaths E) w.
Proof. unfold peerSelectDnsPaths. cbv zeta. origin_steps. Qed.
#[local] Hint Resolve origin_peerSelectDnsPaths : origins.

Lemma origin_peerSelectIcpPing E rq d en w :
  kept stays_origin_free (peerSelectIcpPing E rq d en) w.
Proof. unfold peerSelectIcpPing. origin_steps. Qed.
#[local] Hint Resolve origin_peerSelectIcpPing : origins.

Lemma origin_neighbor_done pc w :
  match pc with Some (_, c) => direct_code c = false | None => True end ->
  kept stays_origin_free (neighbor_done pc) w.
Proof.
  intros Hc. unfold neighbor_done. destruct pc as [[p c]|].
  - apply (kept_bind _ stays_origin_free_trans).
    + unfold kept, modify_ps. simpl. intros H. now apply origin_free_add.
    + intros ? ? ?. origin_steps.
  - origin_steps.
Qed.

Lemma origin_peerGetSomeNeighbor E w :
  kept stays_origin_free (peerGetSomeNeighbor E) w.
Proof.
  unfold peerGetSomeNeighbor.
  repeat first [ apply origin_neighbor_done;
                 first [exact I | reflexivity
                       | match goal with |- context[if ?b then _ else _] =>
                           destruct b; reflexivity end]
               | ostep ];
    auto with origins.
Qed.
#[local] Hint Resolve origin_peerGetSomeNeighbor : origins.

Lemma peerCheckNetdbDirect_no E s :
  direct s = DIRECT_NO -> peerCheckNetdbDirect E s = false.
Proof.
  intros H. unfold peerCheckNetdbDirect. rewrite H. simpl.
  now destruct (USE_ICMP E).
Qed.

Lemma origin_peerGetSomeNeighborReplies E w :
  kept stays_origin_free (peerGetSomeNeighborReplies E) w.
Proof.
  unfold kept. intros Hof.
  assert (Hn : peerCheckNetdbDirect E (ps w) = false)
    by (apply peerCheckNetdbDirect_no, Hof).
  revert Hof.
  change (kept stays_origin_free (peerGetSomeNeighborReplies E) w).
  unfold peerGetSomeNeighborReplies.
  apply (kept_bind _ stays_origin_free_trans); [apply origin_deref_entry|].
  intros e w1 H1.
  assert (w1 = w).
  { unfold deref_entry, bind, get_ps, ret, raise in H1.
    destruct (entry (ps w)); now inversion H1. }
  subst w1.
  ostep. ostep. ostep. rewrite Hn. cbv zeta.
  destruct (hit (ps w));
    [destruct (is_parent (hit_type (ps w)))
    |destruct (negb (IsAnyAddr (closest_parent_miss (ps w))));
     [destruct (whichPeer E (closest_parent_miss (ps w)))
     |destruct (negb (IsAnyAddr (first_parent_miss (ps w))));
      [destruct (whichPeer E (first_parent_miss (ps w)))|]]];
    try apply stays_origin_free_refl;
    unfold kept, modify_ps; simpl; intros Hof; apply origin_free_add; auto.
Qed.
#[local] Hint Resolve origin_peerGetSomeNeighborReplies : origins.

Lemma origin_free_peerSelectPinned E s :
  origin_free s -> origin_free (peerSelectPinned E s).
Proof.
  intros Hof. unfold peerSelectPinned.
  assert (Hd : direct_eqb (direct s) DIRECT_NO = true)
    by (apply direct_eqb_eq, Hof).
  rewrite Hd. simpl.
  repeat match goal with
         | |- context[match ?x with _ => _ end] => destruct x
         end; auto.
  apply origin_free_store, origin_free_add; auto.
Qed.

Lemma origin_free_servers s l :
  origin_free s -> Forall via_peer l ->
  origin_free (set_servers (servers s ++ l) s).
Proof.
  intros (Hd & Hs & Hp) Hl. unfold origin_free. simpl. repeat split; auto.
  apply Forall_app. auto.
Qed.

Lemma origin_free_peerGetSomeParent E s :
  origin_free s -> origin_free (peerGetSomeParent E s).
Proof.
  intros Hof. unfold peerGetSomeParent.
  destruct (direct_eqb (direct s) DIRECT_YES); [exact Hof|].
  destruct (some_parent E (request s)) as [[p c]|] eqn:Hsp; [|exact Hof].
  apply origin_free_add; [|exact Hof].
  revert Hsp. unfold some_parent.
  repeat match goal with
         | |- context[match ?x with _ => _ end] => destruct x
         end; intros H; inversion H; reflexivity.
Qed.

Lemma origin_free_peerGetAllParents E s :
  origin_free s -> origin_free (peerGetAllParents E s).
Proof.
  intros Hof. unfold peerGetAllParents. cbv zeta.
  assert (H1 : origin_free (set_servers (all_parents E (request s) (peers E)
                                           (servers s)) s)).
  { rewrite all_parents_app. apply origin_free_servers; [exact Hof|].
    apply Forall_forall. intros f Hin. apply in_map_iff in Hin.
    destruct Hin as (p & <- & _). split; reflexivity. }
  destruct (getDefaultParent E _); [|exact H1].
  now apply origin_free_add.
Qed.

Lemma origin_free_select_by_direct E s :
  origin_free s -> origin_free (select_by_direct E s).
Proof.
  intros Hof. unfold select_by_direct.
  destruct Hof as (Hd & Hr). rewrite Hd.
  apply origin_free_peerGetAllParents, origin_free_peerGetSomeParent.
  split; assumption.
Qed.

Lemma origin_modify_pinned E w :
  kept stays_origin_free (modify_ps (peerSelectPinned E)) w.
Proof. unfold kept, modify_ps. simpl. intros H. now apply origin_free_peerSelectPinned. Qed.

Lemma origin_modify_select E w :
  kept stays_origin_free (modify_ps (select_by_direct E)) w.
Proof. unfold kept, modify_ps. simpl. intros H. now apply origin_free_select_by_direct. Qed.
#[local] Hint Resolve origin_modify_pinned origin_modify_select : origins.

Lemma origin_peerSelectFoo_neighbors E w :
  kept stays_origin_free (peerSelectFoo_neighbors E) w.
Proof. unfold peerSelectFoo_neighbors. origin_steps. Qed.
#[local] Hint Resolve origin_peerSelectFoo_neighbors : origins.

Lemma origin_peerSelectFoo E w : kept stays_origin_free (peerSelectFoo E) w.
Proof.
  unfold kept. intros Hof. revert Hof.
  change (kept stays_origin_free (peerSelectFoo E) w).
  unfold peerSelectFoo. apply kept_get_ps.
  destruct (direct_eqb (direct (ps w)) DIRECT_UNKNOWN) eqn:Hu.
  - apply direct_eqb_eq in Hu. intros (Hd & _). congruence.
  - auto with origins.
Qed.
#[local] Hint Resolve origin_peerSelectFoo : origins.

Lemma origin_first_miss p l w : kept stays_origin_free (first_miss p l) w.
Proof. unfold first_miss. cbv zeta. origin_steps. Qed.
#[local] Hint Resolve origin_first_miss : origins.

Lemma origin_peerHandlePingReply E p t d w :
  kept stays_origin_free (peerHandlePingReply E p t d) w.
Proof.
  unfold peerHandlePingReply, peerHandleIcpReply, peerHandleHtcpReply,
    peerIcpParentMiss, peerHtcpParentMiss, after_reply.
  cbv zeta. origin_steps.
Qed.

Lemma origin_peerCheckAlwaysDirectDone E a w :
  kept stays_origin_free (peerCheckAlwaysDirectDone E a) w.
Proof. unfold peerCheckAlwaysDirectDone. origin_steps. Qed.

Lemma origin_peerCheckNeverDirectDone E a w :
  kept stays_origin_free (peerCheckNeverDirectDone E a) w.
Proof. unfold peerCheckNeverDirectDone. origin_steps. Qed.

Lemma origin_peerPingTimeout E w : kept stays_origin_free (peerPingTimeout E) w.
Proof. unfold peerPingTimeout. origin_steps. Qed.

Lemma origin_free_push c s :
  direct_code (peerType c) = false ->
  origin_free s -> origin_free (set_paths (paths s ++ [c]) s).
Proof.
  intros Hc (Hd & Hs & Hp). unfold origin_free. simpl. repeat split; auto.
  apply Forall_app. split; [exact Hp|]. repeat constructor. exact Hc.
Qed.

(** A destination built for a record that is not the origin's is not the
    origin's either. *)
Lemma origin_dns_loop E ia fs k :
  match fs with Some f => direct_code (code f) = false | None => True end ->
  forall n ip w, kept stays_origin_free (dns_loop E ia fs k n ip) w.
Proof.
  intros Hfs. induction k as [|k IH]; intros n ip w; cbn [dns_loop].
  - apply stays_origin_free_refl.
  - unfold in_addrs_at.
    repeat first [ apply IH | ostep ]; auto with origins.
    all: unfold kept, modify_ps; simpl; intros Hof;
      apply origin_free_push; [exact Hfs | exact Hof].
Qed.
#[local] Hint Resolve origin_dns_loop : origins.

Lemma origin_peerSelectDnsResults E ia w :
  kept stays_origin_free (peerSelectDnsResults E ia) w.
Proof.
  unfold kept. intros Hof.
  assert (Hfs : match hd_error (servers (ps w)) with
                | Some f => direct_code (code f) = false
                | None => True
                end).
  { destruct Hof as (_ & Hs & _). destruct (servers (ps w)); simpl; [exact I|].
    inversion Hs as [|? ? Hv _]. apply Hv. }
  revert Hof.
  change (kept stays_origin_free (peerSelectDnsResults E ia) w).
  unfold peerSelectDnsResults.
  ostep. ostep. simpl servers. cbv zeta. origin_steps.
Qed.

Lemma origin_deliver E ev w : kept stays_origin_free (deliver E ev) w.
Proof.
  unfold kept, deliver. destruct (freed w); [apply stays_origin_free_refl|].
  destruct ev.
  - destruct (acl_pending w && _); [|apply stays_origin_free_refl].
    apply (origin_peerCheckAlwaysDirectDone E answer (with_acl_pending false w)).
  - destruct (acl_pending w && _); [|apply stays_origin_free_refl].
    apply (origin_peerCheckNeverDirectDone E answer (with_acl_pending false w)).
  - destruct (pings_sent w); [|apply stays_origin_free_refl].
    apply origin_peerHandlePingReply.
  - destruct (ping_timer w); [|apply stays_origin_free_refl].
    apply (origin_peerPingTimeout E (with_ping_timer false w)).
  - destruct (dns_pending w) as [|k]; [apply stays_origin_free_refl|].
    apply (origin_peerSelectDnsResults E ia (with_dns_pending k w)).
  - intros H. exact H.
  - intros H. exact H.
Qed.

(** X6.  Once [direct] is [DIRECT_NO], it
    stays so, and whatever events arrive no record and no destination for
    the origin server is added: every record in [servers] names a peer,
    under a code other than [HIER_DIRECT] and [CLOSEST_DIRECT], and no
    destination in [paths] carries one of these codes. *)
Theorem never_direct_excludes_origin (E : Env) (evs : list event) :
  forall w,
    direct (ps w) = DIRECT_NO ->
    Forall via_peer (servers (ps w)) ->
    Forall (fun c => direct_code (peerType c) = false) (paths (ps w)) ->
    direct (ps (world_of (run E evs w))) = DIRECT_NO
    /\ Forall via_peer (servers (ps (world_of (run E evs w))))
    /\ Forall (fun c => direct_code (peerType c) = false)
         (paths (ps (world_of (run E evs w)))).
Proof.
  induction evs as [|ev evs IH]; intros w Hd Hs Hp; cbn [run].
  - simpl. auto.
  - pose proof (origin_deliver E ev w (conj Hd (conj Hs Hp))) as H1.
    unfold bind. destruct (deliver E ev w) as [[] w1|f w1]; simpl in H1.
    + destruct H1 as (H1 & H2 & H3). now apply IH.
    + exact H1.
Qed.


Lemma never_direct_excludes_origin_witness :
  direct (ps (world_of (run (site 10 1 0 false (Some P1))
                          [DnsResults (Some rotation_ia); DnsResults None]
                          accel_start))) = DIRECT_NO
  /\ Forall via_peer
       (servers (ps (world_of (run (site 10 1 0 false (Some P1))
                                 [DnsResults (Some rotation_ia); DnsResults None]
                                 accel_start))))
  /\ Forall (fun c => direct_code (peerType c) = false)
       (paths (ps (world_of (run (site 10 1 0 false (Some P1))
                               [DnsResults (Some rotation_ia); DnsResults None]
                               accel_start)))).
Proof.
  apply (never_direct_excludes_origin (site 10 1 0 false (Some P1))
           [DnsResults (Some rotation_ia); DnsResults None] accel_start).
  - vm_compute. reflexivity.
  - vm_compute. repeat constructor.
  - vm_compute. constructor.
Defined.

(** ** Waiting for replies *)

Lemma stays_armed_refl w : stays_armed w w.
Proof. intros H; exact H. Qed.

Lemma stays_armed_trans a b c :
  stays_armed a b -> stays_armed b c -> stays_armed a c.
Proof. unfold stays_armed. auto. Qed.

Lemma armed_same w w' :
  entry (ps w') = entry (ps w) -> ping_timer w' = ping_timer w ->
  direct (ps w') = direct (ps w) -> armed w -> armed w'.
Proof. unfold armed. intros -> -> ->. auto. Qed.

Lemma armed_settled w : settled (ps w) -> armed w.
Proof.
  unfold settled, armed. intros Hs e He Hw. rewrite He in Hs. congruence.
Qed.

Lemma armed_done f w :
  armed (with_ps (store_ping_status PING_DONE (f (ps w))) w).
Proof. apply armed_settled. simpl. apply settled_store_done. Qed.

Lemma armed_timer_on w w' :
  entry (ps w') = entry (ps w) -> ping_timer w' = true ->
  direct (ps w') = direct (ps w) -> armed w -> armed w'.
Proof.
  unfold armed. intros He Ht Hd H e H1 H2. rewrite He in H1.
  destruct (H e H1 H2) as (_ & A & B). rewrite Hd. auto.
Qed.

Ltac armed_pure :=
  unfold stays_armed; simpl; intros;
  first [ assumption
        | apply (armed_done (fun s => s))
        | eapply armed_same; [| | |eassumption]; reflexivity
        | eapply armed_timer_on; [| | |eassumption]; reflexivity ].

Ltac astep := kstep stays_armed_refl stays_armed_trans ltac:(solve [armed_pure]).
Create HintDb armeds discriminated.
Ltac armed_steps := repeat astep; auto with armeds.

Lemma armed_cbdataFree w : kept stays_armed cbdataFree w.
Proof. unfold cbdataFree. armed_steps. Qed.
Lemma armed_eventAdd n w : kept stays_armed (eventAdd n) w.
Proof. unfold eventAdd. armed_steps. Qed.
Lemma armed_deref_entry l w : kept stays_armed (deref_entry l) w.
Proof. unfold deref_entry. armed_steps. Qed.
#[local] Hint Resolve armed_cbdataFree armed_eventAdd armed_deref_entry : armeds.

Lemma armed_debugs E a b w : kept stays_armed (debugs_entry_url E a b) w.
Proof. unfold debugs_entry_url. armed_steps. Qed.
Lemma armed_nbgethostbyname h w : kept stays_armed (ipcache_nbgethostbyname h) w.
Proof. unfold ipcache_nbgethostbyname. armed_steps. Qed.
Lemma armed_nonBlockingCheck l w : kept stays_armed (nonBlockingCheck l) w.
Proof. unfold nonBlockingCheck. armed_steps. Qed.
Lemma armed_ValidDone w : kept stays_armed cbdataReferenceValidDone w.
Proof. unfold cbdataReferenceValidDone. armed_steps. Qed.
#[local] Hint Resolve armed_debugs armed_nbgethostbyname armed_nonBlockingCheck
  armed_ValidDone : armeds.

(** Released, there is no entry left to wait on. *)
Lemma peerSelectStateFree_entry w :
  entry (ps (world_of (peerSelectStateFree w))) = None.
Proof.
  unfold peerSelectStateFree, cbdataFree, eventDelete, when, assert.
  unfold bind, get_ps, modify_ps, emit, ret, raise. simpl.
  destruct (entry (ps w)) as [e|] eqn:He; simpl.
  - destruct (ping_status_eqb (ping_status e) PING_WAITING); simpl;
      unfold store_ping_status; simpl; rewrite He; simpl;
      destruct (is_some (acl_checklist (ps w))); simpl; reflexivity.
  - rewrite ?He. destruct (is_some (acl_checklist (ps w))); simpl;
      rewrite ?He; simpl; exact He.
Qed.

Lemma armed_peerSelectStateFree w : kept stays_armed peerSelectStateFree w.
Proof.
  unfold kept. intros _ e H. rewrite peerSelectStateFree_entry in H. discriminate.
Qed.
#[local] Hint Resolve armed_peerSelectStateFree : armeds.

Lemma armed_peerSelectDnsPaths E w : kept stays_armed (peerSelectDnsPaths E) w.
Proof. unfold peerSelectDnsPaths. cbv zeta. armed_steps. Qed.
#[local] Hint Resolve armed_peerSelectDnsPaths : armeds.

Lemma direct_store_ping_status st s :
  direct (store_ping_status st s) = direct s.
Proof. unfold store_ping_status. destruct (entry s); reflexivity. Qed.

Lemma armed_peerSelectIcpPing E rq d en w :
  kept stays_armed (peerSelectIcpPing E rq d en) w.
Proof. unfold peerSelectIcpPing. armed_steps. Qed.
#[local] Hint Resolve armed_peerSelectIcpPing : armeds.

Lemma armed_neighbor_done pc w : kept stays_armed (neighbor_done pc) w.
Proof.
  unfold neighbor_done. destruct pc as [[p c]|].
  - apply (kept_bind _ stays_armed_trans).
    + unfold kept, modify_ps. simpl. intros H.
      eapply armed_same; [| | |exact H]; reflexivity.
    + intros ? ? ?. unfold kept, modify_ps. simpl. intros _.
      apply (armed_done (fun s => s)).
  - unfold kept, bind, ret, modify_ps. simpl. intros _.
    apply (armed_done (fun s => s)).
Qed.
#[local] Hint Resolve armed_neighbor_done : armeds.

(** The one place that starts to wait: the timer is queued in the same
    breath, and [direct] is not [DIRECT_YES] there. *)
Lemma armed_peerGetSomeNeighbor E w :
  direct (ps w) <> DIRECT_UNKNOWN ->
  kept stays_armed (peerGetSomeNeighbor E) w.
Proof.
  intros Hu. unfold peerGetSomeNeighbor.
  apply (kept_bind _ stays_armed_trans); [apply armed_deref_entry|].
  intros e w1 H1.
  assert (w1 = w /\ entry (ps w) = Some e) as [-> He].
  { unfold deref_entry, bind, get_ps, ret, raise in H1.
    destruct (entry (ps w)); inversion H1; auto. }
  astep. astep.
  destruct (direct_eqb (direct (ps w)) DIRECT_YES) eqn:Hy; [armed_steps|].
  assert (Hy' : direct (ps w) <> DIRECT_YES).
  { intros Hyes. apply direct_eqb_eq in Hyes. congruence. }
  destruct (if USE_CACHE_DIGESTS E then _ else None); [armed_steps|].
  destruct (netdbClosestParent E (request (ps w))); [armed_steps|].
  apply (kept_bind _ stays_armed_trans); [apply armed_peerSelectIcpPing|].
  intros n w2 H2.
  assert (w2 = w) as ->.
  { unfold peerSelectIcpPing in H2. rewrite He in H2.
    unfold bind, assert, ret, raise in H2.
    repeat match type of H2 with
           | context[if ?b then _ else _] => destruct b
           end; now inversion H2. }
  destruct (negb (n =? 0)); [|armed_steps].
  unfold kept, stays_armed. intros Harm.
  unfold bind, get_time, modify_ps, emit.
  destruct (neighborsUdpPing E (request (ps w)) e) as [[sent expected] tmo].
  destruct (0 <? expected).
  - unfold eventAdd, bind, modify_ps, emit. simpl.
    intros e' _ _. simpl. rewrite direct_store_ping_status. simpl. auto.
  - unfold neighbor_done, bind, ret, modify_ps. simpl.
    apply armed_settled. simpl. apply settled_store_done.
Qed.

Lemma armed_peerGetSomeNeighborReplies E w :
  kept stays_armed (peerGetSomeNeighborReplies E) w.
Proof. unfold peerGetSomeNeighborReplies. armed_steps. Qed.
#[local] Hint Resolve armed_peerGetSomeNeighborReplies : armeds.

Lemma direct_peerSelectPinned E s : direct (peerSelectPinned E s) = direct s.
Proof. destruct (frame_ps_peerSelectPinned E s) as (_ & _ & _ & H).
  destruct (direct s) eqn:Hd.
  - unfold peerSelectPinned.
    repeat match goal with
           | |- context[match ?x with _ => _ end] => destruct x
           end; rewrite ?direct_store_ping_status; simpl; auto.
  - apply H. discriminate.
  - apply H. discriminate.
  - apply H. discriminate.
Qed.

Lemma armed_pinned E w : armed w -> armed (with_ps (peerSelectPinned E (ps w)) w).
Proof.
  intros Harm. unfold peerSelectPinned.
  repeat match goal with
         | |- context[match ?x with _ => _ end] => destruct x
         end;
    first [ apply (armed_done (add_server _ PINNED))
          | eapply armed_same; [| | |exact Harm]; reflexivity ].
Qed.

Lemma armed_modify_pinned E w : kept stays_armed (modify_ps (peerSelectPinned E)) w.
Proof. unfold kept, modify_ps. simpl. intros H. now apply armed_pinned. Qed.

Lemma armed_modify_select E w : kept stays_armed (modify_ps (select_by_direct E)) w.
Proof.
  unfold kept, modify_ps. simpl. intros H.
  destruct (plain_ext_select_by_direct E (ps w)) as (He & _ & _ & Hd & _).
  eapply armed_same; [| | |exact H]; simpl; auto.
Qed.
#[local] Hint Resolve armed_modify_pinned armed_modify_select : armeds.

#[local] Hint Extern 1 (kept stays_armed (peerGetSomeNeighbor _) _) =>
  apply armed_peerGetSomeNeighbor;
  repeat match goal with
         | H : modify_ps _ _ = Ret _ _ |- _ =>
             unfold modify_ps in H; inversion H; subst; clear H
         end;
  simpl; rewrite ?direct_peerSelectPinned; assumption : armeds.

Lemma armed_peerSelectFoo_neighbors E w :
  direct (ps w) <> DIRECT_UNKNOWN ->
  kept stays_armed (peerSelectFoo_neighbors E) w.
Proof. intros Hu. unfold peerSelectFoo_neighbors. armed_steps. Qed.

Lemma arbiter_decided E s d : arbiter E s = Decided d -> d <> DIRECT_UNKNOWN.
Proof.
  unfold arbiter.
  repeat match goal with
         | |- context[if ?b then _ else _] => destruct b
         end; intros H; inversion H; discriminate.
Qed.

Lemma armed_peerSelectFoo E w : kept stays_armed (peerSelectFoo E) w.
Proof.
  unfold peerSelectFoo. apply kept_get_ps.
  destruct (direct_eqb (direct (ps w)) DIRECT_UNKNOWN) eqn:Hu.
  - apply direct_eqb_eq in Hu.
    destruct (arbiter E (ps w)) as [l|d] eqn:Ha; [armed_steps|].
    apply (kept_bind _ stays_armed_trans).
    + unfold kept, modify_ps. simpl. intros Harm e He Hw.
      destruct (Harm e He Hw) as (_ & Hx & _). contradiction.
    + intros [] w1 H1. unfold modify_ps in H1. inversion H1; subst w1.
      apply armed_peerSelectFoo_neighbors. simpl.
      apply (arbiter_decided E _ _ Ha).
  - apply armed_peerSelectFoo_neighbors. intros H.
    apply direct_eqb_eq in H. congruence.
Qed.
#[local] Hint Resolve armed_peerSelectFoo : armeds.

Lemma armed_first_miss p l w : kept stays_armed (first_miss p l) w.
Proof. unfold first_miss. cbv zeta. armed_steps. Qed.
#[local] Hint Resolve armed_first_miss : armeds.

Lemma armed_peerHandlePingReply E p t d w :
  kept stays_armed (peerHandlePingReply E p t d) w.
Proof.
  unfold peerHandlePingReply, peerHandleIcpReply, peerHandleHtcpReply,
    peerIcpParentMiss, peerHtcpParentMiss, after_reply.
  cbv zeta. armed_steps.
Qed.

Lemma armed_peerCheckAlwaysDirectDone E a w :
  kept stays_armed (peerCheckAlwaysDirectDone E a) w.
Proof. unfold peerCheckAlwaysDirectDone. armed_steps. Qed.

Lemma armed_peerCheckNeverDirectDone E a w :
  kept stays_armed (peerCheckNeverDirectDone E a) w.
Proof. unfold peerCheckNeverDirectDone. armed_steps. Qed.

Lemma armed_peerPingTimeout E w : kept stays_armed (peerPingTimeout E) w.
Proof. unfold peerPingTimeout. armed_steps. Qed.

Lemma armed_dns_loop E ia fs k :
  forall n ip w, kept stays_armed (dns_loop E ia fs k n ip) w.
Proof.
  induction k as [|k IH]; intros n ip w; cbn [dns_loop].
  - apply stays_armed_refl.
  - unfold in_addrs_at. armed_steps.
Qed.
#[local] Hint Resolve armed_dns_loop : armeds.

Lemma armed_peerSelectDnsResults E ia w :
  kept stays_armed (peerSelectDnsResults E ia) w.
Proof. unfold peerSelectDnsResults. armed_steps. Qed.

(** Once the entry is [PING_DONE], the switch and the DNS stage leave it
    so. *)
Lemma settled_select_dns E s w :
  settled s ->
  settled (ps (world_of (peerSelectDnsPaths E (with_ps (select_by_direct E s) w)))).
Proof.
  intros Hs.
  destruct (dns_frame_peerSelectDnsPaths E (with_ps (select_by_direct E s) w))
    as (_ & _ & _ & Hset).
  destruct (plain_ext_select_by_direct E s) as (Pe & _).
  apply Hset. simpl. unfold settled in *. now rewrite Pe.
Qed.

(** Re-entered while the entry waits, [peerSelectFoo] runs the reply
    aggregator and leaves the entry [PING_DONE]. *)
Lemma waiting_foo_settles E w e :
  entry (ps w) = Some e -> ping_status e = PING_WAITING ->
  direct (ps w) <> DIRECT_UNKNOWN -> direct (ps w) <> DIRECT_YES ->
  settled (ps (world_of (peerSelectFoo E w))).
Proof.
  intros He Hst Hu Hy.
  assert (Hu' : direct_eqb (direct (ps w)) DIRECT_UNKNOWN = false).
  { destruct (direct_eqb (direct (ps w)) DIRECT_UNKNOWN) eqn:H; auto.
    apply direct_eqb_eq in H. contradiction. }
  assert (Hy' : direct_eqb (direct (ps w)) DIRECT_YES = false).
  { destruct (direct_eqb (direct (ps w)) DIRECT_YES) eqn:H; auto.
    apply direct_eqb_eq in H. contradiction. }
  unfold peerSelectFoo. unfold bind at 1, get_ps at 1. rewrite Hu'.
  unfold peerSelectFoo_neighbors, peerGetSomeNeighborReplies.
  unfold when, deref_entry, assert.
  unfold bind, get_ps, modify_ps, ret, raise.
  simpl. repeat (progress (rewrite ?He, ?Hst, ?Hy'; simpl)).
  destruct (peerCheckNetdbDirect E (ps w)); simpl.
  { apply settled_select_dns, settled_store_done. }
  destruct (hit (ps w));
    [destruct (is_parent (hit_type (ps w)))
    |destruct (negb (IsAnyAddr (closest_parent_miss (ps w))));
     [destruct (whichPeer E (closest_parent_miss (ps w)))
     |destruct (negb (IsAnyAddr (first_parent_miss (ps w))));
      [destruct (whichPeer E (first_parent_miss (ps w)))|]]];
    simpl; apply settled_select_dns, settled_store_done.
Qed.

Lemma waiting_timeout_settles E w e :
  entry (ps w) = Some e -> ping_status e = PING_WAITING ->
  direct (ps w) <> DIRECT_UNKNOWN -> direct (ps w) <> DIRECT_YES ->
  settled (ps (world_of (peerPingTimeout E w))).
Proof.
  intros He Hst Hu Hy. unfold peerPingTimeout.
  unfold bind at 1, cbdataReferenceValid at 1.
  destruct (cb_valid w); cbn [negb].
  - unfold bind at 1. unfold bind at 1, modify_ps at 1.
    now apply (waiting_foo_settles E _ e).
  - unfold deref_entry, bind, get_ps, modify_ps, ret, raise. rewrite He.
    match goal with
    | |- settled (ps (world_of (peerSelectStateFree ?w1))) =>
        unfold settled; now rewrite (peerSelectStateFree_entry w1)
    end.
Qed.

Lemma armed_deliver E ev w : kept stays_armed (deliver E ev) w.
Proof.
  unfold kept, deliver. destruct (freed w); [apply stays_armed_refl|].
  destruct ev.
  - destruct (acl_pending w && _); [|apply stays_armed_refl].
    intros H. apply (armed_peerCheckAlwaysDirectDone E answer (with_acl_pending false w)).
    eapply armed_same; [| | |exact H]; reflexivity.
  - destruct (acl_pending w && _); [|apply stays_armed_refl].
    intros H. apply (armed_peerCheckNeverDirectDone E answer (with_acl_pending false w)).
    eapply armed_same; [| | |exact H]; reflexivity.
  - destruct (pings_sent w); [|apply stays_armed_refl].
    apply armed_peerHandlePingReply.
  - destruct (ping_timer w) eqn:Ht; [|apply stays_armed_refl].
    intros Harm.
    destruct (entry (ps w)) as [e|] eqn:He.
    + destruct (ping_status e) eqn:Hst.
      * apply (armed_peerPingTimeout E (with_ping_timer false w)).
        intros e' He' Hw. simpl in He'. congruence.
      * destruct (Harm e He Hst) as (_ & Hu & Hy).
        apply armed_settled.
        apply (waiting_timeout_settles E (with_ping_timer false w) e); auto.
      * apply (armed_peerPingTimeout E (with_ping_timer false w)).
        intros e' He' Hw. simpl in He'. congruence.
    + apply (armed_peerPingTimeout E (with_ping_timer false w)).
      intros e' He' Hw. simpl in He'. congruence.
  - destruct (dns_pending w) as [|k]; [apply stays_armed_refl|].
    intros H. apply (armed_peerSelectDnsResults E ia (with_dns_pending k w)).
    eapply armed_same; [| | |exact H]; reflexivity.
  - intros H. eapply armed_same; [| | |exact H]; reflexivity.
  - intros H. eapply armed_same; [| | |exact H]; reflexivity.
Qed.

Lemma armed_run E evs : forall w, kept stays_armed (run E evs) w.
Proof.
  induction evs as [|ev evs IH]; intros w; cbn [run].
  - apply stays_armed_refl.
  - apply (kept_bind _ stays_armed_trans); [apply armed_deliver|].
    intros a w' _. apply IH.
Qed.

(** X5.  A selection started by [peerSelect]
    on an entry that is not already [PING_WAITING] never waits without a
    way out: after whatever events, if its entry is [PING_WAITING] then
    the [peerPingTimeout] event is queued, and [direct] is decided and
    not [DIRECT_YES], so that the timeout, when it fires, runs the reply
    aggregator past its assertions. *)
Theorem waiting_selection_has_timer (E : Env) (pths : list Connection)
    (rq : HttpRequest) (en : option StoreEntry) (now : Z) (evs : list event)
    (e : StoreEntry) :
  match en with
  | Some e0 => ping_status e0 <> PING_WAITING
  | None => True
  end ->
  entry (ps (world_of (selection E pths rq en now evs))) = Some e ->
  ping_status e = PING_WAITING ->
  ping_timer (world_of (selection E pths rq en now evs)) = true
  /\ direct (ps (world_of (selection E pths rq en now evs))) <> DIRECT_UNKNOWN
  /\ direct (ps (world_of (selection E pths rq en now evs))) <> DIRECT_YES.
Proof.
  intros Hen.
  assert (H0 : armed (world_of (peerSelect E pths rq en now))).
  { unfold peerSelect.
    assert (Hk : kept stays_armed
                   (emit RequestLock ;; when (is_some en) (emit EntryLock) ;;
                    peerSelectFoo E) (new_world pths rq en now))
      by armed_steps.
    apply Hk. intros e' He' Hw. simpl in He'. subst en. contradiction. }
  assert (H1 : armed (world_of (selection E pths rq en now evs))).
  { unfold selection.
    destruct (peerSelect E pths rq en now) as [[] w1|f w1]; simpl in H0.
    - apply (armed_run E evs w1 H0).
    - exact H0. }
  apply H1.
Qed.

Lemma waiting_selection_has_timer_witness :
  ping_timer (world_of (selection (site 10 1 0 false None) [] pinged_request
                          (Some (fresh_entry 0)) 0
                          [PingReply P1 PEER_PARENT icp_miss])) = true.
Proof.
  apply (waiting_selection_has_timer (site 10 1 0 false None) [] pinged_request
           (Some (fresh_entry 0)) 0 [PingReply P1 PEER_PARENT icp_miss]
           (mkEntry "http://origin.example/" PING_WAITING 0)).
  - discriminate.
  - vm_compute. reflexivity.
  - reflexivity.
Defined.

(** ** The DNS stage, on a selection *)

Lemma dns_stage_calls_back_once_witness :
  exists w',
    run (site 10 1 0 false None) (map DnsResults [Some rotation_ia]) rotation_start
    = Ret tt w'
    /\ freed w' = true
    /\ callbacks (trace w') = 1%nat.
Proof.
  destruct (dns_stage_calls_back_once (site 10 1 0 false None) [Some rotation_ia]
              eq_refl rotation_start)
    as (w' & H1 & H2 & H3).
  - unfold dns_stage. vm_compute. repeat split; discriminate.
  - repeat constructor; simpl; lia.
  - vm_compute. lia.
  - exists w'. split; [exact H1|]. split; [exact H2|]. exact H3.
Defined.

(** ** Finalizing on what has arrived *)

Lemma direct_eqb_neq a b : a <> b -> direct_eqb a b = false.
Proof.
  intros H. destruct (direct_eqb a b) eqn:Hab; [|reflexivity].
  apply direct_eqb_eq in Hab. contradiction.
Qed.

Lemma waiting_foo_finalizes E w e :
  entry (ps w) = Some e -> ping_status e = PING_WAITING ->
  direct (ps w) <> DIRECT_UNKNOWN -> direct (ps w) <> DIRECT_YES ->
  peerSelectFoo E w = peerSelectDnsPaths E (with_ps (finalized E (ps w)) w).
Proof.
  intros He Hst Hu Hy.
  pose proof (direct_eqb_neq _ _ Hu) as Hu'.
  pose proof (direct_eqb_neq _ _ Hy) as Hy'.
  unfold peerSelectFoo. unfold bind at 1, get_ps at 1. rewrite Hu'.
  unfold peerSelectFoo_neighbors, peerGetSomeNeighborReplies, finalized, reply_choice.
  unfold when, deref_entry, assert.
  unfold bind, get_ps, modify_ps, ret, raise.
  simpl. repeat (progress (rewrite ?He, ?Hst, ?Hy'; simpl)).
  destruct (peerCheckNetdbDirect E (ps w)); simpl; [reflexivity|].
  destruct (hit (ps w));
    [destruct (is_parent (hit_type (ps w)))
    |destruct (negb (IsAnyAddr (closest_parent_miss (ps w))));
     [destruct (whichPeer E (closest_parent_miss (ps w)))
     |destruct (negb (IsAnyAddr (first_parent_miss (ps w))));
      [destruct (whichPeer E (first_parent_miss (ps w)))|]]];
    simpl; rewrite ?app_nil_r, ?set_servers_same; reflexivity.
Qed.

(** X16.  The timeout fires while the entry waits and the
    caller is still there ([direct] decided and not [DIRECT_YES]).
    [peerPingTimeout] counts the timeout in [PeerStats.timeouts], sets
    [timedout], and [peerSelectFoo] finalizes on what has arrived: the
    aggregator appends its record by its order of preference (the origin
    if the net-db direct check succeeds, else the hit, else the parent of
    the closest miss, else the parent of the first miss), the entry goes
    to [PING_DONE], the switch on [direct] appends its records, and the
    DNS stage starts. *)
Theorem timeout_finalizes (E : Env) (w : world) (e : StoreEntry) :
  freed w = false -> ping_timer w = true -> cb_valid w = true ->
  entry (ps w) = Some e -> ping_status e = PING_WAITING ->
  direct (ps w) <> DIRECT_UNKNOWN -> direct (ps w) <> DIRECT_YES ->
  deliver E PingTimeout w =
  peerSelectDnsPaths E
    (with_ps (finalized E (set_ping (set_timedout 1 (ping (ps w))) (ps w)))
       (with_PeerStats_timeouts (PeerStats_timeouts w + 1)
          (with_ping_timer false w))).
Proof.
  intros Hf Ht Hv He Hst Hu Hy.
  unfold deliver. rewrite Hf, Ht.
  unfold peerPingTimeout. unfold bind at 1, cbdataReferenceValid at 1.
  change (cb_valid (with_ping_timer false w)) with (cb_valid w).
  rewrite Hv. cbn [negb].
  unfold bind at 1. unfold bind at 1, modify_ps at 1.
  rewrite (waiting_foo_finalizes E _ e) by (simpl; auto). reflexivity.
Qed.

Lemma timeout_finalizes_witness :
  deliver (site 10 1 0 false None) PingTimeout (pinged_start (site 10 1 0 false None)) =
  peerSelectDnsPaths (site 10 1 0 false None)
    (with_ps (finalized (site 10 1 0 false None)
                (set_ping (set_timedout 1
                             (ping (ps (pinged_start (site 10 1 0 false None)))))
                   (ps (pinged_start (site 10 1 0 false None)))))
       (with_PeerStats_timeouts
          (PeerStats_timeouts (pinged_start (site 10 1 0 false None)) + 1)
          (with_ping_timer false (pinged_start (site 10 1 0 false None))))).
Proof.
  apply (timeout_finalizes (site 10 1 0 false None)
           (pinged_start (site 10 1 0 false None))
           (mkEntry "http://origin.example/" PING_WAITING 0)).
  - reflexivity.
  - reflexivity.
  - reflexivity.
  - reflexivity.
  - reflexivity.
  - vm_compute. discriminate.
  - vm_compute. discriminate.
Defined.

(** X17.  The reply that brings [n_recv] up to
    [n_replies_expected] finalizes in the same way, without waiting for
    the timeout: shown for a reply that is itself only counted (not a
    HIT, not a parent's MISS or DECHO). *)
Theorem last_reply_finalizes (E : Env) (w : world) (e : StoreEntry) (p : peer)
    (t : peer_t) (h : icp_common_t) :
  freed w = false -> pings_sent w = true ->
  entry (ps w) = Some e -> ping_status e = PING_WAITING ->
  direct (ps w) <> DIRECT_UNKNOWN -> direct (ps w) <> DIRECT_YES ->
  opcode h <> ICP_HIT ->
  is_parent t && miss_opcode (opcode h) = false ->
  n_replies_expected (ping (ps w)) <= n_recv (ping (ps w)) + 1 ->
  deliver E (PingReply p t (IcpData h)) w =
  peerSelectDnsPaths E (with_ps (finalized E (count_reply (ps w))) w).
Proof.
  intros Hf Hs He Hst Hu Hy Hh Hm Hn.
  unfold deliver. rewrite Hf, Hs.
  unfold peerHandlePingReply, peerHandleIcpReply.
  assert (Hdbg : debugs_entry_url E 3 722 w = Ret tt w).
  { unfold debugs_entry_url. destruct (debugs_on E 44 3); [|reflexivity].
    unfold bind, deref_entry, bind, get_ps. now rewrite He. }
  unfold bind at 1. rewrite Hdbg.
  unfold bind at 1, modify_ps at 1.
  assert (Hafter : after_reply E (with_ps (count_reply (ps w)) w)
                   = peerSelectDnsPaths E
                       (with_ps (finalized E (count_reply (ps w))) w)).
  { unfold after_reply. unfold bind at 1, get_ps at 1.
    assert (Hge : (n_recv (ping (ps (with_ps (count_reply (ps w)) w)))
                   <? n_replies_expected (ping (ps (with_ps (count_reply (ps w)) w))))
                  = false) by (apply Z.ltb_ge; simpl; lia).
    rewrite Hge.
    rewrite (waiting_foo_finalizes E (with_ps (count_reply (ps w)) w) e)
      by (simpl; auto).
    reflexivity. }
  destruct (opcode h) eqn:Ho; try congruence; try exact Hafter;
    destruct t; simpl in Hm; try discriminate;
    unfold when; simpl; unfold bind at 1, ret at 1; exact Hafter.
Qed.

Lemma last_reply_finalizes_witness :
  deliver (site 10 1 0 false None)
    (PingReply P3 PEER_SIBLING (IcpData (mkIcp ICP_MISS 0 0))) two_misses_world =
  peerSelectDnsPaths (site 10 1 0 false None)
    (with_ps (finalized (site 10 1 0 false None)
                (count_reply (ps two_misses_world))) two_misses_world).
Proof.
  apply (last_reply_finalizes (site 10 1 0 false None) two_misses_world
           (mkEntry "http://origin.example/" PING_WAITING 0)
           P3 PEER_SIBLING (mkIcp ICP_MISS 0 0)).
  - vm_compute. reflexivity.
  - vm_compute. reflexivity.
  - vm_compute. reflexivity.
  - reflexivity.
  - vm_compute. discriminate.
  - vm_compute. discriminate.
  - discriminate.
  - reflexivity.
  - vm_compute. discriminate.
Defined.

(** With two parent misses on record and no closest one, the third
    reply, a sibling's, settles on the first parent miss. *)
Example last_reply_choice :
  reply_choice (site 10 1 0 false None) (count_reply (ps two_misses_world))
  = [mkFwd (Some P1) FIRST_PARENT_MISS].
Proof. vm_compute. reflexivity. Qed.

(** ** What the caller is handed *)

Lemma peerSelectStateFree_trace w :
  exists w',
    peerSelectStateFree w = Ret tt w' /\ freed w' = true
    /\ trace w' = trace w ++ released_effects (ps w)
    /\ hier_ping w' = hier_ping w.
Proof.
  unfold peerSelectStateFree, released_effects, cbdataFree, eventDelete, when, assert.
  unfold bind, get_ps, modify_ps, emit, ret, raise. simpl.
  destruct (entry (ps w)) as [e|] eqn:He; simpl.
  - destruct (ping_status_eqb (ping_status e) PING_WAITING); simpl;
      unfold store_ping_status; simpl; rewrite He; simpl;
      destruct (is_some (acl_checklist (ps w))); simpl;
      eexists; (split; [reflexivity|]); simpl;
      rewrite <- ?app_assoc; simpl; repeat split; reflexivity.
  - rewrite ?He. destruct (is_some (acl_checklist (ps w))); simpl;
      rewrite ?He; eexists; (split; [reflexivity|]); simpl;
      rewrite <- ?app_assoc; simpl; repeat split; auto.
Qed.

(** The end of [peerSelectDnsPaths] for a valid caller: what the callback
    is given, and what is left behind. *)
Lemma dns_paths_hands_over E w :
  more_lookups E (ps w) = false -> callback (ps w) = true ->
  entry (ps w) <> None -> cb_valid w = true ->
  exists w' t,
    peerSelectDnsPaths E w = Ret tt w' /\ freed w' = true
    /\ trace w' = trace w ++ Callback (paths (ps w)) :: t
    /\ callbacks t = O
    /\ hier_ping w' = set_stop (current_time w) (ping (ps w)).
Proof.
  intros Hm Hcb He Hv. unfold more_lookups in Hm.
  unfold peerSelectDnsPaths. unfold bind at 1, get_ps at 1.
  assert (Hfs : match servers (ps w) with
                | f :: _ =>
                    if Z.of_nat (length (paths (ps w)))
                       <? to_unsigned (forward_max_tries E)
                    then Some f else None
                | [] => None
                end = None)
    by (destruct (servers (ps w)); [reflexivity | now rewrite Hm]).
  rewrite Hfs. cbv zeta. rewrite Hcb.
  unfold bind at 1, modify_ps at 1.
  set (w1 := with_ps (set_callback false (ps w)) w).
  assert (Hdbg : forall a b, debugs_entry_url E a b w1 = Ret tt w1).
  { intros a b. unfold debugs_entry_url. destruct (debugs_on E 44 a); [|reflexivity].
    unfold bind, deref_entry, bind, get_ps. subst w1. simpl.
    destruct (entry (ps w)); [reflexivity | congruence]. }
  unfold bind at 1.
  replace ((if Z.of_nat (length (paths (ps w))) <? 1
            then debugs_entry_url E (DBG_IMPORTANT E) 213
            else debugs_entry_url E 2 218) w1) with (Ret tt w1)
    by (destruct (_ <? 1); now rewrite Hdbg).
  unfold bind at 1, get_time at 1. unfold bind at 1, modify_ps at 1.
  unfold bind at 1. unfold bind at 1.
  unfold cbdataReferenceValidDone at 1. unfold bind at 1.
  unfold cbdataReferenceValid at 1. unfold bind at 1, modify_ps at 1.
  unfold ret at 1. cbv iota beta.
  change (cb_valid (with_hier_ping
            (ping (ps (with_ps (set_ping (set_stop (current_time w1) (ping (ps w1))) (ps w1)) w1)))
            (with_ps (set_ping (set_stop (current_time w1) (ping (ps w1))) (ps w1)) w1)))
    with (cb_valid w).
  rewrite Hv. unfold when.
  unfold bind at 1. unfold bind at 1, get_ps at 1, emit at 1.
  match goal with
  | |- exists w' t, peerSelectStateFree ?w4 = _ /\ _ =>
      destruct (peerSelectStateFree_trace w4) as (w' & Hr & Hf & Ht & Hh);
      exists w', (released_effects (ps w4))
  end.
  rewrite Hr, Ht, Hh. simpl. rewrite <- app_assoc. simpl.
  repeat split; auto.
  unfold released_effects. simpl.
  destruct (entry (ps w)) as [e|]; simpl;
    [destruct (ping_status_eqb (ping_status e) PING_WAITING)|];
    destruct (is_some (acl_checklist (ps w))); reflexivity.
Qed.

Lemma answered_fields E s ia :
  entry (answered E s ia) = entry s /\ callback (answered E s ia) = callback s
  /\ request (answered E s ia) = request s /\ ping (answered E s ia) = ping s
  /\ servers (answered E s ia) = tl (servers s).
Proof.
  unfold answered. destruct (servers s) eqn:Hs; simpl; rewrite ?Hs; auto.
Qed.

Lemma dns_answer_runs E w ia f rest :
  debugs_on E 44 3 = false ->
  servers (ps w) = f :: rest -> answer_ok ia ->
  peerSelectDnsResults E ia w =
  peerSelectDnsPaths E
    (with_ps (answered E (ps w) ia) (with_trace (trace w ++ [RecordLookup]) w)).
Proof.
  intros Hd Hs Hia.
  unfold peerSelectDnsResults, answered. unfold bind at 1, emit at 1.
  unfold bind at 1, get_ps at 1. simpl servers. rewrite Hs. simpl hd_error.
  set (w1 := with_trace (trace w ++ [RecordLookup]) w).
  destruct ia as [a|].
  - destruct Hia as [Hc Hl].
    unfold bind at 1. unfold bind at 1, assert at 1.
    apply Z.ltb_lt in Hc. rewrite Hc. unfold ret at 1.
    pose proof (dns_loop_destinations E a f (in_addrs a) [] [] (cur a) w1) as Hloop.
    rewrite <- Hl in Hloop. simpl in Hloop.
    rewrite Hloop by (now rewrite app_nil_r).
    unfold bind at 1, modify_ps at 1. simpl. rewrite Hs. reflexivity.
  - rewrite Hd. unfold bind at 1, ret at 1.
    unfold bind at 1, modify_ps at 1. simpl. rewrite Hs, app_nil_r.
    destruct (ps w); reflexivity.
Qed.

(** X10.  In the DNS stage (a lookup is out for the head
    of [servers], there is an entry, the caller is valid, section-44
    debugging is below level 3), let the lookups be answered by [ias],
    one answer per record, each null or with its current index inside
    its array.  The records are resolved strictly in the order of
    [servers], one lookup at a time, until the records run out or [paths]
    is full; then the callback is invoked, once, with the destinations
    of the answered records in that order, the context is freed, and
    [request->hier.ping] holds the ping data with [stop] set to the
    current time. *)
Theorem dns_stage_delivers (E : Env) (ias : list (option ipcache_addrs)) :
  debugs_on E 44 3 = false ->
  forall w,
    dns_stage w -> cb_valid w = true -> Forall answer_ok ias ->
    (length (servers (ps w)) <= length ias)%nat ->
    exists w' before after,
      run E (map DnsResults ias) w = Ret tt w' /\ freed w' = true
      /\ trace w' = trace w ++ before ++ Callback (resolved E (ps w) ias) :: after
      /\ callbacks before = O /\ callbacks after = O
      /\ stop (hier_ping w') = current_time w.
Proof.
  intros Hd3. induction ias as [|ia ias IH]; intros w Hst Hv Hok Hlen.
  - destruct Hst as (_ & _ & Hs & _).
    destruct (servers (ps w)); [congruence | simpl in Hlen; lia].
  - inversion Hok as [|? ? Hia Hrest]; subst.
    destruct Hst as (Hf & Hp & Hs & Hcb & He).
    destruct (dns_pending w) as [|k] eqn:Hk; [congruence|].
    destruct (servers (ps w)) as [|f rest] eqn:Hsv; [congruence|].
    destruct (answered_fields E (ps w) ia) as (Ae & Ac & Ar & Ap & As).
    rewrite Hsv in As. simpl in As.
    assert (Hdel : deliver E (DnsResults ia) w =
                   peerSelectDnsPaths E
                     (with_ps (answered E (ps w) ia)
                        (with_trace (trace w ++ [RecordLookup])
                           (with_dns_pending k w)))).
    { unfold deliver. rewrite Hf, Hk.
      now rewrite (dns_answer_runs E (with_dns_pending k w) ia f rest Hd3 Hsv Hia). }
    set (w2 := with_ps (answered E (ps w) ia)
                 (with_trace (trace w ++ [RecordLookup]) (with_dns_pending k w)))
      in Hdel.
    cbn [map run resolved]. unfold bind. rewrite Hdel.
    destruct (more_lookups E (answered E (ps w) ia)) eqn:Hm.
    + destruct (dns_paths_next_lookup E w2 Hm) as [h Hr];
        [subst w2; simpl; congruence|].
      rewrite Hr.
      set (w3 := with_dns_pending (S (dns_pending w2))
                   (with_trace (trace w2 ++ [DnsLookup h]) w2)).
      destruct (IH w3) as (w' & before & after & Hrun & Hfr & Htr & Hb & Ha & Hh).
      * unfold dns_stage. subst w3 w2. simpl. repeat split; auto; try congruence.
        apply (more_lookups_servers E _ Hm).
      * exact Hv.
      * exact Hrest.
      * subst w3 w2. simpl. rewrite As. simpl in Hlen. lia.
      * exists w', (RecordLookup :: DnsLookup h :: before), after.
        rewrite Hrun. repeat split; auto.
        rewrite Htr. subst w3 w2. simpl. rewrite <- !app_assoc. reflexivity.
    + destruct (dns_paths_hands_over E w2 Hm) as (w' & t & Hr & Hfr & Htr & Ht & Hh);
        try (subst w2; simpl; congruence).
      rewrite Hr, (run_freed E _ w' Hfr).
      exists w', [RecordLookup], t. repeat split; auto.
      * rewrite Htr. subst w2. simpl. rewrite <- app_assoc. reflexivity.
      * rewrite Hh. reflexivity.
Qed.

Lemma dns_stage_delivers_witness :
  exists w' before after,
    run (site 10 1 0 false None) (map DnsResults [Some rotation_ia]) rotation_start
    = Ret tt w'
    /\ freed w' = true
    /\ trace w' =
       trace rotation_start ++ before
       ++ Callback (resolved (site 10 1 0 false None) (ps rotation_start)
                      [Some rotation_ia]) :: after.
Proof.
  destruct (dns_stage_delivers (site 10 1 0 false None) [Some rotation_ia]
              eq_refl rotation_start)
    as (w' & before & after & H1 & H2 & H3 & _).
  - unfold dns_stage. vm_compute. repeat split; discriminate.
  - vm_compute. reflexivity.
  - repeat constructor; simpl; lia.
  - vm_compute. lia.
  - exists w', before, after. split; [exact H1|]. split; [exact H2 | exact H3].
Defined.

(** ** Selections without a cache entry *)

Lemma no_ping_refl w : no_ping w w.
Proof. unfold no_ping. auto. Qed.

Lemma no_ping_trans a b c : no_ping a b -> no_ping b c -> no_ping a c.
Proof.
  unfold no_ping. intros H1 H2 Ha.
  destruct (H1 Ha) as (B1 & B2 & B3 & B4).
  destruct (H2 B1) as (C1 & C2 & C3 & C4).
  repeat split; congruence.
Qed.

Lemma entry_none_store st s : entry s = None -> entry (store_ping_status st s) = None.
Proof. intros H. unfold store_ping_status. now rewrite H. Qed.

Lemma entry_none_pinned E s : entry s = None -> entry (peerSelectPinned E s) = None.
Proof. apply peerSelectPinned_entry_none. Qed.

Lemma entry_none_select E s : entry s = None -> entry (select_by_direct E s) = None.
Proof.
  intros H. destruct (plain_ext_select_by_direct E s) as (He & _). congruence.
Qed.

Ltac no_ping_pure :=
  unfold no_ping; simpl; intros;
  rewrite ?filter_app; simpl; rewrite ?app_nil_r;
  repeat split;
  first [ assumption | reflexivity
        | apply entry_none_store; assumption
        | apply entry_none_pinned; assumption
        | apply entry_none_select; assumption ].

Ltac nstep := kstep no_ping_refl no_ping_trans ltac:(solve [no_ping_pure]).
Create HintDb no_pings discriminated.
Ltac no_ping_steps := repeat nstep; auto with no_pings.

Lemma no_ping_cbdataFree w : kept no_ping cbdataFree w.
Proof. unfold cbdataFree. no_ping_steps. Qed.
Lemma no_ping_deref_entry l w : kept no_ping (deref_entry l) w.
Proof. unfold deref_entry. no_ping_steps. Qed.
#[local] Hint Resolve no_ping_cbdataFree no_ping_deref_entry : no_pings.
Lemma no_ping_debugs E a b w : kept no_ping (debugs_entry_url E a b) w.
Proof. unfold debugs_entry_url. no_ping_steps. Qed.
Lemma no_ping_nbgethostbyname h w : kept no_ping (ipcache_nbgethostbyname h) w.
Proof. unfold ipcache_nbgethostbyname. no_ping_steps. Qed.
Lemma no_ping_nonBlockingCheck l w : kept no_ping (nonBlockingCheck l) w.
Proof. unfold nonBlockingCheck. no_ping_steps. Qed.
Lemma no_ping_ValidDone w : kept no_ping cbdataReferenceValidDone w.
Proof. unfold cbdataReferenceValidDone. no_ping_steps. Qed.
#[local] Hint Resolve no_ping_debugs
  no_ping_nbgethostbyname no_ping_nonBlockingCheck no_ping_ValidDone : no_pings.

(** What is guarded by the entry pointer is not reached without one. *)
Lemma no_ping_peerSelectStateFree w : kept no_ping peerSelectStateFree w.
Proof.
  unfold kept. intros Hn.
  unfold peerSelectStateFree, cbdataFree, when.
  unfold bind, get_ps, modify_ps, emit, ret. simpl. rewrite Hn. simpl.
  destruct (is_some (acl_checklist (ps w))); simpl; rewrite Hn; simpl;
    rewrite ?filter_app; simpl; rewrite ?app_nil_r; auto.
Qed.
#[local] Hint Resolve no_ping_peerSelectStateFree : no_pings.

Lemma no_ping_peerSelectDnsPaths E w : kept no_ping (peerSelectDnsPaths E) w.
Proof. unfold peerSelectDnsPaths. cbv zeta. no_ping_steps. Qed.
#[local] Hint Resolve no_ping_peerSelectDnsPaths : no_pings.

Lemma no_ping_peerGetSomeNeighbor E w : kept no_ping (peerGetSomeNeighbor E) w.
Proof.
  unfold kept. intros Hn.
  unfold peerGetSomeNeighbor, deref_entry, bind, get_ps, raise. rewrite Hn.
  simpl. auto.
Qed.
#[local] Hint Resolve no_ping_peerGetSomeNeighbor : no_pings.

Lemma no_ping_peerGetSomeNeighborReplies E w :
  kept no_ping (peerGetSomeNeighborReplies E) w.
Proof. unfold peerGetSomeNeighborReplies. no_ping_steps. Qed.
#[local] Hint Resolve no_ping_peerGetSomeNeighborReplies : no_pings.

Lemma no_ping_peerSelectFoo_neighbors E w :
  kept no_ping (peerSelectFoo_neighbors E) w.
Proof. unfold peerSelectFoo_neighbors. no_ping_steps. Qed.
#[local] Hint Resolve no_ping_peerSelectFoo_neighbors : no_pings.

Lemma no_ping_peerSelectFoo E w : kept no_ping (peerSelectFoo E) w.
Proof. unfold peerSelectFoo. no_ping_steps. Qed.
#[local] Hint Resolve no_ping_peerSelectFoo : no_pings.

Lemma no_ping_first_miss p l w : kept no_ping (first_miss p l) w.
Proof. unfold first_miss. cbv zeta. no_ping_steps. Qed.
#[local] Hint Resolve no_ping_first_miss : no_pings.

Lemma no_ping_peerHandlePingReply E p t d w :
  kept no_ping (peerHandlePingReply E p t d) w.
Proof.
  unfold peerHandlePingReply, peerHandleIcpReply, peerHandleHtcpReply,
    peerIcpParentMiss, peerHtcpParentMiss, after_reply.
  cbv zeta. no_ping_steps.
Qed.

Lemma no_ping_peerCheckAlwaysDirectDone E a w :
  kept no_ping (peerCheckAlwaysDirectDone E a) w.
Proof. unfold peerCheckAlwaysDirectDone. no_ping_steps. Qed.

Lemma no_ping_peerCheckNeverDirectDone E a w :
  kept no_ping (peerCheckNeverDirectDone E a) w.
Proof. unfold peerCheckNeverDirectDone. no_ping_steps. Qed.

Lemma no_ping_dns_loop E ia fs k :
  forall n ip w, kept no_ping (dns_loop E ia fs k n ip) w.
Proof.
  induction k as [|k IH]; intros n ip w; cbn [dns_loop].
  - apply no_ping_refl.
  - unfold in_addrs_at. no_ping_steps.
Qed.
#[local] Hint Resolve no_ping_dns_loop : no_pings.

Lemma no_ping_peerSelectDnsResults E ia w :
  kept no_ping (peerSelectDnsResults E ia) w.
Proof. unfold peerSelectDnsResults. no_ping_steps. Qed.

(** Without entry and without timer, the events of the ping machinery
    find nothing to act on. *)
Lemma no_ping_deliver E ev w :
  ping_timer w = false -> pings_sent w = false -> kept no_ping (deliver E ev) w.
Proof.
  intros Ht Hs. unfold kept, deliver. destruct (freed w); [apply no_ping_refl|].
  rewrite Ht, Hs.
  destruct ev; try apply no_ping_refl.
  - destruct (acl_pending w && _); [|apply no_ping_refl].
    apply (no_ping_trans _ (with_acl_pending false w));
      [unfold no_ping; simpl; auto|].
    apply (no_ping_peerCheckAlwaysDirectDone E answer (with_acl_pending false w)).
  - destruct (acl_pending w && _); [|apply no_ping_refl].
    apply (no_ping_trans _ (with_acl_pending false w));
      [unfold no_ping; simpl; auto|].
    apply (no_ping_peerCheckNeverDirectDone E answer (with_acl_pending false w)).
  - destruct (dns_pending w) as [|k]; [apply no_ping_refl|].
    apply (no_ping_trans _ (with_dns_pending k w));
      [unfold no_ping; simpl; auto|].
    apply (no_ping_peerSelectDnsResults E ia (with_dns_pending k w)).
  - unfold no_ping. simpl. auto.
  - unfold no_ping. simpl. auto.
Qed.

Lemma no_ping_run E evs :
  forall w, entry (ps w) = None -> ping_timer w = false -> pings_sent w = false ->
    no_ping w (world_of (run E evs w)).
Proof.
  induction evs as [|ev evs IH]; intros w Hn Ht Hs; cbn [run].
  - apply no_ping_refl.
  - pose proof (no_ping_deliver E ev w Ht Hs) as Hd. unfold kept in Hd.
    unfold bind. destruct (deliver E ev w) as [[] w1|f w1]; simpl in Hd.
    + destruct (Hd Hn) as (A1 & A2 & A3 & A4).
      eapply no_ping_trans; [exact Hd|]. apply IH; congruence.
    + exact Hd.
Qed.

(** X8.  A selection started without a
    cache entry never uses the ping machinery, whatever events arrive:
    [neighborsUdpPing] is not called, and the [peerPingTimeout] event is
    neither added nor deleted. *)
Theorem entryless_selection_never_pings (E : Env) (pths : list Connection)
    (rq : HttpRequest) (now : Z) (evs : list event) :
  pings_sent (world_of (selection E pths rq None now evs)) = false
  /\ ping_timer (world_of (selection E pths rq None now evs)) = false
  /\ filter ping_effect (trace (world_of (selection E pths rq None now evs))) = [].
Proof.
  assert (H0 : no_ping (new_world pths rq None now)
                 (world_of (peerSelect E pths rq None now))).
  { unfold peerSelect.
    change (kept no_ping (emit RequestLock ;; when (is_some (@None StoreEntry))
                            (emit EntryLock) ;; peerSelectFoo E)
              (new_world pths rq None now)).
    no_ping_steps. }
  destruct (H0 eq_refl) as (A1 & A2 & A3 & A4). simpl in A2, A3, A4.
  unfold selection.
  destruct (peerSelect E pths rq None now) as [[] w1|f w1]; simpl in *.
  - destruct (no_ping_run E evs w1 A1 A3 A2 A1) as (_ & B2 & B3 & B4).
    repeat split; congruence.
  - auto.
Qed.

(** ** The ACL checks *)

Lemma acl_checks_app t1 t2 : acl_checks (t1 ++ t2) = acl_checks t1 ++ acl_checks t2.
Proof.
  induction t1 as [|e t1 IH]; simpl; [reflexivity|].
  destruct e; simpl; rewrite IH; reflexivity.
Qed.

Lemma decided_refl w : decided w w.
Proof. unfold decided. auto. Qed.

Lemma decided_trans a b c : decided a b -> decided b c -> decided a c.
Proof.
  unfold decided. intros H1 H2 Ha.
  destruct (H1 Ha) as (B1 & B2).
  destruct H2 as (C1 & C2); [congruence|]. split; congruence.
Qed.

Lemma direct_select_by_direct E s : direct (select_by_direct E s) = direct s.
Proof. destruct (plain_ext_select_by_direct E s) as (_ & _ & _ & H & _). exact H. Qed.

Ltac decided_pure :=
  unfold decided; simpl; intros;
  rewrite ?direct_store_ping_status, ?direct_peerSelectPinned,
    ?direct_select_by_direct, ?acl_checks_app;
  simpl; rewrite ?app_nil_r; auto.

Ltac dstep' := kstep decided_refl decided_trans ltac:(solve [decided_pure]).
Create HintDb decideds discriminated.
Ltac decided_steps := repeat dstep'; auto with decideds.

Lemma decided_cbdataFree w : kept decided cbdataFree w.
Proof. unfold cbdataFree. decided_steps. Qed.
Lemma decided_eventAdd n w : kept decided (eventAdd n) w.
Proof. unfold eventAdd. decided_steps. Qed.
Lemma decided_eventDelete w : kept decided eventDelete w.
Proof. unfold eventDelete. decided_steps. Qed.
Lemma decided_deref_entry l w : kept decided (deref_entry l) w.
Proof. unfold deref_entry. decided_steps. Qed.
#[local] Hint Resolve decided_cbdataFree decided_eventAdd decided_eventDelete
  decided_deref_entry : decideds.

Lemma decided_debugs E a b w : kept decided (debugs_entry_url E a b) w.
Proof. unfold debugs_entry_url. decided_steps. Qed.
Lemma decided_nbgethostbyname h w : kept decided (ipcache_nbgethostbyname h) w.
Proof. unfold ipcache_nbgethostbyname. decided_steps. Qed.
Lemma decided_ValidDone w : kept decided cbdataReferenceValidDone w.
Proof. unfold cbdataReferenceValidDone. decided_steps. Qed.
#[local] Hint Resolve decided_debugs decided_nbgethostbyname decided_ValidDone
  : decideds.

Lemma decided_peerSelectStateFree w : kept decided peerSelectStateFree w.
Proof. unfold peerSelectStateFree. decided_steps. Qed.
#[local] Hint Resolve decided_peerSelectStateFree : decideds.

Lemma decided_peerSelectDnsPaths E w : kept decided (peerSelectDnsPaths E) w.
Proof. unfold peerSelectDnsPaths. cbv zeta. decided_steps. Qed.
#[local] Hint Resolve decided_peerSelectDnsPaths : decideds.

Lemma decided_peerSelectIcpPing E rq d en w :
  kept decided (peerSelectIcpPing E rq d en) w.
Proof. unfold peerSelectIcpPing. decided_steps. Qed.
#[local] Hint Resolve decided_peerSelectIcpPing : decideds.

Lemma decided_neighbor_done pc w : kept decided (neighbor_done pc) w.
Proof. unfold neighbor_done. decided_steps. Qed.
#[local] Hint Resolve decided_neighbor_done : decideds.

Lemma decided_peerGetSomeNeighbor E w : kept decided (peerGetSomeNeighbor E) w.
Proof. unfold peerGetSomeNeighbor. decided_steps. Qed.
#[local] Hint Resolve decided_peerGetSomeNeighbor : decideds.

Lemma decided_peerGetSomeNeighborReplies E w :
  kept decided (peerGetSomeNeighborReplies E) w.
Proof. unfold peerGetSomeNeighborReplies. decided_steps. Qed.
#[local] Hint Resolve decided_peerGetSomeNeighborReplies : decideds.

Lemma decided_peerSelectFoo_neighbors E w :
  kept decided (peerSelectFoo_neighbors E) w.
Proof. unfold peerSelectFoo_neighbors. decided_steps. Qed.
#[local] Hint Resolve decided_peerSelectFoo_neighbors : decideds.

(** The arbiter runs only while [direct] is undecided. *)
Lemma decided_peerSelectFoo E w : kept decided (peerSelectFoo E) w.
Proof.
  unfold peerSelectFoo. apply kept_get_ps.
  destruct (direct_eqb (direct (ps w)) DIRECT_UNKNOWN) eqn:Hu.
  - apply direct_eqb_eq in Hu. intros H. contradiction.
  - auto with decideds.
Qed.
#[local] Hint Resolve decided_peerSelectFoo : decideds.

Lemma decided_first_miss p l w : kept decided (first_miss p l) w.
Proof. unfold first_miss. cbv zeta. decided_steps. Qed.
#[local] Hint Resolve decided_first_miss : decideds.

Lemma decided_peerHandlePingReply E p t d w :
  kept decided (peerHandlePingReply E p t d) w.
Proof.
  unfold peerHandlePingReply, peerHandleIcpReply, peerHandleHtcpReply,
    peerIcpParentMiss, peerHtcpParentMiss, after_reply.
  cbv zeta. decided_steps.
Qed.

Lemma decided_peerCheckAlwaysDirectDone E a w :
  kept decided (peerCheckAlwaysDirectDone E a) w.
Proof. unfold peerCheckAlwaysDirectDone. decided_steps. Qed.

Lemma decided_peerCheckNeverDirectDone E a w :
  kept decided (peerCheckNeverDirectDone E a) w.
Proof. unfold peerCheckNeverDirectDone. decided_steps. Qed.

Lemma decided_peerPingTimeout E w : kept decided (peerPingTimeout E) w.
Proof. unfold peerPingTimeout. decided_steps. Qed.

Lemma decided_dns_loop E ia fs k :
  forall n ip w, kept decided (dns_loop E ia fs k n ip) w.
Proof.
  induction k as [|k IH]; intros n ip w; cbn [dns_loop].
  - apply decided_refl.
  - unfold in_addrs_at. decided_steps.
Qed.
#[local] Hint Resolve decided_dns_loop : decideds.

Lemma decided_peerSelectDnsResults E ia w :
  kept decided (peerSelectDnsResults E ia) w.
Proof. unfold peerSelectDnsResults. decided_steps. Qed.

Lemma decided_deliver E ev w : kept decided (deliver E ev) w.
Proof.
  unfold kept, deliver. destruct (freed w); [apply decided_refl|].
  destruct ev.
  - destruct (acl_pending w && _); [|apply decided_refl].
    apply (decided_peerCheckAlwaysDirectDone E answer (with_acl_pending false w)).
  - destruct (acl_pending w && _); [|apply decided_refl].
    apply (decided_peerCheckNeverDirectDone E answer (with_acl_pending false w)).
  - destruct (pings_sent w); [|apply decided_refl].
    apply decided_peerHandlePingReply.
  - destruct (ping_timer w); [|apply decided_refl].
    apply (decided_peerPingTimeout E (with_ping_timer false w)).
  - destruct (dns_pending w) as [|k]; [apply decided_refl|].
    apply (decided_peerSelectDnsResults E ia (with_dns_pending k w)).
  - unfold decided. simpl. auto.
  - unfold decided. simpl. auto.
Qed.

Lemma acl_invariant_decided E w w' :
  direct (ps w) <> DIRECT_UNKNOWN -> acl_order (acl_checks (trace w)) ->
  decided w w' -> acl_invariant E w'.
Proof.
  intros Hd Ho H. destruct (H Hd) as (H1 & H2). split.
  - now rewrite H2.
  - intros Hu. congruence.
Qed.

(** [peerSelectFoo] entered with [direct] undecided: either a check is
    launched and nothing else happens, or [direct] is decided for
    good. *)
Lemma acl_invariant_peerSelectFoo E w :
  direct (ps w) = DIRECT_UNKNOWN -> freed w = false ->
  pings_sent w = false -> ping_timer w = false -> dns_pending w = O ->
  servers (ps w) = [] ->
  acl_order (acl_checks (trace w)) -> launchable E w ->
  acl_invariant E (world_of (peerSelectFoo E w)).
Proof.
  intros Hu Hf Hp Ht Hn Hs Ho (La & Ln).
  unfold peerSelectFoo. unfold bind at 1, get_ps at 1.
  rewrite Hu. simpl direct_eqb. cbv iota.
  destruct (arbiter E (ps w)) as [l|d] eqn:Ha.
  - unfold bind, modify_ps, nonBlockingCheck, bind, emit. simpl.
    unfold acl_invariant, undecided. simpl. rewrite acl_checks_app. simpl.
    unfold arbiter in Ha.
    destruct ((always_direct (ps w) =? 0) && has_AlwaysDirect E) eqn:Ca.
    + inversion Ha; subst l.
      apply andb_true_iff in Ca. destruct Ca as [C1 C2].
      apply Z.eqb_eq in C1. rewrite (La C1 C2). simpl.
      split; [unfold acl_order; auto|]. intros _. repeat split; auto.
    + destruct (0 <? always_direct (ps w)); [discriminate|].
      destruct ((never_direct (ps w) =? 0) && has_NeverDirect E) eqn:Cn.
      * inversion Ha; subst l.
        apply andb_true_iff in Cn. destruct Cn as [C1 C2].
        apply Z.eqb_eq in C1.
        assert (Hal : always_direct (ps w) <> 0 \/ has_AlwaysDirect E = false).
        { apply andb_false_iff in Ca. destruct Ca as [C|C]; [left|right; exact C].
          now apply Z.eqb_neq. }
        destruct (Ln C1 C2) as [-> | ->]; simpl;
          (split; [unfold acl_order; auto|]); intros _; repeat split; auto.
      * repeat match type of Ha with
               | context[if ?b then _ else _] => destruct b
               end; discriminate.
  - unfold bind at 1, modify_ps at 1.
    apply (acl_invariant_decided E (with_ps (set_direct d (ps w)) w)).
    + simpl. apply (arbiter_decided E _ _ Ha).
    + exact Ho.
    + apply decided_peerSelectFoo_neighbors.
Qed.

Lemma acl_invariant_deliver E ev w :
  acl_invariant E w -> acl_invariant E (world_of (deliver E ev w)).
Proof.
  intros [Ho Hund].
  destruct (direct_eqb (direct (ps w)) DIRECT_UNKNOWN) eqn:Hu.
  2:{ apply (acl_invariant_decided E w); auto.
      - intros H. apply direct_eqb_eq in H. congruence.
      - apply decided_deliver. }
  apply direct_eqb_eq in Hu.
  destruct (Hund Hu) as (Hf & Hp & Ht & Hn & Hs & Hacl).
  assert (Hsame : forall w1, trace w1 = trace w -> ps w1 = ps w ->
            freed w1 = freed w -> pings_sent w1 = pings_sent w ->
            ping_timer w1 = ping_timer w -> dns_pending w1 = dns_pending w ->
            acl_pending w1 = acl_pending w -> acl_invariant E w1).
  { intros w1 H1 H2 H3 H4 H5 H6 H7. unfold acl_invariant, undecided.
    rewrite H1, H2, H3, H4, H5, H6, H7. split; [exact Ho|]. intros _.
    repeat split; auto. }
  unfold deliver. rewrite Hf, Hp, Ht, Hn.
  destruct ev; simpl; try (now apply Hsame).
  - destruct (acl_pending w) eqn:Hpend; simpl; [|now apply Hsame].
    destruct (acl_checklist (ps w)) as [[|]|] eqn:Hl; try (now apply Hsame).
    specialize (Hacl eq_refl). simpl in Hacl.
    unfold peerCheckAlwaysDirectDone. unfold bind at 1, modify_ps at 1.
    unfold bind at 1, modify_ps at 1.
    apply acl_invariant_peerSelectFoo; simpl; auto.
    unfold launchable. simpl. rewrite Hacl. split.
    + intros H. destruct (negb (answer =? 0)); discriminate.
    + auto.
  - destruct (acl_pending w) eqn:Hpend; simpl; [|now apply Hsame].
    destruct (acl_checklist (ps w)) as [[|]|] eqn:Hl; try (now apply Hsame).
    specialize (Hacl eq_refl). simpl in Hacl. destruct Hacl as [Hc Hal].
    unfold peerCheckNeverDirectDone. unfold bind at 1, modify_ps at 1.
    unfold bind at 1, modify_ps at 1.
    apply acl_invariant_peerSelectFoo; simpl; auto.
    unfold launchable. simpl. split.
    + intros H1 H2. destruct Hal; congruence.
    + intros H. destruct (negb (answer =? 0)); discriminate.
Qed.

Lemma acl_invariant_run E evs :
  forall w, acl_invariant E w -> acl_invariant E (world_of (run E evs w)).
Proof.
  induction evs as [|ev evs IH]; intros w Hi; cbn [run]; [exact Hi|].
  pose proof (acl_invariant_deliver E ev w Hi) as Hd.
  unfold bind. destruct (deliver E ev w) as [[] w1|f w1]; simpl in Hd.
  - now apply IH.
  - exact Hd.
Qed.

(** X7.  Over a whole selection, whatever events
    arrive, each of the two ACL lists is handed to the checker at most
    once, and [never_direct] only after [always_direct]; and as long as
    [direct] is undecided the context is alive, no record has been
    selected, no neighbour has been pinged and no lookup started. *)
Theorem acl_lists_checked_once (E : Env) (pths : list Connection)
    (rq : HttpRequest) (en : option StoreEntry) (now : Z) (evs : list event) :
  acl_order (acl_checks (trace (world_of (selection E pths rq en now evs))))
  /\ (direct (ps (world_of (selection E pths rq en now evs))) = DIRECT_UNKNOWN ->
      servers (ps (world_of (selection E pths rq en now evs))) = []
      /\ pings_sent (world_of (selection E pths rq en now evs)) = false
      /\ dns_pending (world_of (selection E pths rq en now evs)) = O
      /\ freed (world_of (selection E pths rq en now evs)) = false).
Proof.
  assert (H0 : acl_invariant E (world_of (peerSelect E pths rq en now))).
  { unfold peerSelect.
    assert (Hr : (emit RequestLock ;; when (is_some en) (emit EntryLock) ;;
                  peerSelectFoo E) (new_world pths rq en now)
                 = peerSelectFoo E
                     (with_trace (RequestLock :: (if is_some en then [EntryLock] else []))
                        (new_world pths rq en now))).
    { unfold bind, emit, when, ret. destruct en; reflexivity. }
    rewrite Hr.
    assert (Hc : acl_checks (RequestLock :: (if is_some en then [EntryLock] else []))
                 = []) by (destruct en; reflexivity).
    remember (RequestLock :: (if is_some en then [EntryLock] else [])) as t.
    apply acl_invariant_peerSelectFoo; simpl; auto.
    - rewrite Hc. unfold acl_order. auto.
    - unfold launchable. simpl. rewrite Hc. auto. }
  assert (H1 : acl_invariant E (world_of (selection E pths rq en now evs))).
  { unfold selection.
    destruct (peerSelect E pths rq en now) as [[] w1|f w1]; simpl in H0.
    - now apply acl_invariant_run.
    - exact H0. }
  destruct H1 as [Ho Hu]. split; [exact Ho|].
  intros Hd. destruct (Hu Hd) as (Hf & Hp & _ & Hn & Hs & _). auto.
Qed.

(** ** First parent miss *)

(** One such reply, while more are expected and no closest parent is
    known. *)
Lemma weighted_miss_reply E w e p h :
  USE_ICMP E && query_icmp E = false ->
  freed w = false -> pings_sent w = true -> entry (ps w) = Some e ->
  IsAnyAddr (closest_parent_miss (ps w)) = true ->
  weighted_miss (p, h) ->
  n_recv (ping (ps w)) + 1 < n_replies_expected (ping (ps w)) ->
  exists w',
    deliver E (parent_reply (p, h)) w = Ret tt w'
    /\ first_state (ps w') =
       first_after (elapsed w) [(p, h)] (first_parent_miss (ps w))
         (w_rtt (ping (ps w)))
    /\ freed w' = false /\ pings_sent w' = true /\ entry (ps w') = Some e
    /\ closest_parent_miss (ps w') = closest_parent_miss (ps w)
    /\ elapsed w' = elapsed w
    /\ n_recv (ping (ps w')) = n_recv (ping (ps w)) + 1
    /\ n_replies_expected (ping (ps w')) = n_replies_expected (ping (ps w)).
Proof.
  intros Hi Hf Hs He Hc (Ho & Hco & Hw & Ha) Hn. simpl in Ho, Hco, Hw, Ha.
  unfold deliver, parent_reply. simpl fst. simpl snd. rewrite Hf, Hs.
  unfold peerHandlePingReply, peerHandleIcpReply.
  assert (Hdbg : debugs_entry_url E 3 722 w = Ret tt w).
  { unfold debugs_entry_url. destruct (debugs_on E 44 3); [|reflexivity].
    unfold bind, deref_entry, bind, get_ps. now rewrite He. }
  unfold bind at 1. rewrite Hdbg.
  unfold bind at 1, modify_ps at 1.
  set (w1 := with_ps (count_reply (ps w)) w).
  assert (Hicmp : forall k : M unit,
            (if USE_ICMP E then if query_icmp E then k else ret tt else ret tt)
            = ret tt).
  { intros k. apply andb_false_iff in Hi.
    destruct (USE_ICMP E), (query_icmp E); destruct Hi; try discriminate; reflexivity. }
  assert (Hmiss : exists w2,
    peerIcpParentMiss E p h w1 = Ret tt w2
    /\ first_state (ps w2) =
       first_after (elapsed w) [(p, h)] (first_parent_miss (ps w)) (w_rtt (ping (ps w)))
    /\ freed w2 = false /\ pings_sent w2 = true /\ entry (ps w2) = Some e
    /\ closest_parent_miss (ps w2) = closest_parent_miss (ps w)
    /\ elapsed w2 = elapsed w
    /\ n_recv (ping (ps w2)) = n_recv (ping (ps w)) + 1
    /\ n_replies_expected (ping (ps w2)) = n_replies_expected (ping (ps w))).
  { unfold peerIcpParentMiss. rewrite Hicmp.
    unfold bind at 1, ret at 1. unfold first_miss. rewrite Hco.
    unfold bind at 1, get_ps at 1. subst w1.
    change (closest_parent_miss (ps (with_ps (count_reply (ps w)) w)))
      with (closest_parent_miss (ps w)).
    change (first_parent_miss (ps (with_ps (count_reply (ps w)) w)))
      with (first_parent_miss (ps w)).
    change (start (ping (ps (with_ps (count_reply (ps w)) w))))
      with (start (ping (ps w))).
    change (w_rtt (ping (ps (with_ps (count_reply (ps w)) w))))
      with (w_rtt (ping (ps w))).
    rewrite Hc. cbn [negb].
    unfold bind at 1, get_time at 1.
    change (current_time (with_ps (count_reply (ps w)) w)) with (current_time w).
    apply Z.eqb_neq in Hw. rewrite Hw.
    unfold first_after, first_state, weighted_rtt, elapsed. cbn [fst snd].
    unfold when, modify_ps, ret.
    destruct (IsAnyAddr (first_parent_miss (ps w))
              || ((if Z.quot (tvSubMsec (start (ping (ps w))) (current_time w)
                              - basetime p) (weight p) <? 1
                   then 1
                   else Z.quot (tvSubMsec (start (ping (ps w))) (current_time w)
                                - basetime p) (weight p))
                  <? w_rtt (ping (ps w))));
      eexists; (split; [reflexivity|]); simpl; repeat split; auto. }
  destruct Hmiss as (w2 & Hr & Hfs & H1 & H2 & H3 & H4 & H5 & H6 & H7).
  assert (Hrun : (when (is_parent PEER_PARENT) (peerIcpParentMiss E p h) ;;
                  after_reply E) w1 = Ret tt w2).
  { unfold when. simpl is_parent. unfold bind at 1. rewrite Hr.
    unfold after_reply, bind, get_ps.
    replace (n_recv (ping (ps w2)) <? n_replies_expected (ping (ps w2))) with true
      by (symmetry; apply Z.ltb_lt; lia).
    reflexivity. }
  exists w2. split.
  - destruct (opcode h); try discriminate; exact Hrun.
  - repeat split; auto.
Qed.

Lemma first_after_run E e rs :
  USE_ICMP E && query_icmp E = false ->
  forall w,
    freed w = false -> pings_sent w = true -> entry (ps w) = Some e ->
    IsAnyAddr (closest_parent_miss (ps w)) = true ->
    n_recv (ping (ps w)) + Z.of_nat (length rs) < n_replies_expected (ping (ps w)) ->
    Forall weighted_miss rs ->
    first_state (ps (world_of (run E (map parent_reply rs) w))) =
    first_after (elapsed w) rs (first_parent_miss (ps w)) (w_rtt (ping (ps w))).
Proof.
  intros Hi. induction rs as [|[p h] rs IH]; intros w Hf Hs He Hc Hn Hall.
  - reflexivity.
  - inversion Hall as [|? ? Hr Hrest]; subst.
    simpl length in Hn.
    destruct (weighted_miss_reply E w e p h Hi Hf Hs He Hc Hr ltac:(lia))
      as (w1 & Hd & Hfs & H1 & H2 & H3 & H4 & H5 & H6 & H7).
    cbn [map run]. unfold bind. rewrite Hd.
    rewrite IH; auto; try congruence; try lia.
    unfold first_state in Hfs. rewrite H5.
    cbn [first_after] in *.
    destruct (IsAnyAddr (first_parent_miss (ps w))
              || (weighted_rtt (elapsed w) (fst (p, h)) <? w_rtt (ping (ps w))));
      inversion Hfs as [[Ha Hb]]; rewrite Ha, Hb; reflexivity.
Qed.

Lemma first_after_spec el rs :
  forall a best,
    IsAnyAddr a = false ->
    Forall weighted_miss rs ->
    (first_after el rs a best = (a, best)
     /\ Forall (fun r => best <= weighted_rtt el (fst r)) rs)
    \/ (exists before p h after,
          rs = before ++ (p, h) :: after
          /\ first_after el rs a best = (in_addr p, weighted_rtt el p)
          /\ weighted_rtt el p < best
          /\ Forall (fun r => weighted_rtt el p < weighted_rtt el (fst r)) before
          /\ Forall (fun r => weighted_rtt el p <= weighted_rtt el (fst r)) after).
Proof.
  induction rs as [|[p h] rs IH]; intros a best Ha Hall.
  - left. split; [reflexivity | constructor].
  - inversion Hall as [|? ? Hp Hrest]; subst.
    cbn [first_after fst snd]. rewrite Ha. simpl orb.
    destruct (weighted_rtt el p <? best) eqn:Hlt.
    + apply Z.ltb_lt in Hlt.
      destruct (IH (in_addr p) (weighted_rtt el p) ltac:(apply Hp) Hrest)
        as [[Heq Hge] | (before & p' & h' & after & Hrs & Heq & Hlt' & Hbf & Haf)].
      * right. exists [], p, h, rs. repeat split; auto.
      * right. exists ((p, h) :: before), p', h', after.
        subst rs. repeat split; auto; try lia;
          try (constructor; [simpl; lia | exact Hbf]).
    + apply Z.ltb_ge in Hlt.
      destruct (IH a best Ha Hrest)
        as [[Heq Hge] | (before & p' & h' & after & Hrs & Heq & Hlt' & Hbf & Haf)].
      * left. split; [exact Heq | constructor; [simpl; lia | exact Hge]].
      * right. exists ((p, h) :: before), p', h', after.
        subst rs. repeat split; auto;
          try (constructor; [simpl; lia | exact Hbf]).
Qed.

(** X19.  ICMP querying is off and no
    closest or first parent miss is recorded; [rs] is a non-empty list of
    parent MISS (or DECHO) replies, from peers that are not closest-only,
    have a weight and an address, delivered at one point in time while
    more replies are expected.  After the last one, [first_parent_miss]
    is the address of a peer of minimum weighted round-trip time
    ((elapsed - basetime) / weight, at least 1) and [w_rtt] is that time;
    every reply before that peer's has a strictly larger weighted time,
    so among equals the first one processed stays. *)
Theorem first_parent_miss_first_minimum (E : Env) (w : world)
    (e : StoreEntry) (rs : list (peer * icp_common_t)) :
  USE_ICMP E && query_icmp E = false ->
  freed w = false -> pings_sent w = true -> entry (ps w) = Some e ->
  IsAnyAddr (closest_parent_miss (ps w)) = true ->
  IsAnyAddr (first_parent_miss (ps w)) = true ->
  n_recv (ping (ps w)) + Z.of_nat (length rs) < n_replies_expected (ping (ps w)) ->
  rs <> [] ->
  Forall weighted_miss rs ->
  exists before p h after,
    rs = before ++ (p, h) :: after
    /\ first_parent_miss (ps (world_of (run E (map parent_reply rs) w)))
       = in_addr p
    /\ w_rtt (ping (ps (world_of (run E (map parent_reply rs) w))))
       = weighted_rtt (elapsed w) p
    /\ Forall (fun r => weighted_rtt (elapsed w) p
                        < weighted_rtt (elapsed w) (fst r)) before
    /\ Forall (fun r => weighted_rtt (elapsed w) p
                        <= weighted_rtt (elapsed w) (fst r)) after.
Proof.
  intros Hi Hf Hs He Hc Hfa Hn Hne Hall.
  pose proof (first_after_run E e rs Hi w Hf Hs He Hc Hn Hall) as Hrun.
  unfold first_state in Hrun.
  destruct rs as [|[p h] rs]; [congruence|].
  cbn [first_after fst snd] in Hrun. rewrite Hfa in Hrun. simpl orb in Hrun.
  inversion Hall as [|? ? Hr Hrest]; subst.
  destruct (first_after_spec (elapsed w) rs (in_addr p) (weighted_rtt (elapsed w) p)
              ltac:(apply Hr) Hrest)
    as [[Heq Hge] | (before & p' & h' & after & Hrs & Heq & Hlt' & Hbf & Haf)];
    rewrite Heq in Hrun; inversion Hrun as [[Ha Hb]].
  - exists [], p, h, rs. repeat split; auto.
  - exists ((p, h) :: before), p', h', after. subst rs. repeat split; auto;
      try (constructor; [simpl; lia | exact Hbf]).
Qed.

Lemma first_parent_miss_first_minimum_witness :
  exists before p h after,
    [(P1, mkIcp ICP_MISS 0 0); (heavy_parent, mkIcp ICP_MISS 0 0)]
      = before ++ (p, h) :: after
    /\ first_parent_miss
         (ps (world_of (run plain_site
                          (map parent_reply
                             [(P1, mkIcp ICP_MISS 0 0);
                              (heavy_parent, mkIcp ICP_MISS 0 0)])
                          late_world)))
       = in_addr p
    /\ w_rtt (ping (ps (world_of (run plain_site
                          (map parent_reply
                             [(P1, mkIcp ICP_MISS 0 0);
                              (heavy_parent, mkIcp ICP_MISS 0 0)])
                          late_world))))
       = weighted_rtt (elapsed late_world) p
    /\ Forall (fun r => weighted_rtt (elapsed late_world) p
                        < weighted_rtt (elapsed late_world) (fst r)) before
    /\ Forall (fun r => weighted_rtt (elapsed late_world) p
                        <= weighted_rtt (elapsed late_world) (fst r)) after.
Proof.
  apply (first_parent_miss_first_minimum plain_site late_world
           (mkEntry "http://origin.example/" PING_WAITING 0)).
  - reflexivity.
  - reflexivity.
  - reflexivity.
  - reflexivity.
  - reflexivity.
  - reflexivity.
  - vm_compute. reflexivity.
  - discriminate.
  - repeat constructor; vm_compute; discriminate.
Defined.

(** The parent of weight 2 answers second and wins: 40 ms count as 20. *)
Example heavy_parent_wins :
  first_state
    (ps (world_of (run plain_site
                     (map parent_reply
                        [(P1, mkIcp ICP_MISS 0 0); (heavy_parent, mkIcp ICP_MISS 0 0)])
                     late_world)))
  = (in_addr heavy_parent, 20).
Proof. vm_compute. reflexivity. Qed.

(** ** The RTT carried by an ICP reply *)

Lemma src_rtt_pad_decode rtt hops :
  0 <= rtt < 65536 -> 0 <= hops < 65536 ->
  Z.land (src_rtt_pad rtt hops) 65535 = rtt
  /\ Z.land (Z.shiftr (src_rtt_pad rtt hops) 16) 65535 = hops.
Proof.
  intros Hr Hh. unfold src_rtt_pad.
  change 65535 with (Z.ones 16).
  rewrite !Z.land_ones by lia. rewrite Z.shiftr_div_pow2 by lia.
  change (2 ^ 16) with 65536.
  replace ((hops * 65536 + rtt) / 65536) with hops
    by (rewrite Z.div_add_l by lia; rewrite (Z.div_small rtt) by lia; lia).
  split.
  - rewrite Z.add_comm, Z.mod_add by lia. apply Z.mod_small; lia.
  - apply Z.mod_small; lia.
Qed.

(** X20.  With ICMP querying on and the source-RTT
    flag set, [peerIcpParentMiss] reads the RTT from the low 16 bits of
    [pad] and the hop count from the high 16 bits.  A reply that carries
    a positive [rtt] is reported to the net-db, with its hops, unless
    [rtt] is 0xFFFF; it becomes the closest parent miss when no RTT is
    recorded yet or its [rtt] is smaller, 0xFFFF included.  (The peer is
    closest-only, so the function ends there.) *)
Theorem icp_src_rtt_decoded (E : Env) (w : world) (p : peer) (op : icp_opcode)
    (fl rtt hops : Z) :
  USE_ICMP E = true -> query_icmp E = true ->
  Z.land fl (ICP_FLAG_SRC_RTT E) <> 0 ->
  0 < rtt < 65536 -> 0 <= hops < 65536 ->
  closest_only p = true ->
  peerIcpParentMiss E p (mkIcp op fl (src_rtt_pad rtt hops)) w =
  Ret tt
    (with_ps (if (p_rtt (ping (ps w)) =? 0) || (rtt <? p_rtt (ping (ps w)))
              then note_closest p rtt (ps w) else ps w)
       (with_trace (trace w ++ (if rtt <? 65535
                                then [NetdbUpdatePeer p rtt hops] else []))
          w)).
Proof.
  intros Hi Hq Hfl Hr Hh Hco.
  destruct (src_rtt_pad_decode rtt hops ltac:(lia) Hh) as [Dr Dh].
  unfold peerIcpParentMiss, first_miss. rewrite Hi, Hq, Hco.
  cbn [icp_flags pad]. apply Z.eqb_neq in Hfl. rewrite Hfl. cbn [negb].
  cbv zeta. rewrite Dr, Dh.
  replace (0 <? rtt) with true by (symmetry; apply Z.ltb_lt; lia).
  replace (rtt =? 0) with false by (symmetry; apply Z.eqb_neq; lia).
  cbn [andb negb].
  unfold when, bind, get_ps, modify_ps, emit, ret.
  destruct (rtt <? 65535); simpl;
    destruct ((p_rtt (ping (ps w)) =? 0) || (rtt <? p_rtt (ping (ps w))));
    simpl; rewrite ?app_nil_r; try reflexivity;
    destruct w as [s ? ? ? ? ? ? ? ? ? ?]; destruct s; reflexivity.
Qed.

Lemma icp_src_rtt_decoded_witness :
  peerIcpParentMiss (site 10 1 0 false None) closest_only_parent
    (mkIcp ICP_MISS 1073741824 (src_rtt_pad 30 4))
    (pinged_start (site 10 1 0 false None)) =
  Ret tt
    (with_ps (if (p_rtt (ping (ps (pinged_start (site 10 1 0 false None)))) =? 0)
                 || (30 <? p_rtt (ping (ps (pinged_start (site 10 1 0 false None)))))
              then note_closest closest_only_parent 30
                     (ps (pinged_start (site 10 1 0 false None)))
              else ps (pinged_start (site 10 1 0 false None)))
       (with_trace (trace (pinged_start (site 10 1 0 false None))
                    ++ (if 30 <? 65535
                        then [NetdbUpdatePeer closest_only_parent 30 4] else []))
          (pinged_start (site 10 1 0 false None)))).
Proof.
  apply (icp_src_rtt_decoded (site 10 1 0 false None)
           (pinged_start (site 10 1 0 false None)) closest_only_parent
           ICP_MISS 1073741824 30 4).
  - reflexivity.
  - reflexivity.
  - vm_compute. discriminate.
  - lia.
  - lia.
  - reflexivity.
Defined.

(** ** An [always_direct] answer *)

(** X21.  The answer to the [always_direct]
    check arrives, and it is not zero; the request has no pinned
    connection and is not WAIS, and the entry, if any, is [PING_NONE].
    The handler clears the checklist and stores the answer as 1; the
    arbiter decides [DIRECT_YES] without consulting [never_direct]; no
    neighbour is asked, the entry goes to [PING_DONE], the direct record
    is the only one appended, and the DNS stage starts. *)
Theorem always_direct_allow_goes_direct (E : Env) (w : world) (answer : Z) :
  freed w = false -> acl_pending w = true ->
  acl_checklist (ps w) = Some AlwaysDirect ->
  direct (ps w) = DIRECT_UNKNOWN ->
  answer <> 0 ->
  pinnedConnection (request (ps w)) = None ->
  req_protocol (request (ps w)) <> PROTO_WAIS ->
  match entry (ps w) with
  | Some e => ping_status e = PING_NONE
  | None => True
  end ->
  deliver E (AlwaysDirectDone answer) w =
  peerSelectDnsPaths E
    (with_ps (add_server None HIER_DIRECT
                (store_ping_status PING_DONE
                   (set_direct DIRECT_YES
                      (set_always_direct 1 (set_acl_checklist None (ps w))))))
       (with_acl_pending false w)).
Proof.
  intros Hf Hp Hl Hu Ha Hpin Hw Hst.
  unfold deliver. rewrite Hf, Hp, Hl. cbn [andb].
  apply Z.eqb_neq in Ha.
  unfold peerCheckAlwaysDirectDone, peerSelectFoo, arbiter,
    peerSelectFoo_neighbors, peerGetSomeNeighbor, when, deref_entry, assert.
  unfold bind, get_ps, modify_ps, ret, raise.
  rewrite Ha. simpl. rewrite Hu. simpl.
  assert (Hpin' : forall s, request s = request (ps w) -> peerSelectPinned E s = s)
    by (intros s Hr; unfold peerSelectPinned; rewrite Hr, Hpin; reflexivity).
  assert (Hsel : forall s, request s = request (ps w) -> direct s = DIRECT_YES ->
            select_by_direct E s = add_server None HIER_DIRECT s).
  { intros s Hr Hd. unfold select_by_direct, peerGetSomeDirect. rewrite Hd, Hr.
    simpl. destruct (req_protocol (request (ps w))); try reflexivity. congruence. }
  destruct (entry (ps w)) as [e|] eqn:He.
  - rewrite Hst. simpl. rewrite Hpin' by reflexivity. simpl.
    repeat (progress (rewrite ?He, ?Hst; simpl)).
    unfold store_ping_status at 1 2. simpl. rewrite He. simpl.
    rewrite Hsel; unfold store_ping_status; simpl; rewrite ?He; reflexivity.
  - simpl. rewrite Hpin' by reflexivity. simpl. rewrite He.
    rewrite Hsel by reflexivity.
    unfold store_ping_status. simpl. rewrite He. reflexivity.
Qed.

Lemma always_direct_allow_goes_direct_witness :
  deliver acl_site (AlwaysDirectDone 1) acl_start =
  peerSelectDnsPaths acl_site
    (with_ps (add_server None HIER_DIRECT
                (store_ping_status PING_DONE
                   (set_direct DIRECT_YES
                      (set_always_direct 1
                         (set_acl_checklist None (ps acl_start))))))
       (with_acl_pending false acl_start)).
Proof.
  apply (always_direct_allow_goes_direct acl_site acl_start 1).
  - reflexivity.
  - reflexivity.
  - reflexivity.
  - reflexivity.
  - discriminate.
  - reflexivity.
  - discriminate.
  - reflexivity.
Defined.

(** The selection, from start to callback: one ACL check, one lookup,
    no ping. *)
Example always_direct_selection_trace :
  trace (world_of (selection acl_site [] pinged_request (Some (fresh_entry 0)) 0
                     [AlwaysDirectDone 1; DnsResults (Some rotation_ia)]))
  = [RequestLock; EntryLock; AclCheck AlwaysDirect; DnsLookup "origin.example";
     RecordLookup;
     Callback [mkConn (mkAddress 167772161 true 80) HIER_DIRECT no_addr;
               mkConn (mkAddress 167772162 true 80) HIER_DIRECT no_addr];
     RequestUnlock;
     EntryUnlock (mkEntry "http://origin.example/" PING_DONE 0);
     StateFree].
Proof. vm_compute. reflexivity. Qed.
